(** * scons_to_cmake.py: a shallow embedding of the SCons-to-CMake converter

    The development follows [misc/cmake_converter/scons_to_cmake.py]:

    - Python strings and the [str] methods the converter calls;
    - a backtracking matcher for the fragment of Python's [re] module that
      the converter's patterns use, with Python's priorities (leftmost
      match, greedy and lazy quantifiers, groups, look-ahead);
    - the extractors [_parse_option] and [_extract_list_items];
    - the emitters' line lists;
    - a directory tree with an ordered listing per directory, [pathlib]'s
      and [glob]'s traversals over it, and a state-and-exception monad in
      which [convert] and [main] are written;
    - theorems about all of these.

    Characters are code points below 256 ([ascii]); text with larger code
    points is outside the model. A file's text is the text [read] returns.

    Each function is embedded as it is written, with one exception. In
    [_generate_core_cmake_files] the lines 326-342 of the source are string
    literals that no call receives, closed by a bracket that nothing opens:
    Python refuses the file with a syntax error, so that as shipped no
    function of it runs. [core_content] and [core_round] read these lines
    as adding nothing to a library's file. The theorems on the library
    emitter and the examples of complete runs are about this reading; the
    theorems on every outcome of a run, and those on a single function
    whose own text is intact, hold however these lines are read.

    The tree is a model of a POSIX file system in which every file can be
    read as text and every name can be written: a failure to decode a
    file, a missing permission or a name that is too long are outside the
    model, so that a call of the program may fail where the model
    returns. *)

From Stdlib Require Import String Ascii List Bool Arith Lia Permutation.
Import ListNotations.
Open Scope string_scope.
Open Scope list_scope.

Set Implicit Arguments.

(** ** Python strings *)

Module PyStr.

Definition dquote : ascii := "034"%char.
Definition squote : ascii := "039"%char.
Definition newline : ascii := "010"%char.
Definition space : ascii := " "%char.

(** The one-character string. *)
Definition chr (c : ascii) : string := String c EmptyString.

(** Concatenation of strings, apart from the [++] of lists. *)
Infix "+++" := String.append (right associativity, at level 60).

Definition q : string := chr dquote.
Definition nl : string := chr newline.

Definition code (c : ascii) : nat := nat_of_ascii c.

Definition in_range (lo hi : nat) (c : ascii) : bool :=
  (lo <=? code c)%nat && (code c <=? hi)%nat.

(** [str.isspace] on one code point below 256; it is also the class [\s]
    of a [str] pattern. *)
Definition isspace (c : ascii) : bool :=
  in_range 9 13 c || in_range 28 32 c
  || (code c =? 133)%nat || (code c =? 160)%nat.

(** [str.isalnum] on one code point below 256. *)
Definition isalnum (c : ascii) : bool :=
  in_range 48 57 c || in_range 65 90 c || in_range 97 122 c
  || (code c =? 170)%nat || (code c =? 178)%nat || (code c =? 179)%nat
  || (code c =? 181)%nat || (code c =? 185)%nat || (code c =? 186)%nat
  || in_range 188 190 c
  || in_range 192 214 c || in_range 216 246 c || in_range 248 255 c.

(** The class [\w] of a [str] pattern. *)
Definition isword (c : ascii) : bool := isalnum c || (c =? "_")%char.

(** [str.lower] on one code point below 256. *)
Definition lower_char (c : ascii) : ascii :=
  if in_range 65 90 c || in_range 192 214 c || in_range 216 222 c
  then ascii_of_nat (code c + 32) else c.

Fixpoint lower (s : string) : string :=
  match s with
  | EmptyString => EmptyString
  | String c s' => String (lower_char c) (lower s')
  end.

(** [s.split(sep)] for a one-character separator: never the empty list. *)
Fixpoint split (sep : ascii) (s : string) : list string :=
  match s with
  | EmptyString => [EmptyString]
  | String c s' =>
      if (c =? sep)%char then EmptyString :: split sep s'
      else match split sep s' with
           | w :: ws => String c w :: ws
           | [] => [chr c]
           end
  end.

Fixpoint lstrip (p : ascii -> bool) (s : string) : string :=
  match s with
  | EmptyString => EmptyString
  | String c s' => if p c then lstrip p s' else s
  end.

Fixpoint rstrip (p : ascii -> bool) (s : string) : string :=
  match s with
  | EmptyString => EmptyString
  | String c s' =>
      match rstrip p s' with
      | EmptyString => if p c then EmptyString else chr c
      | r => String c r
      end
  end.

(** [s.strip(chars)], the set of characters given as a predicate;
    [s.strip()] is [strip isspace s]. *)
Definition strip (p : ascii -> bool) (s : string) : string :=
  rstrip p (lstrip p s).

Fixpoint mem_char (c : ascii) (chars : string) : bool :=
  match chars with
  | EmptyString => false
  | String d r => (c =? d)%char || mem_char c r
  end.

(** [s.startswith(pre)] *)
Fixpoint startswith (pre s : string) : bool :=
  match pre, s with
  | EmptyString, _ => true
  | String a pre', String b s' => (a =? b)%char && startswith pre' s'
  | String _ _, EmptyString => false
  end.

(** [sub in s] *)
Fixpoint contains (sub s : string) : bool :=
  startswith sub s ||
  match s with
  | EmptyString => false
  | String _ s' => contains sub s'
  end.

(** [s.endswith(suf)]: some tail of [s] is [suf]. *)
Fixpoint endswith (suf s : string) : bool :=
  (s =? suf)%string ||
  match s with
  | EmptyString => false
  | String _ s' => endswith suf s'
  end.

(** [sep.join(l)] *)
Definition join (sep : string) (l : list string) : string := String.concat sep l.

(** Truth value of a string: non-empty. *)
Definition nonempty (s : string) : bool :=
  match s with EmptyString => false | _ => true end.

End PyStr.
Import PyStr.

(** ** The fragment of [re] the converter uses *)

Module Re.

(** Every quantifier in the converter's patterns ranges over a one-character
    class, so repetition takes a class, not a sub-pattern. *)
Inductive regex : Type :=
| Eps
| Chr (p : ascii -> bool)
| Seq (r1 r2 : regex)
| Alt (r1 r2 : regex)
| Rep (greedy : bool) (least : nat) (p : ascii -> bool)
| Grp (n : nat) (r : regex)
| Ahead (r : regex)
| EndZ.

Definition only (c : ascii) : ascii -> bool := fun d => (d =? c)%char.
Definition except (c : ascii) : ascii -> bool := fun d => negb (d =? c)%char.
Definition any : ascii -> bool := fun _ => true.

(** [.] without DOTALL *)
Definition dot : ascii -> bool := except newline.

Fixpoint lit (s : string) : regex :=
  match s with
  | EmptyString => Eps
  | String c s' => Seq (Chr (only c)) (lit s')
  end.

Definition seq (l : list regex) : regex := fold_right Seq Eps l.

Definition captures := list (nat * string).

(** The text between a position and a later one, both given as what is left
    of the input. *)
Definition consumed (s s' : string) : string :=
  substring 0 (String.length s - String.length s') s.

Section Matcher.
Variable R : Type.

Fixpoint at_least (n : nat) (p : ascii -> bool) (s : string)
         (k : string -> option R) : option R :=
  match n with
  | 0 => k s
  | S n' =>
      match s with
      | String c s' => if p c then at_least n' p s' k else None
      | EmptyString => None
      end
  end.

(** Longest run first, then shorter ones. *)
Fixpoint star_greedy (p : ascii -> bool) (s : string)
         (k : string -> option R) : option R :=
  match s with
  | String c s' =>
      if p c then
        match star_greedy p s' k with
        | Some x => Some x
        | None => k s
        end
      else k s
  | EmptyString => k s
  end.

(** Shortest run first, then longer ones. *)
Fixpoint star_lazy (p : ascii -> bool) (s : string)
         (k : string -> option R) : option R :=
  match k s with
  | Some x => Some x
  | None =>
      match s with
      | String c s' => if p c then star_lazy p s' k else None
      | EmptyString => None
      end
  end.
End Matcher.

(** [rmatch r s caps k]: match [r] at the head of [s], then run [k] on what
    is left; a failing [k] makes the matcher try its next alternative. *)
Fixpoint rmatch (R : Type) (r : regex) (s : string) (caps : captures)
         (k : string -> captures -> option R) : option R :=
  match r with
  | Eps => k s caps
  | Chr p =>
      match s with
      | String c s' => if p c then k s' caps else None
      | EmptyString => None
      end
  | Seq r1 r2 => rmatch r1 s caps (fun s' caps' => rmatch r2 s' caps' k)
  | Alt r1 r2 =>
      match rmatch r1 s caps k with
      | Some x => Some x
      | None => rmatch r2 s caps k
      end
  | Rep greedy least p =>
      at_least least p s
        (fun s1 => (if greedy then @star_greedy R else @star_lazy R) p s1
                     (fun s2 => k s2 caps))
  | Grp n r' =>
      rmatch r' s caps (fun s' caps' => k s' ((n, consumed s s') :: caps'))
  | Ahead r' =>
      match rmatch r' s caps (fun _ caps' => Some caps') with
      | Some caps' => k s caps'
      | None => None
      end
  | EndZ =>
      match s with
      | EmptyString => k s caps
      | String _ _ => None
      end
  end.

(** A match object: where the match starts, its groups, and the text after
    it. *)
Record match_obj : Type := MatchObj {
  m_start : nat;
  m_caps : captures;
  m_rest : string
}.

Fixpoint assoc_nat (n : nat) (l : captures) : option string :=
  match l with
  | [] => None
  | (m, w) :: l' => if (m =? n)%nat then Some w else assoc_nat n l'
  end.

(** [m.group(n)]; every group of the converter's patterns takes part in
    every match. *)
Definition group (m : match_obj) (n : nat) : string :=
  match assoc_nat n (m_caps m) with
  | Some w => w
  | None => EmptyString
  end.

(** One attempt at one position. With [must_advance] an empty match is
    refused (the scanner sets it after an empty match). *)
Definition match_here (r : regex) (s : string) (pos : nat)
           (must_advance : bool) : option match_obj :=
  rmatch r s []
    (fun s' caps =>
       if must_advance && (String.length s' =? String.length s)%nat then None
       else Some (MatchObj pos caps s')).

Fixpoint search_from (r : regex) (s : string) (pos : nat)
         (must_advance : bool) : option match_obj :=
  match match_here r s pos must_advance with
  | Some m => Some m
  | None =>
      match s with
      | String _ s' => search_from r s' (S pos) false
      | EmptyString => None
      end
  end.

(** [re.search(r, s)] *)
Definition search (r : regex) (s : string) : option match_obj :=
  search_from r s 0 false.

(** The scanner behind [re.finditer]: each search starts where the last
    match ended. *)
Fixpoint scan (fuel : nat) (r : regex) (s : string) (pos : nat)
         (must_advance : bool) : list match_obj :=
  match fuel with
  | 0 => []
  | S fuel' =>
      match search_from r s pos must_advance with
      | None => []
      | Some m =>
          m :: scan fuel' r (m_rest m)
                 (pos + (String.length s - String.length (m_rest m)))
                 (String.length s - String.length (m_rest m)
                  =? m_start m - pos)%nat
      end
  end.

(** [re.finditer(r, s)]; two searches per character are the most a scan
    can make. *)
Definition finditer (r : regex) (s : string) : list match_obj :=
  scan (2 * String.length s + 2) r s 0 false.

End Re.
Import Re.

(** ** Pattern extractors *)

Module Extract.

(** The dictionaries [_parse_option] returns, by their ['type'] key. Only an
    enum option has a ['values'] key. *)
Inductive opt : Type :=
| BoolOpt (name desc : string) (default : bool)
| EnumOpt (name desc default : string) (values : list string)
| StringOpt (name desc default : string).

Definition opt_type (o : opt) : string :=
  match o with
  | BoolOpt _ _ _ => "bool"
  | EnumOpt _ _ _ _ => "enum"
  | StringOpt _ _ _ => "string"
  end.

Definition opt_name (o : opt) : string :=
  match o with
  | BoolOpt n _ _ | EnumOpt n _ _ _ | StringOpt n _ _ => n
  end.

Definition opt_desc (o : opt) : string :=
  match o with
  | BoolOpt _ d _ | EnumOpt _ d _ _ | StringOpt _ d _ => d
  end.

Definition ws : regex := Rep true 0 isspace.
Definition quoted (n : nat) : regex :=
  seq [lit q; Grp n (Rep true 1 (except dquote)); lit q].

(** [opts\.Add\((.*?)\)] *)
Definition re_opts_add : regex :=
  seq [lit "opts.Add("; Grp 1 (Rep false 0 dot); lit ")"].

(** [BoolVariable\(Q([^Q]+)Q,\s*Q([^Q]+)Q,\s*(\w+)\)], where [Q] stands for
    the double quote character *)
Definition re_bool : regex :=
  seq [lit "BoolVariable("; quoted 1; lit ","; ws; quoted 2; lit ","; ws;
       Grp 3 (Rep true 1 isword); lit ")"].

(** [EnumVariable\(Q([^Q]+)Q,\s*Q([^Q]+)Q,\s*Q([^Q]+)Q,\s*\((.*?)\)\)] *)
Definition re_enum : regex :=
  seq [lit "EnumVariable("; quoted 1; lit ","; ws; quoted 2; lit ","; ws;
       quoted 3; lit ","; ws; lit "("; Grp 4 (Rep false 0 dot); lit "))"].

(** [Q\s*,\s*Q([^Q]+)Q\s*,\s*Q([^Q]+)Q\s*,\s*Q([^Q]+)Q] *)
Definition re_str : regex :=
  seq [lit q; ws; lit ","; ws; quoted 1; ws; lit ","; ws; quoted 2;
       ws; lit ","; ws; quoted 3].

(** The argument of [strip] in the source: space, double quote, single
    quote. *)
Definition quote_chars (c : ascii) : bool :=
  (c =? space)%char || (c =? dquote)%char || (c =? squote)%char.

(** Lines 53-61, the rule for [BoolVariable]. *)
Definition bool_rule (args : string) : option opt :=
  match search re_bool args with
  | Some bool_match =>
      Some (BoolOpt (group bool_match 1) (group bool_match 2)
                    (lower (group bool_match 3) =? "true"))
  | None => None
  end.

(** Lines 63-72, the rule for [EnumVariable]. *)
Definition enum_rule (args : string) : option opt :=
  match search re_enum args with
  | Some enum_match =>
      Some (EnumOpt (group enum_match 1) (group enum_match 2)
                    (group enum_match 3)
                    (map (strip quote_chars) (split "," (group enum_match 4))))
  | None => None
  end.

(** Lines 74-82, the rule for string-valued options. *)
Definition str_rule (args : string) : option opt :=
  match search re_str args with
  | Some str_match =>
      Some (StringOpt (group str_match 1) (group str_match 2)
                      (group str_match 3))
  | None => None
  end.

Definition _parse_option (line : string) : option opt :=
  match search re_opts_add line with
  | None => None
  | Some m =>
      let args := group m 1 in
      match bool_rule args with
      | Some o => Some o
      | None =>
          match enum_rule args with
          | Some o => Some o
          | None => str_rule args
          end
      end
  end.

(** [\[(.*?)\]] *)
Definition re_list : regex :=
  seq [lit "["; Grp 1 (Rep false 0 dot); lit "]"].

(** The comprehension of line 180 on one matched group. *)
Definition list_items (items_str : string) : list string :=
  map (strip quote_chars)
      (filter (fun item => nonempty (strip isspace item))
              (split "," items_str)).

Definition _extract_list_items (text : string) : list string :=
  flat_map (fun m => list_items (group m 1)) (finditer re_list text).

(** [def\s+get_flags\(\):\s*(.*?)(?=def|\Z)] with DOTALL, and the same for
    [get_libs]. *)
Definition re_def (fname : string) : regex :=
  seq [lit "def"; Rep true 1 isspace; lit fname; lit "():"; ws;
       Grp 1 (Rep false 0 any); Ahead (Alt (lit "def") EndZ)].

End Extract.
Import Extract.

(** ** The intermediate model *)

Module Model.

(** A Python [dict] with string keys: insertion order is kept, assigning to
    a key that is present replaces its value in place. *)
Definition dict (V : Type) : Type := list (string * V).

Fixpoint dict_set (V : Type) (k : string) (v : V) (d : dict V) : dict V :=
  match d with
  | [] => [(k, v)]
  | (k', v') :: d' =>
      if (k' =? k)%string then (k, v) :: d' else (k', v') :: dict_set k v d'
  end.

Fixpoint dict_get (V : Type) (k : string) (d : dict V) : option V :=
  match d with
  | [] => None
  | (k', v') :: d' => if (k' =? k)%string then Some v' else dict_get k d'
  end.

Definition keys (V : Type) (d : dict V) : list string := map fst d.
Definition values (V : Type) (d : dict V) : list V := map snd d.

(** The dictionary of [_parse_platform_detect]. *)
Record platform_config : Type := PlatformConfig {
  p_name : string;
  p_defines : list string;
  p_libs : list string;
  p_includes : list string;
  p_flags : list string
}.

(** The dictionary of [_parse_module]. *)
Record module_config : Type := ModuleConfig {
  m_name : string;
  m_sources : list string;
  m_deps : list string;
  m_defines : list string;
  m_includes : list string
}.

(** The dictionary [_parse_module] starts from, lines 147-153. *)
Definition empty_module (module : string) : module_config :=
  {| m_name := module; m_sources := []; m_deps := [];
     m_defines := []; m_includes := [] |}.

End Model.
Import Model.

(** ** What the emitters write *)

Module Emit.

Definition blank : string := EmptyString.

(** Truth value of a list: non-empty. *)
Definition some (A : Type) (l : list A) : bool :=
  match l with [] => false | _ => true end.

(** Lines 198-206. *)
Definition option_lines (o : opt) : list string :=
  match o with
  | BoolOpt name desc default =>
      ["option(" +++ name +++ " " +++ q +++ desc +++ q +++ " "
         +++ (if default then "TRUE" else "FALSE") +++ ")"]
  | StringOpt name desc default =>
      ["set(" +++ name +++ " " +++ q +++ default +++ q +++ " CACHE STRING "
         +++ q +++ desc +++ q +++ ")"]
  | EnumOpt name desc default vals =>
      ["set(" +++ name +++ " " +++ q +++ default +++ q +++ " CACHE STRING "
         +++ q +++ desc +++ q +++ ")";
       "set_property(CACHE " +++ name +++ " PROPERTY STRINGS "
         +++ join ";" vals +++ ")"]
  end.

(** The [content] list of [_generate_root_cmakelists]. *)
Definition root_content (options : dict opt) : list string :=
  (["cmake_minimum_required(VERSION 3.20)";
    "project(godot)";
    blank;
    "# Global settings";
    "set(CMAKE_CXX_STANDARD 17)";
    "set(CMAKE_CXX_STANDARD_REQUIRED ON)";
    "set(CMAKE_POSITION_INDEPENDENT_CODE ON)";
    blank;
    "# Options"]
   ++ flat_map option_lines (values options)
   ++ [blank;
       "# Platform detection";
       "if(WIN32)";
       "    set(PLATFORM_NAME windows)";
       "elseif(APPLE)";
       "    set(PLATFORM_NAME macos)";
       "elseif(UNIX)";
       "    set(PLATFORM_NAME linuxbsd)";
       "endif()";
       blank;
       "# Include platform-specific configuration";
       "include(cmake/platform_${PLATFORM_NAME}.cmake)";
       blank;
       "# Add subdirectories";
       "add_subdirectory(core)";
       "add_subdirectory(drivers)";
       "add_subdirectory(main)";
       "add_subdirectory(modules)";
       "add_subdirectory(platform)";
       "add_subdirectory(scene)";
       "add_subdirectory(servers)";
       blank;
       "# Main executable";
       "add_executable(godot";
       "    main/main.cpp";
       ")";
       blank;
       "target_link_libraries(godot";
       "    PRIVATE";
       "    core";
       "    drivers";
       "    main";
       "    platform";
       "    scene";
       "    servers";
       "    ${CMAKE_THREAD_LIBS_INIT}";
       "    ${OPENGL_LIBRARIES}";
       "    ${X11_LIBRARIES}";
       "    ${ZLIB_LIBRARIES}";
       ")"]).

Definition indent4 (s : string) : string := "    " +++ s.
Definition indent8 (s : string) : string := "        " +++ s.

Definition flags_block (flags : list string) : list string :=
  if some flags
  then (["add_compile_options("] ++ map indent4 flags ++ [")"; blank])
  else [].

Definition defines_block (defines : list string) : list string :=
  if some defines
  then (["add_compile_definitions("] ++ map indent4 defines ++ [")"; blank])
  else [].

Definition libs_block (libs : list string) : list string :=
  if some libs
  then (["target_link_libraries(godot PRIVATE"] ++ map indent4 libs ++ [")"])
  else [].

(** The [content] list of one round of the loop of
    [_generate_platform_cmake_files], lines 262-289. *)
Definition platform_content (platform : string) (config : platform_config)
  : list string :=
  (["# Platform configuration for " +++ platform; blank; "# Compiler flags"]
   ++ flags_block (p_flags config)
   ++ defines_block (p_defines config)
   ++ libs_block (p_libs config)).

(** The [content] list of one round of the loop of
    [_generate_core_cmake_files] when it reaches line 344. The string
    literals of lines 326-341 (an empty line, the
    [target_include_directories] call, the [if(UNIX AND NOT APPLE)] block)
    follow the [print] of the [else] branch and are the arguments of no
    call: nothing appends them to [content]. Line 342 closes a bracket
    that nothing opens, which Python refuses; this definition is the
    function with lines 326-342 taken out, the one reading under which it
    runs at all. *)
Definition core_content (lib : string) (sources : list string) : list string :=
  (["# " +++ lib +++ " library"; blank; "set(LIB_SOURCES"]
   ++ (if some sources
       then sources ++ [")"; blank; "add_library(" +++ lib +++ " STATIC ${LIB_SOURCES})"]
       else [])).

(** The [content] list of modules/CMakeLists.txt, lines 353-359. *)
Definition modules_content (modules : dict module_config) : list string :=
  (["# Godot modules"; blank]
   ++ map (fun module => "add_subdirectory(" +++ module +++ ")") (keys modules)).

Definition deps_block (module : string) (deps : list string) : list string :=
  if some deps
  then (["target_link_libraries(" +++ module; "    PRIVATE"]
        ++ map indent8 deps ++ [")"])
  else [].

(** The [content] list of one module's file, lines 367-409. *)
Definition module_content (module : string) (config : module_config)
           (sources : list string) : list string :=
  (["# " +++ module +++ " module"; blank; "set(MODULE_SOURCES"]
   ++ (if some sources
       then sources ++ [")"; blank;
                        "add_library(" +++ module +++ " STATIC ${MODULE_SOURCES})";
                        blank]
       else [])
   ++ ["target_include_directories(" +++ module;
       "    PUBLIC";
       "        ${CMAKE_CURRENT_SOURCE_DIR}";
       "        ${CMAKE_SOURCE_DIR}";
       ")";
       blank]
   ++ deps_block module (m_deps config)).

End Emit.
Import Emit.

(** ** The project tree *)

Module Tree.

(** A directory keeps its entries in the order the operating system lists
    them. *)
#[warnings="-register-all"]
Inductive node : Type :=
| File (content : string)
| Dir (entries : list (string * node)).

Definition path : Type := list string.

Inductive exn : Type :=
| FileNotFoundError
| NotADirectoryError
| IsADirectoryError
| FileExistsError.

Inductive result (A : Type) : Type :=
| Ok (a : A)
| Raise (e : exn).
Arguments Ok {A} a.
Arguments Raise {A} e.

Fixpoint find (x : string) (es : list (string * node)) : option node :=
  match es with
  | [] => None
  | (y, n) :: es' => if (y =? x)%string then Some n else find x es'
  end.

(** Replace the entry called [x]. *)
Fixpoint replace (x : string) (n : node) (es : list (string * node))
  : list (string * node) :=
  match es with
  | [] => []
  | (y, m) :: es' =>
      if (y =? x)%string then (y, n) :: es' else (y, m) :: replace x n es'
  end.

Fixpoint walk (n : node) (p : path) : result node :=
  match p with
  | [] => Ok n
  | x :: p' =>
      match n with
      | File _ => Raise NotADirectoryError
      | Dir es =>
          match find x es with
          | Some c => walk c p'
          | None => Raise FileNotFoundError
          end
      end
  end.

(** [Path.exists] *)
Definition exists_ (n : node) (p : path) : bool :=
  match walk n p with Ok _ => true | Raise _ => false end.

(** [Path.is_dir], [os.path.isdir] *)
Definition is_dir (n : node) (p : path) : bool :=
  match walk n p with Ok (Dir _) => true | _ => false end.

(** [open(p).read()]: it fails on a missing path and on a directory. The
    other failures of the real call (a text that does not decode, a
    missing permission) are outside the model. *)
Definition read (n : node) (p : path) : result string :=
  match walk n p with
  | Ok (File content) => Ok content
  | Ok (Dir _) => Raise IsADirectoryError
  | Raise e => Raise e
  end.

(** [open(p, 'w')] followed by one [write] and the close: the file is
    created at the end of its directory's listing, or truncated and
    rewritten in place. It fails on a missing directory and on a path that
    is a directory; the other failures of the real call (a name longer
    than the system allows, a missing permission) are outside the
    model. *)
Fixpoint write (n : node) (p : path) (content : string) : result node :=
  match p with
  | [] => Raise IsADirectoryError
  | x :: p' =>
      match n with
      | File _ => Raise NotADirectoryError
      | Dir es =>
          match p' with
          | [] =>
              match find x es with
              | Some (Dir _) => Raise IsADirectoryError
              | Some (File _) => Ok (Dir (replace x (File content) es))
              | None => Ok (Dir (es ++ [(x, File content)]))
              end
          | _ :: _ =>
              match find x es with
              | Some c =>
                  match write c p' content with
                  | Ok c' => Ok (Dir (replace x c' es))
                  | Raise e => Raise e
                  end
              | None => Raise FileNotFoundError
              end
          end
      end
  end.

(** [Path.mkdir(exist_ok=True)] *)
Fixpoint mkdir (n : node) (p : path) : result node :=
  match p with
  | [] => Ok n
  | x :: p' =>
      match n with
      | File _ => Raise NotADirectoryError
      | Dir es =>
          match p' with
          | [] =>
              match find x es with
              | Some (Dir _) => Ok n
              | Some (File _) => Raise FileExistsError
              | None => Ok (Dir (es ++ [(x, Dir [])]))
              end
          | _ :: _ =>
              match find x es with
              | Some c =>
                  match mkdir c p' with
                  | Ok c' => Ok (Dir (replace x c' es))
                  | Raise e => Raise e
                  end
              | None => Raise FileNotFoundError
              end
          end
      end
  end.

(** [Path.glob('*')]: the names in a directory, hidden ones too, in listing
    order; nothing when the path is not a directory. *)
Definition path_glob_star (n : node) (p : path) : list string :=
  match walk n p with
  | Ok (Dir es) => map fst es
  | _ => []
  end.

(** [glob._ishidden] *)
Definition ishidden (x : string) : bool := startswith "." x.

(** [fnmatch] against [*suffix], case kept (POSIX). *)
Definition fnmatch_star (suffix name : string) : bool := endswith suffix name.

Definition is_dir_node (n : node) : bool :=
  match n with Dir _ => true | File _ => false end.

(** [glob.glob(d/**/*suffix, recursive=True)] below a node, as paths
    relative to it. [glob] walks the directories that are not hidden,
    each before its subdirectories and these in listing order, and in each
    takes the names that match and are not hidden, in listing order. A path
    reached through directory [x] comes, for one pattern, after the names
    of the directories before [x] and inside them. *)
Fixpoint glob_rec (suffix : string) (n : node) : list path :=
  match n with
  | File _ => []
  | Dir es =>
      map (fun x => [x])
          (filter (fun x => negb (ishidden x) && fnmatch_star suffix x)
                  (map fst es))
      ++ flat_map (fun '(x, c) =>
                     if is_dir_node c && negb (ishidden x)
                     then map (cons x) (glob_rec suffix c) else [])
                  es
  end.

(** The glob of a pattern below the directory at [p]. *)
Definition glob_at (n : node) (p : path) (suffix : string) : list path :=
  match walk n p with
  | Ok d => glob_rec suffix d
  | Raise _ => []
  end.

(** [os.path.relpath] of a found file, as text. *)
Definition rel_path (p : path) : string := join "/" p.

(** [glob.has_magic]: the text holds one of the characters that [glob]
    reads as a wildcard. *)
Definition has_magic (s : string) : bool :=
  mem_char "*" s || mem_char "?" s || mem_char "[" s.

(** [str(Path(s))] on POSIX: empty components and single dots are dropped,
    a leading slash is kept, two leading slashes are kept when there are
    exactly two, and the empty path is printed as a dot. *)
Definition pathlib_str (s : string) : string :=
  let root :=
    if startswith "/" s then
      if startswith "//" s && negb (startswith "///" s) then "//" else "/"
    else EmptyString in
  let parts :=
    filter (fun x => nonempty x && negb (x =? ".")%string) (split "/" s) in
  let text := root +++ join "/" parts in
  if nonempty text then text else ".".

End Tree.
Import Tree.

(** ** The converter *)

Module Run.

(** What a run can see and change: the tree below the project root, and the
    lines printed so far. [written] is a trace: every file written, in
    order, with its whole text. *)
Record world : Type := World {
  fs : node;
  stdout : list string;
  written : list (path * string)
}.

(** A computation changes the world and returns or raises. *)
Definition M (A : Type) : Type := world -> result A * world.

Definition ret (A : Type) (a : A) : M A := fun w => (Ok a, w).

Definition bind (A B : Type) (c : M A) (k : A -> M B) : M B :=
  fun w =>
    match c w with
    | (Ok a, w') => k a w'
    | (Raise e, w') => (Raise e, w')
    end.

Notation "x <- c ;; k" := (bind c (fun x => k))
  (at level 61, c at next level, right associativity).
Notation "c ;; k" := (bind c (fun _ => k))
  (at level 61, right associativity).

(** [for x in l: body] *)
Fixpoint forM_ (A : Type) (l : list A) (body : A -> M unit) : M unit :=
  match l with
  | [] => ret tt
  | x :: l' => body x ;; forM_ l' body
  end.

(** A loop that updates a local variable. *)
Fixpoint foldM (A B : Type) (body : B -> A -> M B) (l : list A) (b : B) : M B :=
  match l with
  | [] => ret b
  | x :: l' => b' <- body b x ;; foldM body l' b'
  end.

Definition print (line : string) : M unit :=
  fun w => (Ok tt, World (fs w) (stdout w ++ [line]) (written w)).

Definition open_read (p : path) : M string :=
  fun w => (read (fs w) p, w).

Definition path_exists (p : path) : M bool :=
  fun w => (Ok (exists_ (fs w) p), w).

Definition path_is_dir (p : path) : M bool :=
  fun w => (Ok (is_dir (fs w) p), w).

Definition path_glob (p : path) : M (list string) :=
  fun w => (Ok (path_glob_star (fs w) p), w).

(** [glob.glob(str(d / '**' / pattern), recursive=True)] for the directory
    [d] at [p]. The source puts the text of [d] into the pattern, so that a
    [*], [?] or [[] in it is read as a wildcard and other directories are
    searched: this definition is the call for a directory whose text holds
    none of the three ([has_magic]), and the theorems on what is found say
    so. *)
Definition glob (p : path) (suffix : string) : M (list path) :=
  fun w => (Ok (glob_at (fs w) p suffix), w).

Definition path_mkdir (p : path) : M unit :=
  fun w =>
    match mkdir (fs w) p with
    | Ok n => (Ok tt, World n (stdout w) (written w))
    | Raise e => (Raise e, w)
    end.

Definition open_write (p : path) (content : string) : M unit :=
  fun w =>
    match write (fs w) p content with
    | Ok n => (Ok tt, World n (stdout w) (written w ++ [(p, content)]))
    | Raise e => (Raise e, w)
    end.

(** Paths are relative to [self.root_dir]. *)

Definition parse_line (options : dict opt) (line : string) : dict opt :=
  if startswith "opts.Add(" (strip isspace line) then
    match _parse_option line with
    | Some option => dict_set (opt_name option) option options
    | None => options
    end
  else options.

Definition _parse_sconstruct : M (dict opt) :=
  content <- open_read ["SConstruct"] ;;
  ret (fold_left parse_line (split newline content) []).

Definition function_items (fname content : string) : list string :=
  match search (re_def fname) content with
  | Some m => _extract_list_items (group m 1)
  | None => []
  end.

Definition _parse_platform_detect (platform : string) (detect_py : path)
  : M platform_config :=
  content <- open_read detect_py ;;
  ret {| p_name := platform;
         p_defines := [];
         p_libs := function_items "get_libs" content;
         p_includes := [];
         p_flags := function_items "get_flags" content |}.

(** One round of the loop of [_parse_platform_configs], lines 92-100. *)
Definition platform_round (configs : dict platform_config) (platform : string)
  : M (dict platform_config) :=
  d <- path_is_dir ["platform"; platform] ;;
  if negb d then ret configs else
  e <- path_exists ["platform"; platform; "detect.py"] ;;
  if negb e then ret configs else
  config <- _parse_platform_detect platform
              ["platform"; platform; "detect.py"] ;;
  ret (dict_set platform config configs).

Definition _parse_platform_configs : M (dict platform_config) :=
  names <- path_glob ["platform"] ;;
  foldM platform_round names [].

Definition anchored_items (anchor content : string) : list string :=
  flat_map (fun line =>
              if contains anchor line then _extract_list_items line else [])
           (split newline content).

Definition _parse_module (module : string) (module_path : path)
  : M module_config :=
  e <- path_exists (module_path ++ ["SCsub"]) ;;
  if e then
    content <- open_read (module_path ++ ["SCsub"]) ;;
    ret {| m_name := module;
           m_sources := anchored_items "env.add_source_files" content;
           m_deps := anchored_items "env.Depends" content;
           m_defines := [];
           m_includes := [] |}
  else
    ret (empty_module module).

(** One round of the loop of [_parse_modules], lines 137-141. *)
Definition module_round (modules : dict module_config) (module : string)
  : M (dict module_config) :=
  d <- path_is_dir ["modules"; module] ;;
  if negb d then ret modules else
  config <- _parse_module module ["modules"; module] ;;
  ret (dict_set module config modules).

Definition _parse_modules : M (dict module_config) :=
  names <- path_glob ["modules"] ;;
  foldM module_round names [].

Definition _generate_root_cmakelists (options : dict opt) : M unit :=
  open_write ["CMakeLists.txt"] (join nl (root_content options)).

(** One round of the loop of [_generate_platform_cmake_files]. *)
Definition platform_file_round (entry : string * platform_config) : M unit :=
  let (platform, config) := entry in
  open_write ["cmake"; "platform_" +++ platform +++ ".cmake"]
             (join nl (platform_content platform config)).

Definition _generate_platform_cmake_files (configs : dict platform_config)
  : M unit :=
  path_mkdir ["cmake"] ;;
  forM_ configs platform_file_round.

Definition core_libs : list string :=
  ["core"; "drivers"; "main"; "platform"; "scene"; "servers"].

(** The patterns [*.cpp], [*.c], [*.h], [*.hpp], [*.inc], by their
    suffixes. *)
Definition exts : list string := [".cpp"; ".c"; ".h"; ".hpp"; ".inc"].

Section Converter.
(** The text of [self.root_dir], in the form [pathlib] prints
    ([pathlib_str]). It is used for the messages, and to say which
    directories [glob] reads without wildcards. *)
Variable root_dir : string.

(** [str(self.root_dir / x / ...)] for names [x ...]. *)
Definition path_str (p : path) : string :=
  if (root_dir =? ".")%string then join "/" p
  else if endswith "/" root_dir then root_dir +++ join "/" p
  else join "/" (root_dir :: p).

(** Lines 311-315: the source lines of one library. *)
Definition core_sources (lib : string) : M (list string) :=
  foldM (fun sources ext =>
           files <- glob [lib] ext ;;
           ret (sources ++ map (fun file => indent4 (rel_path file)) files))
        exts [].

(** One round of the loop of [_generate_core_cmake_files], on the reading
    of lines 326-342 that [core_content] gives. *)
Definition core_round (lib : string) : M unit :=
  e <- path_exists [lib] ;;
  if negb e then ret tt else
  sources <- core_sources lib ;;
  (if some sources then ret tt
   else print ("Warning: No source files found for library " +++ lib
               +++ " in " +++ path_str [lib])) ;;
  open_write [lib; "CMakeLists.txt"] (join nl (core_content lib sources)).

Definition _generate_core_cmake_files : M unit :=
  forM_ core_libs core_round.

(** Lines 375-380: the source lines of one module, each reported. *)
Definition module_sources (module : string) : M (list string) :=
  foldM (fun sources ext =>
           files <- glob ["modules"; module] ext ;;
           foldM (fun sources file =>
                    print ("Found source file for module " +++ module
                           +++ ": " +++ rel_path file) ;;
                    ret (sources ++ [indent4 (rel_path file)]))
                 files sources)
        exts [].

(** One round of the second loop of [_generate_module_cmake_files]. *)
Definition module_file_round (entry : string * module_config) : M unit :=
  let (module, config) := entry in
  sources <- module_sources module ;;
  (if some sources then ret tt
   else print ("Warning: No source files found for module " +++ module
               +++ " in " +++ path_str ["modules"; module])) ;;
  open_write ["modules"; module; "CMakeLists.txt"]
             (join nl (module_content module config sources)).

Definition _generate_module_cmake_files (modules : dict module_config)
  : M unit :=
  open_write ["modules"; "CMakeLists.txt"] (join nl (modules_content modules)) ;;
  forM_ modules module_file_round.

Definition convert : M unit :=
  print "Converting SCons to CMake..." ;;
  scons_options <- _parse_sconstruct ;;
  platform_configs <- _parse_platform_configs ;;
  modules <- _parse_modules ;;
  _generate_root_cmakelists scons_options ;;
  _generate_platform_cmake_files platform_configs ;;
  _generate_core_cmake_files ;;
  _generate_module_cmake_files modules.
End Converter.

(** [main]: the world holds the tree found at the path given on the command
    line; a path that is no directory is a [File] node. The error message
    shows the argument as it was given, the converter gets it through
    [Path]. *)
Definition main (argv : list string) : M nat :=
  match argv with
  | [_; root_dir] =>
      d <- path_is_dir [] ;;
      if negb d then
        print ("Error: " +++ root_dir +++ " is not a directory") ;;
        ret 1
      else
        convert (pathlib_str root_dir) ;;
        print "Done! CMake files have been generated." ;;
        ret 0
  | _ =>
      print "Usage: scons_to_cmake.py <godot_root_dir>" ;;
      ret 1
  end.

(** [os.sys.exit(main())]: the exit status of the process; an exception
    nobody catches ends it with status 1. *)
Definition exit_status (argv : list string) (w : world) : nat * world :=
  match main argv w with
  | (Ok status, w') => (status, w')
  | (Raise _, w') => (1, w')
  end.

Definition fresh (n : node) : world := World n [] [].

End Run.
Import Run.

(** ** What a run observes of the tree *)

Module View.

(** What is at a path: nothing, a directory, or a file with its text. *)
Definition stat (n : node) (p : path) : option (option string) :=
  match walk n p with
  | Ok (File content) => Some (Some content)
  | Ok (Dir _) => Some None
  | Raise _ => None
  end.

(** The names below [p] that [is_dir] accepts, in listing order: the rounds
    of the loops of [_parse_platform_configs] and [_parse_modules] that do
    not stop at their first test. *)
Definition subdirs (n : node) (p : path) : list string :=
  filter (fun x => is_dir n (p ++ [x])) (path_glob_star n p).

(** The same names, read off a directory node. *)
Definition subdir_names (d : node) : list string :=
  match d with
  | Dir es =>
      filter (fun x => match find x es with
                       | Some (Dir _) => true
                       | _ => false
                       end)
             (map fst es)
  | File _ => []
  end.

(** Two nodes a run reads alike: files with one text, or directories with
    the same subdirectories and the same sources found. *)
Definition same_view (d d' : node) : Prop :=
  match d, d' with
  | File a, File b => a = b
  | Dir _, Dir _ =>
      subdir_names d' = subdir_names d /\
      forall suffix, In suffix exts -> glob_rec suffix d' = glob_rec suffix d
  | _, _ => False
  end.

Definition same_result (r r' : result node) : Prop :=
  match r, r' with
  | Ok d, Ok d' => same_view d d'
  | Raise _, Raise _ => True
  | _, _ => False
  end.

(** The paths a run writes to are named CMakeLists.txt or lie below the
    directory cmake. *)
Definition generated (p : path) : bool :=
  (last p EmptyString =? "CMakeLists.txt")%string ||
  match p with
  | x :: _ => (x =? "cmake")%string
  | [] => false
  end.

(** No source pattern matches the name. *)
Definition no_source (name : string) : bool :=
  forallb (fun suffix => negb (fnmatch_star suffix name)) exts.

(** The directory cmake: as it was, or made where there was nothing. *)
Definition cmake_kept (n n' : node) : Prop :=
  stat n' ["cmake"] = stat n ["cmake"] \/
  (stat n ["cmake"] = None /\ stat n' ["cmake"] = Some None).

(** Two trees that a run cannot tell apart: they differ in generated files
    at most. *)
Record agree (n n' : node) : Prop := Agree {
  agree_stat : forall p, generated p = false -> stat n' p = stat n p;
  agree_is_dir : forall p, p <> ["cmake"] -> is_dir n' p = is_dir n p;
  agree_cmake : cmake_kept n n';
  agree_subdirs : forall p, p <> [] -> subdirs n' p = subdirs n p;
  agree_glob : forall p suffix, p <> [] -> In suffix exts ->
                                glob_at n' p suffix = glob_at n p suffix
}.

(** The paths a run writes to. *)
Definition target (q : path) : Prop :=
  generated q = true /\ no_source (last q EmptyString) = true /\ q <> ["cmake"].

(** A computation that changes generated files only. *)
Definition steady (A : Type) (c : M A) : Prop :=
  forall w r w', c w = (r, w') -> agree (fs w) (fs w').

(** Two results of one kind: the same value returned, or an exception
    raised on both sides. *)
Definition same_outcome (A : Type) (r r' : result A) : Prop :=
  match r, r' with
  | Ok a, Ok a' => a = a'
  | Raise _, Raise _ => True
  | _, _ => False
  end.

Definition cmake_dir (n : node) : Prop := stat n ["cmake"] = Some None.

(** A computation that ends alike, prints the same and writes the same on
    every tree that agrees, when [ready] holds of both trees at the start.
    For the computations that write into the directory cmake [ready] says
    that the directory is there. *)
Definition repeats_when (ready : node -> Prop) (A : Type) (c : M A) : Prop :=
  forall w v r w',
    agree (fs w) (fs v) -> ready (fs w) -> ready (fs v) -> c w = (r, w') ->
    exists r' v',
      c v = (r', v') /\ same_outcome r r' /\ agree (fs w') (fs v') /\
      exists out wr,
        stdout w' = stdout w ++ out /\ stdout v' = stdout v ++ out /\
        written w' = written w ++ wr /\ written v' = written v ++ wr.

Definition good (A : Type) (c : M A) : Prop :=
  steady c /\ repeats_when (fun _ => True) c.

Definition good_below_cmake (A : Type) (c : M A) : Prop :=
  steady c /\ repeats_when cmake_dir c.

(** A computation that leaves the world as it is. *)
Definition reads (A : Type) (c : M A) : Prop := forall w, snd (c w) = w.

(** The source lines a library file lists for the library's directory. *)
Definition source_lines (d : node) : list string :=
  flat_map (fun suffix => map (fun file => indent4 (rel_path file))
                              (glob_rec suffix d))
           exts.

(** The same entries in another listing order, at every depth. *)
Inductive shuffle : node -> node -> Prop :=
| shuffle_file (content : string) : shuffle (File content) (File content)
| shuffle_dir (es es' : list (string * node)) :
    shuffle_entries es es' -> shuffle (Dir es) (Dir es')
with shuffle_entries : list (string * node) -> list (string * node) -> Prop :=
| shuffle_nil : shuffle_entries [] []
| shuffle_skip (x : string) (n n' : node) (es es' : list (string * node)) :
    shuffle n n' -> shuffle_entries es es' ->
    shuffle_entries ((x, n) :: es) ((x, n') :: es')
| shuffle_swap (a b : string * node) (es : list (string * node)) :
    shuffle_entries (a :: b :: es) (b :: a :: es)
| shuffle_trans (es1 es2 es3 : list (string * node)) :
    shuffle_entries es1 es2 -> shuffle_entries es2 es3 ->
    shuffle_entries es1 es3.

Scheme shuffle_mut := Minimality for shuffle Sort Prop
  with shuffle_entries_mut := Minimality for shuffle_entries Sort Prop.

(** What one entry of a directory adds to the glob below it. *)
Definition below (suffix : string) (entry : string * node) : list path :=
  let (x, c) := entry in
  if is_dir_node c && negb (ishidden x)
  then map (cons x) (glob_rec suffix c) else [].

End View.
Import View.

(** ** Elementary descriptions of what the patterns find *)

Module Spans.

(** Text up to the first [stop] character, and the text after it; nothing
    when a line ends first. *)
Fixpoint close_on (stop : ascii) (s : string) : option (string * string) :=
  match s with
  | EmptyString => None
  | String c s' =>
      if (c =? stop)%char then Some (EmptyString, s')
      else if (c =? newline)%char then None
      else match close_on stop s' with
           | Some (w, r) => Some (String c w, r)
           | None => None
           end
  end.

(** The first opening bracket that is closed on its line: how far it is,
    the text between the brackets, the text after the closing bracket. *)
Fixpoint first_span (s : string) : option (nat * string * string) :=
  match s with
  | EmptyString => None
  | String c s' =>
      if (c =? "[")%char then
        match close_on "]" s' with
        | Some (w, r) => Some (0, w, r)
        | None =>
            match first_span s' with
            | Some (off, w, r) => Some (S off, w, r)
            | None => None
            end
        end
      else
        match first_span s' with
        | Some (off, w, r) => Some (S off, w, r)
        | None => None
        end
  end.

(** One pass over the text. [inside] is the text since the last opening
    bracket not yet closed, if any; a closing bracket ends the span, the end
    of the line drops it. *)
Fixpoint bracket_spans (inside : option string) (s : string) : list string :=
  match s with
  | EmptyString => []
  | String c s' =>
      match inside with
      | None =>
          if (c =? "[")%char then bracket_spans (Some EmptyString) s'
          else bracket_spans None s'
      | Some w =>
          if (c =? "]")%char then w :: bracket_spans None s'
          else if (c =? newline)%char then bracket_spans None s'
          else bracket_spans (Some (w +++ chr c)) s'
      end
  end.

(** The same pass with spans that may run over several lines. *)
Fixpoint bracket_spans_any (inside : option string) (s : string) : list string :=
  match s with
  | EmptyString => []
  | String c s' =>
      match inside with
      | None =>
          if (c =? "[")%char then bracket_spans_any (Some EmptyString) s'
          else bracket_spans_any None s'
      | Some w =>
          if (c =? "]")%char then w :: bracket_spans_any None s'
          else bracket_spans_any (Some (w +++ chr c)) s'
      end
  end.

(** The list extractor as the specification words it: every bracketed list
    of the text, its elements trimmed of surrounding whitespace and quote
    characters, the empty ones skipped. *)
Definition extractListLiteral_spec (text : string) : list string :=
  flat_map (fun span =>
              filter nonempty
                     (map (strip (fun c => isspace c || quote_chars c))
                          (split "," span)))
           (bracket_spans_any None text).

(** What is left of a text that starts with [pre]. *)
Fixpoint strip_prefix (pre s : string) : option string :=
  match pre with
  | EmptyString => Some s
  | String a pre' =>
      match s with
      | String b s' => if (b =? a)%char then strip_prefix pre' s' else None
      | EmptyString => None
      end
  end.

End Spans.
Import Spans.

(** ** A check on patterns *)

Module Needs.
(** Every character. *)
Definition all_chars : list ascii := map ascii_of_nat (List.seq 0 256).

(** The class holds no character but [c]. *)
Definition accepts_only (c : ascii) (p : ascii -> bool) : bool :=
  forallb (fun d => negb (p d) || (d =? c)%char) all_chars.

(** A sufficient check that every text the pattern matches holds the
    character [c]. *)
Fixpoint must_have (c : ascii) (r : regex) : bool :=
  match r with
  | Chr p => accepts_only c p
  | Seq r1 r2 => must_have c r1 || must_have c r2
  | Alt r1 r2 => must_have c r1 && must_have c r2
  | Rep _ (S _) p => accepts_only c p
  | Grp _ r' => must_have c r'
  | _ => false
  end.
End Needs.
Import Needs.


(** ** Sample inputs *)

Module Examples.

(** The line the comment of line 46 gives as its example. *)
Definition documented_line : string :=
  "opts.Add(BoolVariable(" +++ q +++ "builtin_freetype" +++ q +++ ", "
  +++ q +++ "Use builtin FreeType library" +++ q +++ ", True))".

Definition enum_line : string :=
  "opts.Add(EnumVariable(" +++ q +++ "target" +++ q +++ ", "
  +++ q +++ "Compilation target" +++ q +++ ", " +++ q +++ "editor" +++ q
  +++ ", (" +++ q +++ "editor" +++ q +++ ", " +++ q +++ "template_release"
  +++ q +++ ")))".

Definition string_line : string :=
  "opts.Add(" +++ q +++ "extra_suffix" +++ q +++ ", "
  +++ q +++ "Custom extra suffix" +++ q +++ ", " +++ q +++ "none" +++ q +++ ")".

(** An argument text for the enum rule whose default is not among its
    values. *)
Definition enum_args : string :=
  "EnumVariable(" +++ q +++ "target" +++ q +++ ", "
  +++ q +++ "Compilation target" +++ q +++ ", " +++ q +++ "editor" +++ q
  +++ ", (" +++ q +++ "debug" +++ q +++ ", " +++ q +++ "release" +++ q +++ "))".

(** A bracketed list whose one element is a pair of quotes. *)
Definition quoted_empty : string := "[" +++ q +++ q +++ "]".

(** A bracketed list written over two lines. *)
Definition two_line_list : string := "[a," +++ nl +++ "b]".

(** A tree with one library that has a source file and one that has
    none. *)
Definition two_libs : node :=
  Dir [("core", Dir [("a.cpp", File "int a;")]); ("main", Dir [])].

(** A project with one platform with a descriptor and one without, one
    module with a manifest and one without, and one library. *)
Definition sample_tree : node :=
  Dir [("SConstruct", File string_line);
       ("platform",
        Dir [("linuxbsd",
              Dir [("detect.py",
                    File ("def get_libs():" +++ nl +++ "    return ["
                          +++ q +++ "GL" +++ q +++ ", " +++ q +++ "X11" +++ q
                          +++ "]" +++ nl))]);
             ("unfinished", Dir [])]);
       ("core", Dir [("b.cpp", File "int b;"); ("a.cpp", File "int a;")]);
       ("modules",
        Dir [("mymodule",
              Dir [("SCsub",
                    File ("env.add_source_files(env.modules_sources, ["
                          +++ q +++ "*.cpp" +++ q +++ "])" +++ nl
                          +++ "env.Depends(lib, [" +++ q +++ "core" +++ q
                          +++ "])"));
                   ("one.cpp", File "int one;")]);
             ("bare", Dir [])])].

(** A library directory, and the same directory listed in another
    order. *)
Definition lib_ba : node :=
  Dir [("b.cpp", File "int b;"); ("a.cpp", File "int a;")].
Definition lib_ab : node :=
  Dir [("a.cpp", File "int a;"); ("b.cpp", File "int b;")].

(** A project with its options file and neither a platforms nor a modules
    directory. *)
Definition no_modules_tree : node :=
  Dir [("SConstruct", File string_line)].

(** A project without its options file. *)
Definition no_sconstruct_tree : node :=
  Dir [("core", lib_ab); ("modules", Dir [])].

Definition argv : list string := ["scons_to_cmake.py"; "proj"].

(** The world a first run on the sample project leaves. *)
Definition first_run : world := snd (convert "proj" (fresh sample_tree)).

End Examples.
Import Examples.

(** ** More sample inputs *)

Module Samples.

(** A declaration with four quoted arguments. *)
Definition four_items_line : string :=
  "opts.Add(" +++ q +++ "z" +++ q +++ "," +++ q +++ "p" +++ q +++ ", "
  +++ q +++ "Platform" +++ q +++ ", " +++ q +++ "x" +++ q +++ ")".

(** A platform descriptor with both functions. *)
Definition detect_two_functions : string :=
  "def get_libs():" +++ nl +++ "    return [" +++ q +++ "GL" +++ q +++ "]" +++ nl
  +++ "def get_flags():" +++ nl +++ "    return [" +++ q +++ "-O2" +++ q +++ "]".

(** A platform descriptor whose function starts with the word default. *)
Definition detect_default : string :=
  "def get_libs():" +++ nl +++ "    default = [" +++ q +++ "GL" +++ q +++ "]" +++ nl.

(** The same option declared again, with another description and
    default. *)
Definition four_items_again : string :=
  "opts.Add(" +++ q +++ "z" +++ q +++ "," +++ q +++ "p" +++ q +++ ", "
  +++ q +++ "Other" +++ q +++ ", " +++ q +++ "y" +++ q +++ ")".

(** A project whose options file declares one option twice. *)
Definition declared_twice_tree : node :=
  Dir [("SConstruct", File (four_items_line +++ nl +++ four_items_again))].

(** What the collectors return on the sample project. *)
Definition sample_configs : dict platform_config :=
  [("linuxbsd",
    {| p_name := "linuxbsd"; p_defines := []; p_libs := ["GL"; "X11"];
       p_includes := []; p_flags := [] |})].

Definition sample_modules : dict module_config :=
  [("mymodule",
    {| m_name := "mymodule"; m_sources := ["*.cpp"]; m_deps := ["core"];
       m_defines := []; m_includes := [] |});
   ("bare", empty_module "bare")].

(** A project with a module whose manifest is a directory. *)
Definition scsub_dir_tree : node :=
  Dir [("SConstruct", File EmptyString);
       ("modules", Dir [("m", Dir [("SCsub", Dir [])])])].

(** A project whose one module has two sources, and the same project with
    the module's directory listed in the other order. *)
Definition modules_ba : node := Dir [("modules", Dir [("m", lib_ba)])].
Definition modules_ab : node := Dir [("modules", Dir [("m", lib_ab)])].

(** The mapping of the module collector on both. *)
Definition one_module : dict module_config := [("m", empty_module "m")].

(** A project in which the path cmake is a regular file. *)
Definition cmake_file_tree : node :=
  Dir [("SConstruct", File four_items_line);
       ("cmake", File "include(old)");
       ("modules", Dir [])].

(** Two platform configurations: one with flags, defines and libs, one with
    none of them. *)
Definition two_configs : dict platform_config :=
  [("linuxbsd",
    {| p_name := "linuxbsd"; p_defines := ["X11_ENABLED"]; p_libs := ["GL"];
       p_includes := []; p_flags := ["-O2"; "-Wall"] |});
   ("bare",
    {| p_name := "bare"; p_defines := []; p_libs := [];
       p_includes := []; p_flags := [] |})].

(** A project with two platforms whose descriptors are read and one
    without a descriptor, a module with a source and one without. In the
    directory cmake the path of the second platform's file is a directory,
    so that a run stops in the platform emitter, after the first
    platform's file. *)
Definition stopping_tree : node :=
  Dir [("SConstruct", File four_items_line);
       ("cmake", Dir [("platform_macos.cmake", Dir [])]);
       ("platform",
        Dir [("linuxbsd", Dir [("detect.py", File detect_two_functions)]);
             ("unfinished", Dir []);
             ("macos", Dir [("detect.py", File detect_default)])]);
       ("modules",
        Dir [("mymodule", Dir [("one.cpp", File "int one;")]);
             ("bare", Dir [])])].

End Samples.
Import Samples.

(** ** What a computation leaves alone *)

Module Effects.

(** A computation that leaves what is at [p] as it was. *)
Definition keeps (p : path) (A : Type) (c : M A) : Prop :=
  forall w r w', c w = (r, w') -> stat (fs w') p = stat (fs w) p.

(** A computation that leaves the tree as it was. *)
Definition looks (A : Type) (c : M A) : Prop :=
  forall w, fs (snd (c w)) = fs w.

(** The text found at a path, for the sources of a directory. *)
Definition sources_at (n : node) (p : path) : list string :=
  match walk n p with
  | Ok d => source_lines d
  | Raise _ => []
  end.

(** A computation that writes only files that [P] accepts, whatever its
    outcome. *)
Definition writes_only (P : path * string -> Prop) (A : Type) (c : M A)
  : Prop :=
  forall w r w', c w = (r, w') ->
    exists l, written w' = written w ++ l /\ Forall P l.

(** The file the platform emitter writes for one entry of its mapping. *)
Definition platform_file (entry : string * platform_config) : path * string :=
  (["cmake"; "platform_" +++ fst entry +++ ".cmake"],
   join nl (platform_content (fst entry) (snd entry))).

(** The file the module emitter writes for one entry of its mapping, given
    the tree it searches for sources. *)
Definition module_file (n : node) (entry : string * module_config)
  : path * string :=
  (["modules"; fst entry; "CMakeLists.txt"],
   join nl (module_content (fst entry) (snd entry)
              (sources_at n ["modules"; fst entry]))).

(** The file modules/CMakeLists.txt that the module emitter writes
    first. *)
Definition umbrella (modules : dict module_config) : path * string :=
  (["modules"; "CMakeLists.txt"], join nl (modules_content modules)).

(** The world after the first message of a run. *)
Definition started (w : world) : world :=
  {| fs := fs w;
     stdout := stdout w ++ ["Converting SCons to CMake..."];
     written := written w |}.

(** The second half of [convert]: the four emitters, for what the three
    collectors have returned. *)
Definition emit_files (root_dir : string) (options : dict opt)
           (configs : dict platform_config) (modules : dict module_config)
  : M unit :=
  _generate_root_cmakelists options ;;
  _generate_platform_cmake_files configs ;;
  _generate_core_cmake_files root_dir ;;
  _generate_module_cmake_files root_dir modules.

(** The file at the root that the root emitter writes. *)
Definition root_file (options : dict opt) : path * string :=
  (["CMakeLists.txt"], join nl (root_content options)).

(** The platform configuration read off the text of a descriptor. *)
Definition config_of (platform content : string) : platform_config :=
  {| p_name := platform; p_defines := [];
     p_libs := function_items "get_libs" content;
     p_includes := [];
     p_flags := function_items "get_flags" content |}.

(** A text without a line break, and a text without a slash: a name that
    makes one component of a path. *)
Definition one_line (s : string) : bool := negb (mem_char newline s).
Definition no_slash (s : string) : bool := negb (mem_char "/" s).

(** An entry that a node lists at a path: each name of the path is listed
    in the directory before it. *)
Inductive listed : node -> path -> node -> Prop :=
| listed_here (n : node) : listed n [] n
| listed_below (es : list (string * node)) (x : string) (c : node)
               (p : path) (c' : node) :
    In (x, c) es -> listed c p c' -> listed (Dir es) (x :: p) c'.


End Effects.
Import Effects.

(** * Properties *)

(** ** Strings and the matcher *)

Module StrFacts.

Lemma append_nil_r (s : string) : s +++ EmptyString = s.
Proof. induction s; simpl; congruence. Qed.

Lemma append_assoc (a b c : string) : (a +++ b) +++ c = a +++ (b +++ c).
Proof. induction a; simpl; congruence. Qed.

Lemma length_append (a b : string) :
  String.length (a +++ b) = String.length a + String.length b.
Proof. induction a; simpl; congruence. Qed.

Lemma substring_all (s : string) : substring 0 (String.length s) s = s.
Proof. induction s; simpl; congruence. Qed.

Lemma substring_0_0 (s : string) : substring 0 0 s = EmptyString.
Proof. destruct s; reflexivity. Qed.

Lemma consumed_same (s : string) : consumed s s = EmptyString.
Proof. unfold consumed. rewrite Nat.sub_diag. apply substring_0_0. Qed.

Lemma consumed_cons (c : ascii) (s s' : string) :
  String.length s' <= String.length s ->
  consumed (String c s) s' = String c (consumed s s').
Proof.
  intros H. unfold consumed. simpl String.length.
  replace (S (String.length s) - String.length s')
    with (S (String.length s - String.length s')) by lia.
  reflexivity.
Qed.

End StrFacts.
Import StrFacts.

Module ReFacts.

(** Continuations that agree on the texts not longer than the input give
    the same result. *)
Lemma star_lazy_ext (R : Type) (p : ascii -> bool) (s : string)
      (k1 k2 : string -> option R) :
  (forall t, String.length t <= String.length s -> k1 t = k2 t) ->
  star_lazy p s k1 = star_lazy p s k2.
Proof.
  induction s as [|c s IH]; intros H; simpl.
  - rewrite (H EmptyString) by (simpl; lia). reflexivity.
  - rewrite (H (String c s)) by (simpl; lia).
    destruct (k2 (String c s)); [reflexivity|].
    destruct (p c); [|reflexivity].
    apply IH. intros t Ht. apply H. simpl. lia.
Qed.

Lemma rmatch_lit (R : Type) (l s : string) (caps : captures)
      (k : string -> captures -> option R) :
  rmatch (lit l) s caps k =
  match strip_prefix l s with
  | Some s' => k s' caps
  | None => None
  end.
Proof.
  revert s. induction l as [|a l IH]; intros s; simpl; [reflexivity|].
  destruct s as [|b s]; [reflexivity|].
  unfold only. destruct (b =? a)%char; [apply IH | reflexivity].
Qed.

(** A lazy run of [.] followed by one fixed character stops at the first
    such character of the line. *)
Lemma lazy_dot_then_char (R : Type) (stop : ascii) (t pre : string)
      (F : string -> string -> R) :
  stop <> newline ->
  star_lazy dot t
    (fun s2 => match s2 with
               | String c s3 =>
                   if only stop c then Some (F (pre +++ consumed t s2) s3)
                   else None
               | EmptyString => None
               end)
  = match close_on stop t with
    | Some (w, r) => Some (F (pre +++ w) r)
    | None => None
    end.
Proof.
  intros Hstop. revert pre. induction t as [|c t IH]; intros pre.
  - reflexivity.
  - cbn [star_lazy close_on]. unfold only at 1.
    rewrite consumed_same.
    destruct (Ascii.eqb_spec c stop) as [->|Hc].
    + reflexivity.
    + assert (Hd : dot c = negb (c =? newline)%char) by reflexivity.
      rewrite Hd. clear Hd.
      destruct (Ascii.eqb_spec c newline) as [->|Hn]; cbn [negb].
      * reflexivity.
      * rewrite (star_lazy_ext dot t _
                   (fun s2 => match s2 with
                              | String c0 s3 =>
                                  if only stop c0
                                  then Some (F ((pre +++ chr c) +++ consumed t s2) s3)
                                  else None
                              | EmptyString => None
                              end)).
        -- rewrite (IH (pre +++ chr c)).
           destruct (close_on stop t) as [[w r]|]; [|reflexivity].
           unfold chr. rewrite append_assoc. reflexivity.
        -- intros s2 Hlen.
           destruct s2 as [|c2 s3]; [reflexivity|].
           rewrite consumed_cons by exact Hlen.
           unfold chr. rewrite append_assoc. reflexivity.
Qed.

End ReFacts.

Module ListPattern.
Import ReFacts.

Lemma match_list_here (s : string) (pos : nat) :
  match_here re_list s pos false =
  match s with
  | String c s1 =>
      if (c =? "[")%char then
        match close_on "]" s1 with
        | Some (w, r) => Some (MatchObj pos [(1, w)] r)
        | None => None
        end
      else None
  | EmptyString => None
  end.
Proof.
  unfold match_here, re_list, seq. cbn [fold_right].
  cbn [rmatch]. rewrite rmatch_lit.
  destruct s as [|c s1]; [reflexivity|]. cbn [strip_prefix].
  destruct (c =? "[")%char; [|reflexivity].
  cbn [rmatch at_least lit andb].
  exact (lazy_dot_then_char (stop := "]"%char) s1 EmptyString
           (fun w r => MatchObj pos [(1, w)] r) ltac:(discriminate)).
Qed.

Lemma close_on_length (stop : ascii) (s w r : string) :
  close_on stop s = Some (w, r) ->
  String.length s = String.length w + 1 + String.length r.
Proof.
  revert w r. induction s as [|c s IH]; intros w r; simpl; [discriminate|].
  destruct (c =? stop)%char.
  - intros H. injection H as <- <-. simpl. lia.
  - destruct (c =? newline)%char; [discriminate|].
    destruct (close_on stop s) as [[w' r']|]; [|discriminate].
    intros H. injection H as <- <-. simpl. rewrite (IH w' r' eq_refl). lia.
Qed.

Lemma first_span_length (s w r : string) (off : nat) :
  first_span s = Some (off, w, r) ->
  String.length s = off + String.length w + 2 + String.length r.
Proof.
  revert off. induction s as [|c s IH]; intros off; simpl; [discriminate|].
  assert (Hrec : match first_span s with
                 | Some (off0, w0, r0) => Some (S off0, w0, r0)
                 | None => None
                 end = Some (off, w, r) ->
                 S (String.length s) = off + String.length w + 2 + String.length r).
  { destruct (first_span s) as [[[off0 w0] r0]|]; [|discriminate].
    intros H. injection H as <- <- <-. rewrite (IH off0 eq_refl). lia. }
  destruct (c =? "[")%char; [|exact Hrec].
  destruct (close_on "]" s) as [[w0 r0]|] eqn:Hc; [|exact Hrec].
  intros H. injection H as <- <- <-.
  apply close_on_length in Hc. lia.
Qed.

Lemma search_list (s : string) (pos : nat) :
  search_from re_list s pos false =
  match first_span s with
  | Some (off, w, r) => Some (MatchObj (pos + off) [(1, w)] r)
  | None => None
  end.
Proof.
  revert pos. induction s as [|c s IH]; intros pos.
  - reflexivity.
  - cbn [search_from first_span]. rewrite match_list_here.
    assert (Hrec : search_from re_list s (S pos) false =
                   match
                     match first_span s with
                     | Some (off, w, r) => Some (S off, w, r)
                     | None => None
                     end
                   with
                   | Some (off, w, r) => Some (MatchObj (pos + off) [(1, w)] r)
                   | None => None
                   end).
    { rewrite IH. destruct (first_span s) as [[[off w] r]|]; [|reflexivity].
      rewrite Nat.add_succ_r. reflexivity. }
    destruct (c =? "[")%char; [|exact Hrec].
    destruct (close_on "]" s) as [[w r]|]; [|exact Hrec].
    rewrite Nat.add_0_r. reflexivity.
Qed.

(** A span that is open when its line ends is dropped, and so is every
    bracket opened after it on that line. *)
Lemma spans_inside (w t : string) :
  bracket_spans (Some w) t =
  match close_on "]" t with
  | Some (u, r) => (w +++ u) :: bracket_spans None r
  | None => bracket_spans None t
  end.
Proof.
  revert w. induction t as [|c t IH]; intros w; [reflexivity|].
  cbn [bracket_spans close_on].
  destruct (Ascii.eqb_spec c "]") as [->|Hc].
  - rewrite StrFacts.append_nil_r. reflexivity.
  - destruct (Ascii.eqb_spec c newline) as [->|Hn].
    + reflexivity.
    + rewrite IH. destruct (close_on "]" t) as [[u r]|] eqn:E.
      * unfold chr. rewrite StrFacts.append_assoc. reflexivity.
      * destruct (c =? "[")%char; [|reflexivity].
        rewrite IH. reflexivity.
Qed.

Lemma spans_first (s : string) :
  bracket_spans None s =
  match first_span s with
  | Some (_, w, r) => w :: bracket_spans None r
  | None => []
  end.
Proof.
  induction s as [|c s IH]; [reflexivity|].
  cbn [bracket_spans first_span].
  assert (Hrec : bracket_spans None s =
                 match
                   match first_span s with
                   | Some (off, w, r) => Some (S off, w, r)
                   | None => None
                   end
                 with
                 | Some (_, w, r) => w :: bracket_spans None r
                 | None => []
                 end).
  { rewrite IH at 1. destruct (first_span s) as [[[off w] r]|]; reflexivity. }
  destruct (c =? "[")%char; [|exact Hrec].
  rewrite spans_inside.
  destruct (close_on "]" s) as [[u r]|]; [reflexivity | exact Hrec].
Qed.

Lemma scan_list (fuel : nat) (s : string) (pos : nat) :
  String.length s < fuel ->
  map (fun m => group m 1) (scan fuel re_list s pos false) =
  bracket_spans None s.
Proof.
  revert s pos. induction fuel as [|fuel IH]; intros s pos Hlen; [lia|].
  cbn [scan]. rewrite search_list, spans_first.
  destruct (first_span s) as [[[off w] r]|] eqn:E; [|reflexivity].
  apply first_span_length in E.
  cbn [m_rest m_start map]. f_equal.
  replace (String.length s - String.length r =? pos + off - pos)%nat
    with false by (symmetry; apply Nat.eqb_neq; lia).
  apply IH. lia.
Qed.

Lemma flat_map_through_map (A B C : Type) (f : B -> list C) (g : A -> B)
      (l : list A) :
  flat_map (fun x => f (g x)) l = flat_map f (map g l).
Proof. induction l; simpl; congruence. Qed.

(** C4, as amended. [_extract_list_items] returns, span after span in order
    of appearance, the elements of every bracketed span that is opened and
    closed on one line (from an opening bracket to the first closing
    bracket after it, no line end between): the comma-separated tokens
    that are not empty or whitespace only, each stripped of the spaces,
    double quotes and single quotes at its ends. *)
Theorem extract_list_items_spans (text : string) :
  _extract_list_items text = flat_map list_items (bracket_spans None text).
Proof.
  unfold _extract_list_items, finditer.
  rewrite (flat_map_through_map list_items (fun m => group m 1)).
  rewrite scan_list by lia. reflexivity.
Qed.

End ListPattern.

Module OptionPattern.
Import ReFacts.


Lemma mem_char_app (c : ascii) (a b : string) :
  mem_char c (a +++ b) = mem_char c a || mem_char c b.
Proof.
  induction a as [|d a IH]; simpl; [reflexivity|].
  rewrite IH. apply orb_assoc.
Qed.

Lemma close_on_without_stop (stop : ascii) (s w r : string) :
  close_on stop s = Some (w, r) -> mem_char stop w = false.
Proof.
  revert w r. induction s as [|c s IH]; intros w r; simpl; [discriminate|].
  destruct (Ascii.eqb_spec c stop) as [->|Hc].
  - intros H. injection H as <- <-. reflexivity.
  - destruct (c =? newline)%char; [discriminate|].
    destruct (close_on stop s) as [[w' r']|]; [|discriminate].
    intros H. injection H as <- <-. simpl.
    rewrite (IH w' r' eq_refl).
    destruct (Ascii.eqb_spec stop c); [congruence | reflexivity].
Qed.

Lemma match_opts_add_here (s : string) (pos : nat) :
  match_here re_opts_add s pos false =
  match strip_prefix "opts.Add(" s with
  | Some s1 =>
      match close_on ")" s1 with
      | Some (w, r) => Some (MatchObj pos [(1, w)] r)
      | None => None
      end
  | None => None
  end.
Proof.
  unfold match_here, re_opts_add, seq. cbn [fold_right].
  cbn [rmatch]. rewrite rmatch_lit.
  destruct (strip_prefix "opts.Add(" s) as [s1|]; [|reflexivity].
  cbn [rmatch at_least lit andb].
  exact (lazy_dot_then_char (stop := ")"%char) s1 EmptyString
           (fun w r => MatchObj pos [(1, w)] r) ltac:(discriminate)).
Qed.

Lemma search_from_opts_add (line : string) (pos : nat) (m : match_obj) :
  search_from re_opts_add line pos false = Some m ->
  mem_char ")" (group m 1) = false.
Proof.
  revert m pos.
  induction line as [|c line IH]; intros m pos; cbn [search_from];
    rewrite match_opts_add_here.
  - discriminate.
  - destruct (strip_prefix "opts.Add(" (String c line)) as [s1|].
    + destruct (close_on ")" s1) as [[w r]|] eqn:E.
      * intros H. injection H as <-. unfold group. simpl.
        eapply close_on_without_stop, E.
      * apply IH.
    + apply IH.
Qed.

(** The argument text [_parse_option] cuts out holds no closing
    parenthesis. *)
Lemma args_without_paren (line : string) (m : match_obj) :
  search re_opts_add line = Some m -> mem_char ")" (group m 1) = false.
Proof. apply search_from_opts_add. Qed.

End OptionPattern.

Module Soundness.
Import OptionPattern.

Lemma in_all_chars (d : ascii) : In d all_chars.
Proof.
  unfold all_chars. rewrite <- (ascii_nat_embedding d).
  apply in_map, in_seq. pose proof (nat_ascii_bounded d). lia.
Qed.

Lemma accepts_only_spec (c : ascii) (p : ascii -> bool) (d : ascii) :
  accepts_only c p = true -> p d = true -> d = c.
Proof.
  unfold accepts_only. rewrite forallb_forall. intros H Hp.
  specialize (H d (in_all_chars d)). rewrite Hp in H. simpl in H.
  apply Ascii.eqb_eq, H.
Qed.

Section Runs.
Variable R : Type.

Lemma at_least_sound (n : nat) (p : ascii -> bool) (s : string)
      (k : string -> option R) (x : R) :
  at_least n p s k = Some x ->
  exists w s1, s = w +++ s1 /\ k s1 = Some x /\
               (forall c, 0 < n -> accepts_only c p = true ->
                          mem_char c w = true).
Proof.
  revert s. induction n as [|n IH]; intros s; simpl.
  - intros H. exists EmptyString, s. repeat split; [exact H | lia].
  - destruct s as [|d s]; [discriminate|].
    destruct (p d) eqn:Hp; [|discriminate].
    intros H. destruct (IH s H) as [w [s1 [-> [Hk _]]]].
    exists (String d w), s1. repeat split; [exact Hk|].
    intros c _ Hc. simpl.
    rewrite (accepts_only_spec c p d Hc Hp), Ascii.eqb_refl. reflexivity.
Qed.

Lemma star_greedy_sound (p : ascii -> bool) (s : string)
      (k : string -> option R) (x : R) :
  star_greedy p s k = Some x -> exists w s1, s = w +++ s1 /\ k s1 = Some x.
Proof.
  induction s as [|d s IH]; simpl.
  - intros H. exists EmptyString, EmptyString. split; [reflexivity | exact H].
  - destruct (p d).
    + destruct (star_greedy p s k) as [y|] eqn:E.
      * intros H. injection H as ->.
        destruct (IH eq_refl) as [w [s1 [-> Hk]]].
        exists (String d w), s1. split; [reflexivity | exact Hk].
      * intros H. exists EmptyString, (String d s). split; [reflexivity | exact H].
    + intros H. exists EmptyString, (String d s). split; [reflexivity | exact H].
Qed.

Lemma star_lazy_sound (p : ascii -> bool) (s : string)
      (k : string -> option R) (x : R) :
  star_lazy p s k = Some x -> exists w s1, s = w +++ s1 /\ k s1 = Some x.
Proof.
  induction s as [|d s IH]; simpl.
  - destruct (k EmptyString) eqn:E; [|discriminate].
    intros H. exists EmptyString, EmptyString. split; [reflexivity | congruence].
  - destruct (k (String d s)) eqn:E.
    + intros H. exists EmptyString, (String d s). split; [reflexivity | congruence].
    + destruct (p d); [|discriminate].
      intros H. destruct (IH H) as [w [s1 [-> Hk]]].
      exists (String d w), s1. split; [reflexivity | exact Hk].
Qed.
End Runs.

(** When the matcher succeeds, the continuation succeeded on what was left
    after some text [w], and [w] holds every character the pattern must
    have. *)
Lemma rmatch_sound (r : regex) :
  forall (R : Type) (s : string) (caps : captures)
         (k : string -> captures -> option R) (x : R),
    rmatch r s caps k = Some x ->
    exists w s' caps',
      s = w +++ s' /\ k s' caps' = Some x /\
      (forall c, must_have c r = true -> mem_char c w = true).
Proof.
  induction r as [ | p | r1 IH1 r2 IH2 | r1 IH1 r2 IH2 | g n p | n r IH
                   | r IH | ]; intros R s caps k x; cbn [rmatch].
  - intros H. exists EmptyString, s, caps. repeat split; [exact H|].
    intros c Hc. discriminate Hc.
  - destruct s as [|d s]; [discriminate|].
    destruct (p d) eqn:Hp; [|discriminate].
    intros H. exists (chr d), s, caps. repeat split; [exact H|].
    intros c Hc. simpl in Hc |- *.
    rewrite (accepts_only_spec c p d Hc Hp), Ascii.eqb_refl. reflexivity.
  - intros H. apply IH1 in H. destruct H as [w1 [s1 [caps1 [-> [H Hw1]]]]].
    apply IH2 in H. destruct H as [w2 [s2 [caps2 [-> [H Hw2]]]]].
    exists (w1 +++ w2), s2, caps2. repeat split.
    + symmetry. apply StrFacts.append_assoc.
    + exact H.
    + intros c Hc. simpl in Hc. rewrite mem_char_app.
      apply orb_true_iff in Hc. apply orb_true_iff.
      destruct Hc as [Hc|Hc]; [left; apply Hw1, Hc | right; apply Hw2, Hc].
  - destruct (rmatch r1 s caps k) as [y|] eqn:E.
    + intros H. injection H as ->. apply IH1 in E.
      destruct E as [w [s' [caps' [-> [H Hw]]]]].
      exists w, s', caps'. repeat split; [exact H|].
      intros c Hc. simpl in Hc. apply andb_true_iff in Hc. apply Hw, Hc.
    + intros H. apply IH2 in H.
      destruct H as [w [s' [caps' [-> [H Hw]]]]].
      exists w, s', caps'. repeat split; [exact H|].
      intros c Hc. simpl in Hc. apply andb_true_iff in Hc. apply Hw, Hc.
  - intros H. apply at_least_sound in H.
    destruct H as [w1 [s1 [-> [H Hw1]]]].
    assert (H2 : exists w2 s2, s1 = w2 +++ s2 /\ k s2 caps = Some x).
    { destruct g; [apply star_greedy_sound in H | apply star_lazy_sound in H];
        exact H. }
    destruct H2 as [w2 [s2 [-> Hk]]].
    exists (w1 +++ w2), s2, caps. repeat split.
    + symmetry. apply StrFacts.append_assoc.
    + exact Hk.
    + intros c Hc. rewrite mem_char_app. apply orb_true_iff. left.
      destruct n as [|n]; [discriminate Hc|]. apply Hw1; [lia | exact Hc].
  - intros H. apply IH in H. destruct H as [w [s' [caps' [-> [H Hw]]]]].
    exists w, s', ((n, consumed (w +++ s') s') :: caps').
    repeat split; [exact H | exact Hw].
  - destruct (rmatch r s caps (fun _ caps' => Some caps')) as [caps'|];
      [|discriminate].
    intros H. exists EmptyString, s, caps'. repeat split; [exact H|].
    intros c Hc. discriminate Hc.
  - destruct s; [|discriminate].
    intros H. exists EmptyString, EmptyString, caps. repeat split; [exact H|].
    intros c Hc. discriminate Hc.
Qed.

Lemma search_from_needs (r : regex) (c : ascii) (s : string) (pos : nat)
      (adv : bool) (m : match_obj) :
  must_have c r = true ->
  search_from r s pos adv = Some m -> mem_char c s = true.
Proof.
  intros Hc. revert pos adv.
  induction s as [|d s IH]; intros pos adv; cbn [search_from].
  - destruct (match_here r EmptyString pos adv) eqn:E; [|discriminate].
    intros _. unfold match_here in E. apply rmatch_sound in E.
    destruct E as [w [s' [caps' [Hs [_ Hw]]]]].
    rewrite Hs, mem_char_app, (Hw c Hc). reflexivity.
  - destruct (match_here r (String d s) pos adv) eqn:E.
    + intros _. unfold match_here in E. apply rmatch_sound in E.
      destruct E as [w [s' [caps' [Hs [_ Hw]]]]].
      rewrite Hs, mem_char_app, (Hw c Hc). reflexivity.
    + intros H. apply IH in H. simpl. rewrite H. apply orb_true_r.
Qed.

(** No line gives a bool or an enum option: the argument text ends before
    the first closing parenthesis, and both rules need one. *)
Lemma parse_option_only_string (line : string) (o : opt) :
  _parse_option line = Some o -> opt_type o = "string"%string.
Proof.
  unfold _parse_option.
  destruct (search re_opts_add line) as [m|] eqn:E; [|discriminate].
  apply args_without_paren in E.
  unfold bool_rule, enum_rule, str_rule.
  destruct (search re_bool (group m 1)) as [mb|] eqn:Eb.
  { apply (search_from_needs re_bool ")") in Eb; [congruence | reflexivity]. }
  destruct (search re_enum (group m 1)) as [me|] eqn:Ee.
  { apply (search_from_needs re_enum ")") in Ee; [congruence | reflexivity]. }
  destruct (search re_str (group m 1)); [|discriminate].
  intros H. injection H as <-. reflexivity.
Qed.

End Soundness.


(** ** The platform emitter *)

Module PlatformEmitter.

Lemma in_indent4 (opener : string) (items : list string) :
  startswith " " opener = false -> ~ In opener (map indent4 items).
Proof.
  intros Hop Hin. apply in_map_iff in Hin. destruct Hin as [x [Hx _]].
  subst opener. discriminate Hop.
Qed.

Lemma some_true (A : Type) (l : list A) : some l = true <-> l <> [].
Proof. destruct l; simpl; split; congruence. Qed.

Lemma in_flags_block (opener : string) (flags : list string) :
  startswith " " opener = false -> opener <> ")" -> opener <> blank ->
  In opener (flags_block flags) ->
  opener = "add_compile_options(" /\ flags <> [].
Proof.
  unfold flags_block. intros Hsp Hc Hb Hin.
  destruct flags as [|f flags]; simpl in Hin; [contradiction|].
  destruct Hin as [H|[H|H]]; [split; congruence | | ].
  - subst opener. discriminate Hsp.
  - apply in_app_or in H. destruct H as [H|[H|[H|[]]]]; try congruence.
    exfalso. revert H. apply in_indent4; assumption.
Qed.

Lemma in_defines_block (opener : string) (defines : list string) :
  startswith " " opener = false -> opener <> ")" -> opener <> blank ->
  In opener (defines_block defines) ->
  opener = "add_compile_definitions(" /\ defines <> [].
Proof.
  unfold defines_block. intros Hsp Hc Hb Hin.
  destruct defines as [|f defines]; simpl in Hin; [contradiction|].
  destruct Hin as [H|[H|H]]; [split; congruence | | ].
  - subst opener. discriminate Hsp.
  - apply in_app_or in H. destruct H as [H|[H|[H|[]]]]; try congruence.
    exfalso. revert H. apply in_indent4; assumption.
Qed.

Lemma in_libs_block (opener : string) (libs : list string) :
  startswith " " opener = false -> opener <> ")" -> opener <> blank ->
  In opener (libs_block libs) ->
  opener = "target_link_libraries(godot PRIVATE" /\ libs <> [].
Proof.
  unfold libs_block. intros Hsp Hc Hb Hin.
  destruct libs as [|f libs]; simpl in Hin; [contradiction|].
  destruct Hin as [H|[H|H]]; [split; congruence | | ].
  - subst opener. discriminate Hsp.
  - apply in_app_or in H. destruct H as [H|[H|[]]]; try congruence.
    exfalso. revert H. apply in_indent4; assumption.
Qed.

(** Where a line that opens a block can come from. *)
Lemma opener_origin (opener platform : string) (config : platform_config) :
  startswith " " opener = false -> startswith "#" opener = false ->
  opener <> ")" -> opener <> blank ->
  In opener (platform_content platform config) ->
  (opener = "add_compile_options(" /\ p_flags config <> []) \/
  (opener = "add_compile_definitions(" /\ p_defines config <> []) \/
  (opener = "target_link_libraries(godot PRIVATE" /\ p_libs config <> []).
Proof.
  intros Hsp Hhash Hc Hb Hin. unfold platform_content in Hin.
  apply in_app_or in Hin. destruct Hin as [Hin|Hin].
  - exfalso. simpl in Hin. destruct Hin as [H|[H|[H|[]]]].
    + subst opener. discriminate Hhash.
    + congruence.
    + subst opener. discriminate Hhash.
  - apply in_app_or in Hin. destruct Hin as [Hin|Hin].
    + left. apply in_flags_block; assumption.
    + apply in_app_or in Hin. destruct Hin as [Hin|Hin].
      * right; left. apply in_defines_block; assumption.
      * right; right. apply in_libs_block; assumption.
Qed.

Lemma flags_block_opens (flags : list string) :
  flags <> [] -> In "add_compile_options(" (flags_block flags).
Proof. destruct flags; [congruence|]. intros _. simpl. auto. Qed.

Lemma defines_block_opens (defines : list string) :
  defines <> [] -> In "add_compile_definitions(" (defines_block defines).
Proof. destruct defines; [congruence|]. intros _. simpl. auto. Qed.

Lemma libs_block_opens (libs : list string) :
  libs <> [] -> In "target_link_libraries(godot PRIVATE" (libs_block libs).
Proof. destruct libs; [congruence|]. intros _. simpl. auto. Qed.

(** The lines of one platform's file: the line that opens the
    compile-options block is among them exactly when the flags are not
    empty, the line that opens the compile-definitions block exactly when
    the defines are not empty, and the line that opens the link-libraries
    block exactly when the libs are not empty; with all three empty the
    lines are the three header lines alone. *)
Lemma platform_blocks_iff_nonempty :
  forall (platform : string) (config : platform_config),
    (In "add_compile_options(" (platform_content platform config)
     <-> p_flags config <> []) /\
    (In "add_compile_definitions(" (platform_content platform config)
     <-> p_defines config <> []) /\
    (In "target_link_libraries(godot PRIVATE" (platform_content platform config)
     <-> p_libs config <> []) /\
    (forall name includes,
        platform_content platform
          {| p_name := name; p_defines := []; p_libs := [];
             p_includes := includes; p_flags := [] |}
        = ["# Platform configuration for " +++ platform; blank;
           "# Compiler flags"]).
Proof.
  intros platform config.
  assert (Hfl : forall o, In o (flags_block (p_flags config)) ->
                          In o (platform_content platform config)).
  { intros o H. unfold platform_content. apply in_or_app. right.
    apply in_or_app. left. exact H. }
  assert (Hde : forall o, In o (defines_block (p_defines config)) ->
                          In o (platform_content platform config)).
  { intros o H. unfold platform_content. apply in_or_app. right.
    apply in_or_app. right. apply in_or_app. left. exact H. }
  assert (Hli : forall o, In o (libs_block (p_libs config)) ->
                          In o (platform_content platform config)).
  { intros o H. unfold platform_content. apply in_or_app. right.
    apply in_or_app. right. apply in_or_app. right. exact H. }
  repeat split.
  - intros Hin. apply opener_origin in Hin; try reflexivity; try discriminate.
    destruct Hin as [[_ H]|[[H _]|[H _]]]; [exact H | discriminate H ..].
  - intros H. apply Hfl, flags_block_opens, H.
  - intros Hin. apply opener_origin in Hin; try reflexivity; try discriminate.
    destruct Hin as [[H _]|[[_ H]|[H _]]]; [discriminate H | exact H | discriminate H].
  - intros H. apply Hde, defines_block_opens, H.
  - intros Hin. apply opener_origin in Hin; try reflexivity; try discriminate.
    destruct Hin as [[H _]|[[H _]|[_ H]]]; [discriminate H .. | exact H].
  - intros H. apply Hli, libs_block_opens, H.
Qed.

End PlatformEmitter.

(** ** The extractors *)

Module Extractors.

(** C1. On the line that the comment of [_parse_option] gives as its
    example, a well-formed boolean declaration, [_parse_option] returns
    nothing, and so it does on a well-formed enumerated and a well-formed
    string-valued declaration; the boolean rule alone, given the text
    between the outer parentheses, does recover name, description and
    default. *)
Theorem parse_option_misses_documented_line :
  _parse_option documented_line = None /\
  _parse_option enum_line = None /\
  _parse_option string_line = None /\
  bool_rule ("BoolVariable(" +++ q +++ "builtin_freetype" +++ q +++ ", "
             +++ q +++ "Use builtin FreeType library" +++ q +++ ", True)")
  = Some (BoolOpt "builtin_freetype" "Use builtin FreeType library" true).
Proof.
  split; [vm_compute; reflexivity|].
  split; [vm_compute; reflexivity|].
  split; vm_compute; reflexivity.
Qed.

(** C4, as the claim states it, fails. For the text of one bracketed list
    whose only element is a pair of double quotes the code returns one
    element, the empty string, where the claim has empty elements
    contribute nothing; and for the text of a list written over two lines
    the code returns nothing, where the claim has the elements of every
    bracketed list. *)
Lemma extract_list_items_keeps_empty_element :
  (_extract_list_items quoted_empty = [EmptyString] /\
   extractListLiteral_spec quoted_empty = [] /\
   _extract_list_items quoted_empty <> extractListLiteral_spec quoted_empty) /\
  (_extract_list_items two_line_list = [] /\
   extractListLiteral_spec two_line_list = ["a"; "b"]%string /\
   _extract_list_items two_line_list <> extractListLiteral_spec two_line_list).
Proof.
  assert (H1 : _extract_list_items quoted_empty = [EmptyString])
    by (vm_compute; reflexivity).
  assert (H2 : extractListLiteral_spec quoted_empty = [])
    by (vm_compute; reflexivity).
  assert (H3 : _extract_list_items two_line_list = [])
    by (vm_compute; reflexivity).
  assert (H4 : extractListLiteral_spec two_line_list = ["a"; "b"]%string)
    by (vm_compute; reflexivity).
  split.
  - split; [exact H1|]. split; [exact H2|]. rewrite H1, H2. discriminate.
  - split; [exact H3|]. split; [exact H4|]. rewrite H3, H4. discriminate.
Qed.

(** A tab next to an element is kept: only spaces and quotes are
    stripped. *)
Example extract_list_items_keeps_tab :
  _extract_list_items ("[" +++ chr "009" +++ "a ]") = [chr "009" +++ "a"].
Proof. vm_compute. reflexivity. Qed.

Lemma split_not_nil (sep : ascii) (s : string) : split sep s <> [].
Proof.
  induction s as [|c s IH]; simpl; [discriminate|].
  destruct (c =? sep)%char; [discriminate|].
  destruct (split sep s); discriminate.
Qed.

(** The enum rule does not compare the default with the values: given an
    argument text with its closing parentheses, which [_parse_option] never
    hands it (see [args_without_paren]), it returns an enum option whose
    default is not among its values. *)
Lemma enum_rule_default_outside_values :
  enum_rule enum_args
  = Some (EnumOpt "target" "Compilation target" "editor" ["debug"; "release"])
  /\ ~ In "editor" ["debug"; "release"].
Proof.
  split; [vm_compute; reflexivity|].
  simpl. intros [H|[H|[]]]; discriminate H.
Qed.

(** Every option the enum rule (lines 63-72) returns is an enum option with
    at least one allowed value. *)
Lemma enum_rule_values_not_empty (args : string) (o : opt) :
  enum_rule args = Some o ->
  exists name desc default vals,
    o = EnumOpt name desc default vals /\ vals <> [].
Proof.
  unfold enum_rule. destruct (search re_enum args) as [m|]; [|discriminate].
  intros H. injection H as <-. do 4 eexists. split; [reflexivity|].
  intros Hnil. apply map_eq_nil in Hnil. exact (split_not_nil _ _ Hnil).
Qed.

End Extractors.

(** ** The library emitter *)

Module LibraryEmitter.

(** C5. For every library and every list of found sources, the content the
    library emitter writes has no include-directory declaration and no
    Unix branch; on a tree with a library with one source and a library
    without sources the emitter warns about the second and writes both
    files, neither with an include-directory declaration or a compile
    definition. *)
Theorem core_file_lacks_include_directories :
  (forall lib files,
      ~ In ("target_include_directories(" +++ lib)
           (core_content lib (map indent4 files)) /\
      ~ In "if(UNIX AND NOT APPLE)" (core_content lib (map indent4 files))) /\
  _generate_core_cmake_files "proj" (fresh two_libs)
  = (Ok tt,
     {| fs := Dir [("core",
                    Dir [("a.cpp", File "int a;");
                         ("CMakeLists.txt",
                          File (join nl ["# core library"; blank;
                                         "set(LIB_SOURCES"; "    a.cpp"; ")";
                                         blank;
                                         "add_library(core STATIC ${LIB_SOURCES})"]))]);
                   ("main",
                    Dir [("CMakeLists.txt",
                          File (join nl ["# main library"; blank;
                                         "set(LIB_SOURCES"]))])];
        stdout := ["Warning: No source files found for library main in proj/main"];
        written := [(["core"; "CMakeLists.txt"],
                     join nl ["# core library"; blank; "set(LIB_SOURCES";
                              "    a.cpp"; ")"; blank;
                              "add_library(core STATIC ${LIB_SOURCES})"]);
                    (["main"; "CMakeLists.txt"],
                     join nl ["# main library"; blank; "set(LIB_SOURCES"])] |}).
Proof.
  split; [|vm_compute; reflexivity].
  intros lib files.
  assert (H : forall o, startswith " " o = false -> startswith "#" o = false ->
                        startswith "a" o = false -> o <> ")" -> o <> blank ->
                        o <> "set(LIB_SOURCES" ->
                        ~ In o (core_content lib (map indent4 files))).
  { intros o Hsp Hhash Ha Hc Hb Hs Hin. unfold core_content in Hin.
    apply in_app_or in Hin. destruct Hin as [Hin|Hin].
    - simpl in Hin. destruct Hin as [H|[H|[H|[]]]]; try congruence.
      subst o. discriminate Hhash.
    - destruct (some (map indent4 files)); [|contradiction].
      apply in_app_or in Hin. destruct Hin as [Hin|Hin].
      + revert Hin. apply PlatformEmitter.in_indent4. exact Hsp.
      + simpl in Hin. destruct Hin as [H|[H|[H|[]]]]; try congruence.
        subst o. discriminate Ha. }
  split; apply H; try reflexivity; discriminate.
Qed.

End LibraryEmitter.

(** ** Collection *)

Module DictFacts.

Lemma dict_get_set (V : Type) (k x : string) (v : V) (d : dict V) :
  dict_get x (dict_set k v d) =
  if (k =? x)%string then Some v else dict_get x d.
Proof.
  induction d as [|[k' v'] d IH]; simpl.
  - reflexivity.
  - destruct (String.eqb_spec k' k) as [->|Hk]; simpl.
    + destruct (k =? x)%string; reflexivity.
    + rewrite IH. destruct (String.eqb_spec k' x) as [->|Hx]; [|reflexivity].
      destruct (String.eqb_spec k x); [congruence | reflexivity].
Qed.

Lemma in_dict_set (V : Type) (k x : string) (v c : V) (d : dict V) :
  In (x, c) (dict_set k v d) -> (x, c) = (k, v) \/ In (x, c) d.
Proof.
  induction d as [|[k' v'] d IH]; simpl.
  - intros [H|[]]; left; congruence.
  - destruct (k' =? k)%string; simpl.
    + intros [H|H]; [left; congruence | right; right; exact H].
    + intros [H|H]; [right; left; exact H|].
      destruct (IH H) as [E|E]; [left; exact E | right; right; exact E].
Qed.

Lemma dict_get_in (V : Type) (x : string) (c : V) (d : dict V) :
  dict_get x d = Some c -> In (x, c) d.
Proof.
  induction d as [|[k' v'] d IH]; simpl; [discriminate|].
  destruct (String.eqb_spec k' x) as [->|Hx].
  - intros H. injection H as ->. left. reflexivity.
  - intros H. right. apply IH, H.
Qed.

End DictFacts.
Import DictFacts.

Module Collect.

Lemma walk_app (n : node) (p p' : path) :
  walk n (p ++ p') =
  match walk n p with
  | Ok c => walk c p'
  | Raise e => Raise e
  end.
Proof.
  revert n. induction p as [|x p IH]; intros n; simpl; [reflexivity|].
  destruct n as [content|es]; [reflexivity|].
  destruct (find x es); [apply IH | reflexivity].
Qed.

Lemma find_in_names (x : string) (es : list (string * node)) (c : node) :
  find x es = Some c -> In x (map fst es).
Proof.
  induction es as [|[y m] es IH]; simpl; [discriminate|].
  destruct (String.eqb_spec y x) as [->|Hy]; [left; reflexivity|].
  intros H. right. apply IH, H.
Qed.

(** A directory below [p] is among the names the glob of [p] gives. *)
Lemma is_dir_listed (n : node) (p : path) (x : string) :
  is_dir n (p ++ [x]) = true -> In x (path_glob_star n p).
Proof.
  unfold is_dir, path_glob_star. rewrite walk_app.
  destruct (walk n p) as [[content|es]|e]; simpl; try discriminate.
  destruct (find x es) as [c|] eqn:E; [|discriminate].
  intros _. eapply find_in_names, E.
Qed.

(** A loop whose rounds leave the world as it is. [P] relates the names
    gone through to the value built so far; a round that raises gives
    [Bad] for its name. *)
Lemma foldM_reading (A B : Type) (body : B -> A -> M B) (w : world)
      (P : list A -> B -> Prop) (Bad : A -> Prop) :
  (forall pre x b, P pre b ->
     match body b x w with
     | (Ok b', w') => w' = w /\ P (pre ++ [x]) b'
     | (Raise _, w') => w' = w /\ Bad x
     end) ->
  forall l pre b, P pre b ->
    match foldM body l b w with
    | (Ok r, w') => w' = w /\ P (pre ++ l) r
    | (Raise _, w') => w' = w /\ exists x, In x l /\ Bad x
    end.
Proof.
  intros Hbody. induction l as [|x l IH]; intros pre b HP; cbn [foldM].
  - unfold ret. rewrite app_nil_r. split; [reflexivity | exact HP].
  - unfold bind. specialize (Hbody pre x b HP).
    destruct (body b x w) as [[b'|e] w']; destruct Hbody as [-> H].
    + specialize (IH (pre ++ [x]) b' H). rewrite <- app_assoc in IH.
      destruct (foldM body l b' w) as [[r|e] w'']; destruct IH as [-> IH].
      * split; [reflexivity | exact IH].
      * split; [reflexivity|]. destruct IH as [y [Hy HB]].
        exists y. split; [right; exact Hy | exact HB].
    + split; [reflexivity|]. exists x. split; [left; reflexivity | exact H].
Qed.

Lemma parse_module_spec (module : string) (p : path) (w : world) :
  match _parse_module module p w with
  | (Ok config, w') =>
      w' = w /\ m_name config = module /\
      m_defines config = [] /\ m_includes config = [] /\
      (exists_ (fs w) (p ++ ["SCsub"]) = true \/ config = empty_module module)
  | (Raise _, w') => w' = w /\ is_dir (fs w) (p ++ ["SCsub"]) = true
  end.
Proof.
  unfold _parse_module, bind, path_exists, open_read, ret, read, is_dir.
  destruct (exists_ (fs w) (p ++ ["SCsub"])) eqn:E.
  - unfold exists_ in E.
    destruct (walk (fs w) (p ++ ["SCsub"])) as [[content|es]|e];
      try discriminate; simpl; auto 10.
  - simpl. auto 10.
Qed.

Lemma parse_platform_detect_spec (platform : string) (p : path) (w : world) :
  match _parse_platform_detect platform p w with
  | (Ok config, w') =>
      w' = w /\ p_name config = platform /\
      p_defines config = [] /\ p_includes config = [] /\
      exists_ (fs w) p = true
  | (Raise _, w') => w' = w /\ (exists_ (fs w) p = true -> is_dir (fs w) p = true)
  end.
Proof.
  unfold _parse_platform_detect, bind, open_read, ret, read, is_dir, exists_.
  destruct (walk (fs w) p) as [[content|es]|e]; simpl; auto 10.
Qed.

(** What [_parse_platform_configs] returns: every entry belongs to a
    directory with a descriptor and has no defines and no include paths;
    it raises only on a descriptor that is a directory. *)
Lemma parse_platform_configs_spec (w : world) :
  match _parse_platform_configs w with
  | (Ok configs, w') =>
      w' = w /\
      forall x config, In (x, config) configs ->
        exists_ (fs w) ["platform"; x; "detect.py"] = true /\
        p_name config = x /\ p_defines config = [] /\ p_includes config = []
  | (Raise _, w') =>
      w' = w /\ exists x, is_dir (fs w) ["platform"; x; "detect.py"] = true
  end.
Proof.
  unfold _parse_platform_configs, bind, path_glob.
  match goal with
  | |- context [foldM ?body ?l ?b w] =>
      pose proof (@foldM_reading _ _ body w
        (fun _ configs => forall x config, In (x, config) configs ->
           exists_ (fs w) ["platform"; x; "detect.py"] = true /\
           p_name config = x /\ p_defines config = [] /\ p_includes config = [])
        (fun x => is_dir (fs w) ["platform"; x; "detect.py"] = true)) as H;
      specialize (fun Hb => H Hb l [] b)
  end.
  match type of H with
  | ?Hb -> ?Hp -> _ => assert (Hbody : Hb); [| assert (Hinit : Hp) ]
  end.
  - intros pre x b HP. unfold platform_round, bind, path_is_dir, path_exists, ret.
    destruct (is_dir (fs w) ["platform"; x]); cbn [negb];
      [|split; [reflexivity | exact HP]].
    destruct (exists_ (fs w) ["platform"; x; "detect.py"]) eqn:Ex; cbn [negb];
      [|split; [reflexivity | exact HP]].
    pose proof (parse_platform_detect_spec x ["platform"; x; "detect.py"] w) as Hd.
    destruct (_parse_platform_detect x ["platform"; x; "detect.py"] w)
      as [[config|e] w'].
    + destruct Hd as [-> [Hn [Hde [Hin _]]]]. split; [reflexivity|].
      intros y c Hy. apply in_dict_set in Hy. destruct Hy as [Hy|Hy].
      * injection Hy as -> ->. auto.
      * apply HP, Hy.
    + destruct Hd as [-> Hd]. split; [reflexivity | apply Hd, Ex].
  - intros x config [].
  - specialize (H Hbody Hinit).
    destruct (foldM _ _ _ w) as [[r|e] w']; destruct H as [-> H].
    + split; [reflexivity | exact H].
    + split; [reflexivity|]. destruct H as [x [_ Hx]]. exists x. exact Hx.
Qed.

(** What [_parse_modules] returns: every directory has an entry, every
    entry carries its name, no defines, no include paths, and is empty
    when there is no manifest; it raises only on a manifest that is a
    directory. *)
Lemma parse_modules_spec (w : world) :
  match _parse_modules w with
  | (Ok modules, w') =>
      w' = w /\
      (forall x config, In (x, config) modules ->
         m_name config = x /\ m_defines config = [] /\ m_includes config = [] /\
         (exists_ (fs w) ["modules"; x; "SCsub"] = true
          \/ config = empty_module x)) /\
      (forall x, is_dir (fs w) ["modules"; x] = true ->
                 dict_get x modules <> None)
  | (Raise _, w') =>
      w' = w /\ exists x, is_dir (fs w) ["modules"; x; "SCsub"] = true
  end.
Proof.
  unfold _parse_modules, bind, path_glob.
  match goal with
  | |- context [foldM ?body ?l ?b w] =>
      pose proof (@foldM_reading _ _ body w
        (fun pre modules =>
           (forall x config, In (x, config) modules ->
              m_name config = x /\ m_defines config = [] /\
              m_includes config = [] /\
              (exists_ (fs w) ["modules"; x; "SCsub"] = true
               \/ config = empty_module x)) /\
           (forall x, In x pre -> is_dir (fs w) ["modules"; x] = true ->
                      dict_get x modules <> None))
        (fun x => is_dir (fs w) ["modules"; x; "SCsub"] = true)) as H;
      specialize (fun Hb => H Hb l [] b)
  end.
  match type of H with
  | ?Hb -> ?Hp -> _ => assert (Hbody : Hb); [| assert (Hinit : Hp) ]
  end.
  - intros pre x b [HQ HP]. unfold module_round, bind, path_is_dir, ret.
    destruct (is_dir (fs w) ["modules"; x]) eqn:Ed; cbn [negb].
    + pose proof (parse_module_spec x ["modules"; x] w) as Hm.
      destruct (_parse_module x ["modules"; x] w) as [[config|e] w'].
      * destruct Hm as [-> Hm]. split; [reflexivity|]. split.
        -- intros y c Hy. apply in_dict_set in Hy. destruct Hy as [Hy|Hy].
           ++ injection Hy as -> ->. exact Hm.
           ++ apply HQ, Hy.
        -- intros y Hy Hd. rewrite dict_get_set.
           destruct (String.eqb_spec x y) as [->|Hxy]; [discriminate|].
           apply in_app_or in Hy. destruct Hy as [Hy|[Hy|[]]]; [|congruence].
           apply HP; assumption.
      * destruct Hm as [-> Hm]. split; [reflexivity | exact Hm].
    + split; [reflexivity|]. split; [exact HQ|].
      intros y Hy Hd. apply in_app_or in Hy. destruct Hy as [Hy|[Hy|[]]].
      * apply HP; assumption.
      * subst y. congruence.
  - split; [intros x config [] | intros x []].
  - specialize (H Hbody Hinit).
    destruct (foldM _ _ _ w) as [[r|e] w']; destruct H as [-> H].
    + split; [reflexivity|]. destruct H as [HQ HP]. split; [exact HQ|].
      intros x Hd. apply HP; [|exact Hd]. simpl.
      apply (is_dir_listed (fs w) ["modules"] x Hd).
    + split; [reflexivity|]. destruct H as [x [_ Hx]]. exists x. exact Hx.
Qed.

End Collect.

(** ** Writes and what they leave alone *)

Module Frame.
Import Collect.

Lemma find_replace (x y : string) (m : node) (es : list (string * node)) :
  find y (replace x m es) =
  if (x =? y)%string
  then match find x es with Some _ => Some m | None => None end
  else find y es.
Proof.
  induction es as [|[z c] es IH]; simpl.
  - destruct (x =? y)%string; reflexivity.
  - destruct (String.eqb_spec z x) as [->|Hzx]; simpl.
    + destruct (String.eqb_spec x y) as [->|Hxy]; reflexivity.
    + rewrite IH. destruct (String.eqb_spec x y) as [->|Hxy].
      * destruct (String.eqb_spec z y); [congruence | reflexivity].
      * reflexivity.
Qed.

Lemma find_app (y : string) (es es' : list (string * node)) :
  find y (es ++ es') =
  match find y es with Some c => Some c | None => find y es' end.
Proof.
  induction es as [|[z c] es IH]; simpl; [reflexivity|].
  destruct (z =? y)%string; [reflexivity | exact IH].
Qed.

Lemma names_replace (x : string) (m : node) (es : list (string * node)) :
  map fst (replace x m es) = map fst es.
Proof.
  induction es as [|[z c] es IH]; simpl; [reflexivity|].
  destruct (z =? x)%string; simpl; congruence.
Qed.

Lemma flat_map_replace (A : Type) (F : string * node -> list A) (x : string)
      (m : node) (es : list (string * node)) :
  (forall old, find x es = Some old -> F (x, m) = F (x, old)) ->
  flat_map F (replace x m es) = flat_map F es.
Proof.
  induction es as [|[z c] es IH]; simpl; [reflexivity|].
  destruct (String.eqb_spec z x) as [->|Hzx]; simpl; intros H.
  - rewrite (H c eq_refl). reflexivity.
  - rewrite IH by exact H. reflexivity.
Qed.

Lemma filter_ext_in (A : Type) (f g : A -> bool) (l : list A) :
  (forall x, In x l -> f x = g x) -> filter f l = filter g l.
Proof.
  induction l as [|a l IH]; simpl; intros H; [reflexivity|].
  rewrite (H a) by (left; reflexivity).
  rewrite IH by (intros x Hx; apply H; right; exact Hx). reflexivity.
Qed.

Lemma same_view_refl (d : node) : same_view d d.
Proof. destruct d; simpl; auto. Qed.

Lemma same_result_refl (r : result node) : same_result r r.
Proof. destruct r; simpl; [apply same_view_refl | exact I]. Qed.

Lemma walk_file_nonempty (content : string) (p : path) :
  p <> [] -> exists e, walk (File content) p = Raise e.
Proof. destruct p; [congruence|]. intros _. eexists. reflexivity. Qed.

Lemma no_source_spec (name suffix : string) :
  no_source name = true -> In suffix exts -> fnmatch_star suffix name = false.
Proof.
  unfold no_source. rewrite forallb_forall. intros H Hin.
  apply negb_true_iff, H, Hin.
Qed.

(** Replacing or adding a file that no source pattern matches leaves a
    directory as a run reads it. *)
Lemma same_view_put_file (x content : string) (es : list (string * node)) :
  no_source x = true ->
  match find x es with Some (Dir _) => False | _ => True end ->
  same_view (Dir es)
            (Dir (match find x es with
                  | Some _ => replace x (File content) es
                  | None => es ++ [(x, File content)]
                  end)).
Proof.
  intros Hns Hkind. simpl. split.
  - destruct (find x es) as [old|] eqn:E.
    + rewrite names_replace. apply filter_ext_in. intros y _.
      rewrite find_replace, E.
      destruct (String.eqb_spec x y) as [->|Hxy]; [|reflexivity].
      rewrite E. destruct old; [reflexivity | contradiction].
    + rewrite map_app, filter_app. simpl.
      rewrite find_app, E. simpl. rewrite String.eqb_refl, app_nil_r.
      apply filter_ext_in. intros y _. rewrite find_app.
      destruct (find y es) as [c|] eqn:Ey; [reflexivity|]. simpl.
      destruct (x =? y)%string; reflexivity.
  - intros suffix Hin. f_equal.
    + destruct (find x es) as [old|] eqn:E.
      * rewrite names_replace. reflexivity.
      * rewrite map_app, filter_app. simpl.
        rewrite (@no_source_spec x suffix Hns Hin), andb_false_r, app_nil_r.
        reflexivity.
    + destruct (find x es) as [old|] eqn:E.
      * apply flat_map_replace. intros old' Hold. rewrite E in Hold.
        injection Hold as <-. destruct old; [reflexivity | contradiction].
      * rewrite flat_map_app. simpl. rewrite app_nil_r. reflexivity.
Qed.

Lemma write_dir (n : node) (q : path) (content : string) (n' : node) :
  write n q content = Ok n' -> q <> [] ->
  exists es es', n = Dir es /\ n' = Dir es'.
Proof.
  destruct q as [|x q]; [congruence|]. intros H _. simpl in H.
  destruct n as [a|es]; [discriminate|].
  destruct q as [|y q].
  - destruct (find x es) as [[a|es0]|]; try discriminate;
      injection H as <-; eauto.
  - destruct (find x es) as [c|]; [|discriminate].
    destruct (write c (y :: q) content); [|discriminate].
    injection H as <-. eauto.
Qed.

(** After a write, every other path leads to a node read as before. *)
Lemma write_view (q : path) :
  forall (n : node) (content : string) (n' : node),
    write n q content = Ok n' ->
    no_source (last q EmptyString) = true ->
    forall p, p <> q -> same_result (walk n p) (walk n' p).
Proof.
  induction q as [|x q IH]; intros n content n' Hw Hns p Hp; [discriminate|].
  cbn [write] in Hw. destruct n as [a|es]; [discriminate|].
  destruct q as [|y q].
  - assert (Hview : match find x es with Some (Dir _) => False | _ => True end
                    /\ n' = Dir (match find x es with
                                 | Some _ => replace x (File content) es
                                 | None => es ++ [(x, File content)]
                                 end)).
    { destruct (find x es) as [[a|es0]|]; try discriminate;
        injection Hw as <-; auto. }
    destruct Hview as [Hkind ->].
    destruct p as [|z p].
    + simpl walk. apply same_view_put_file; [exact Hns | exact Hkind].
    + cbn [walk]. destruct (String.eqb_spec x z) as [->|Hxz].
      * assert (Hp' : p <> []) by congruence.
        destruct (find z es) as [[a|es0]|] eqn:E; [|contradiction|].
        -- rewrite find_replace, String.eqb_refl, E.
           destruct (walk_file_nonempty a Hp') as [e ->].
           destruct (walk_file_nonempty content Hp') as [e' ->]. exact I.
        -- rewrite find_app, E. simpl. rewrite String.eqb_refl.
           destruct (walk_file_nonempty content Hp') as [e' ->]. exact I.
      * replace (find z (match find x es with
                         | Some _ => replace x (File content) es
                         | None => es ++ [(x, File content)]
                         end)) with (find z es).
        -- apply same_result_refl.
        -- destruct (find x es) eqn:E.
           ++ rewrite find_replace.
              destruct (String.eqb_spec x z); [congruence | reflexivity].
           ++ rewrite find_app. destruct (find z es); [reflexivity|]. simpl.
              destruct (String.eqb_spec x z); [congruence | reflexivity].
  - destruct (find x es) as [c|] eqn:E; [|discriminate].
    destruct (write c (y :: q) content) as [c'|] eqn:Ew; [|discriminate].
    injection Hw as <-.
    assert (Hns' : no_source (last (y :: q) EmptyString) = true) by exact Hns.
    destruct p as [|z p].
    + pose proof (IH c content c' Ew Hns' [] ltac:(discriminate)) as Hc.
      destruct (write_dir _ _ Ew ltac:(discriminate)) as [es0 [es0' [-> ->]]].
      simpl in Hc. destruct Hc as [_ Hglob]. simpl. split.
      * rewrite names_replace. apply filter_ext_in. intros z _.
        rewrite find_replace, E.
        destruct (String.eqb_spec x z) as [->|Hxz]; [|reflexivity].
        rewrite E. reflexivity.
      * intros suffix Hin. rewrite names_replace. f_equal.
        apply flat_map_replace. intros old Hold. rewrite E in Hold.
        injection Hold as <-. simpl.
        specialize (Hglob suffix Hin). simpl in Hglob. rewrite Hglob.
        reflexivity.
    + cbn [walk]. rewrite find_replace, E.
      destruct (String.eqb_spec x z) as [->|Hxz].
      * rewrite E. apply (IH c content c' Ew Hns'). congruence.
      * apply same_result_refl.
Qed.

Lemma stat_same (n n' : node) (p : path) :
  same_result (walk n p) (walk n' p) -> stat n' p = stat n p.
Proof.
  unfold stat.
  destruct (walk n p) as [[a|es]|e], (walk n' p) as [[a'|es']|e'];
    simpl; try contradiction; try reflexivity.
  intros ->. reflexivity.
Qed.

Lemma exists_stat (n : node) (p : path) :
  exists_ n p = match stat n p with Some _ => true | None => false end.
Proof. unfold exists_, stat. destruct (walk n p) as [[a|es]|e]; reflexivity. Qed.

Lemma is_dir_stat (n : node) (p : path) :
  is_dir n p = match stat n p with Some None => true | _ => false end.
Proof. unfold is_dir, stat. destruct (walk n p) as [[a|es]|e]; reflexivity. Qed.

Lemma read_stat (n : node) (p : path) (content : string) :
  read n p = Ok content <-> stat n p = Some (Some content).
Proof.
  unfold read, stat. destruct (walk n p) as [[a|es]|e]; split; congruence.
Qed.

Lemma subdirs_walk (n : node) (p : path) :
  subdirs n p =
  match walk n p with
  | Ok d => subdir_names d
  | Raise _ => []
  end.
Proof.
  unfold subdirs, path_glob_star, subdir_names.
  destruct (walk n p) as [[a|es]|e] eqn:E; try reflexivity.
  apply filter_ext_in. intros x _. unfold is_dir.
  rewrite Collect.walk_app, E. simpl.
  destruct (find x es) as [[a|es0]|]; reflexivity.
Qed.

Lemma subdirs_same (n n' : node) (p : path) :
  same_result (walk n p) (walk n' p) -> subdirs n' p = subdirs n p.
Proof.
  rewrite !subdirs_walk.
  destruct (walk n p) as [[a|es]|e], (walk n' p) as [[a'|es']|e'];
    simpl; try contradiction; try reflexivity.
  intros [H _]. exact H.
Qed.

Lemma glob_same (n n' : node) (p : path) (suffix : string) :
  In suffix exts ->
  same_result (walk n p) (walk n' p) -> glob_at n' p suffix = glob_at n p suffix.
Proof.
  intros Hin. unfold glob_at.
  destruct (walk n p) as [[a|es]|e], (walk n' p) as [[a'|es']|e'];
    simpl; try contradiction; try reflexivity.
  intros [_ H]. apply H, Hin.
Qed.

(** Where a write went there is the file; before, there was a file or
    nothing. *)
Lemma write_at (q : path) :
  forall (n : node) (content : string) (n' : node),
    write n q content = Ok n' ->
    walk n' q = Ok (File content) /\
    match walk n q with Ok (Dir _) => False | _ => True end.
Proof.
  induction q as [|x q IH]; intros n content n' Hw; [discriminate|].
  cbn [write] in Hw. destruct n as [a|es]; [discriminate|].
  destruct q as [|y q].
  - cbn [walk]. destruct (find x es) as [[a|es0]|] eqn:E; try discriminate;
      injection Hw as <-; cbn [walk].
    + rewrite find_replace, String.eqb_refl, E. auto.
    + rewrite find_app, E. simpl. rewrite String.eqb_refl. auto.
  - destruct (find x es) as [c|] eqn:E; [|discriminate].
    destruct (write c (y :: q) content) as [c'|] eqn:Ew; [|discriminate].
    injection Hw as <-. destruct (IH c content c' Ew) as [H1 H2].
    cbn [walk] in *. rewrite find_replace, String.eqb_refl, E. auto.
Qed.

(** What a write leaves as it was. *)
Lemma write_frame (n : node) (q : path) (content : string) (n' : node) :
  write n q content = Ok n' ->
  no_source (last q EmptyString) = true ->
  (forall p, p <> q -> stat n' p = stat n p) /\
  stat n' q = Some (Some content) /\
  (forall p, is_dir n' p = is_dir n p) /\
  (forall p, subdirs n' p = subdirs n p) /\
  (forall p suffix, In suffix exts -> glob_at n' p suffix = glob_at n p suffix).
Proof.
  intros Hw Hns. pose proof (@write_view q n content n' Hw Hns) as Hv.
  destruct (@write_at q n content n' Hw) as [Hq1 Hq2].
  assert (Hdec : forall p : path, p = q \/ p <> q).
  { intros p. destruct (list_eq_dec string_dec p q); auto. }
  repeat split.
  - intros p Hp. apply stat_same, Hv, Hp.
  - unfold stat. rewrite Hq1. reflexivity.
  - intros p. destruct (Hdec p) as [->|Hp].
    + unfold is_dir. rewrite Hq1. destruct (walk n q) as [[a|es]|e];
        [reflexivity | contradiction | reflexivity].
    + rewrite !is_dir_stat. rewrite (stat_same _ _ _ (Hv p Hp)). reflexivity.
  - intros p. destruct (Hdec p) as [->|Hp].
    + rewrite !subdirs_walk, Hq1. destruct (walk n q) as [[a|es]|e];
        [reflexivity | contradiction | reflexivity].
    + apply subdirs_same, Hv, Hp.
  - intros p suffix Hin. destruct (Hdec p) as [->|Hp].
    + unfold glob_at. rewrite Hq1. destruct (walk n q) as [[a|es]|e];
        [reflexivity | contradiction | reflexivity].
    + apply glob_same; [exact Hin | apply Hv, Hp].
Qed.

Lemma write_below (es : list (string * node)) (x y : string) (q : path)
      (content : string) :
  write (Dir es) (x :: y :: q) content =
  match find x es with
  | Some c =>
      match write c (y :: q) content with
      | Ok c' => Ok (Dir (replace x c' es))
      | Raise e => Raise e
      end
  | None => Raise FileNotFoundError
  end.
Proof. reflexivity. Qed.

Lemma write_succeeds (q : path) :
  forall (n : node) (content : string),
    q <> [] -> is_dir n (removelast q) = true -> is_dir n q = false ->
    exists n', write n q content = Ok n'.
Proof.
  induction q as [|x q IH]; intros n content Hq Hpar Hself; [congruence|].
  destruct q as [|y q].
  - unfold is_dir in Hpar, Hself. simpl in Hpar, Hself |- *.
    destruct n as [a|es]; [discriminate|].
    destruct (find x es) as [[a|es0]|]; [eauto | discriminate | eauto].
  - unfold is_dir in Hpar, Hself.
    change (removelast (x :: y :: q)) with (x :: removelast (y :: q)) in Hpar.
    cbn [walk] in Hpar, Hself.
    destruct n as [a|es]; [discriminate|]. rewrite write_below.
    destruct (find x es) as [c|]; [|discriminate].
    destruct (IH c content ltac:(discriminate) Hpar Hself) as [c' ->]. eauto.
Qed.

Lemma write_needs (q : path) :
  forall (n : node) (content : string) (n' : node),
    write n q content = Ok n' ->
    q <> [] /\ is_dir n (removelast q) = true /\ is_dir n q = false.
Proof.
  induction q as [|x q IH]; intros n content n' Hw; [discriminate|].
  split; [discriminate|].
  cbn [write] in Hw. destruct n as [a|es]; [discriminate|].
  destruct q as [|y q].
  - unfold is_dir. simpl.
    destruct (find x es) as [[a|es0]|]; [auto | discriminate | auto].
  - destruct (find x es) as [c|] eqn:E; [|discriminate].
    destruct (write c (y :: q) content) as [c'|] eqn:Ew; [|discriminate].
    destruct (IH c content c' Ew) as [_ [H1 H2]].
    unfold is_dir in *.
    change (removelast (x :: y :: q)) with (x :: removelast (y :: q)).
    cbn [walk]. rewrite E. auto.
Qed.

Lemma mkdir_cmake_cases (n n' : node) :
  mkdir n ["cmake"] = Ok n' ->
  (n' = n /\ stat n ["cmake"] = Some None) \/
  (exists es, n = Dir es /\ find "cmake" es = None /\
              n' = Dir (es ++ [("cmake", Dir [])])).
Proof.
  unfold stat. simpl. destruct n as [a|es]; [discriminate|].
  destruct (find "cmake" es) as [[a|es0]|] eqn:E; try discriminate;
    intros H; injection H as <-.
  - left. auto.
  - right. exists es. auto.
Qed.

Lemma mkdir_cmake_succeeds (n : node) :
  is_dir n [] = true ->
  (stat n ["cmake"] = None \/ stat n ["cmake"] = Some None) ->
  exists n', mkdir n ["cmake"] = Ok n'.
Proof.
  unfold is_dir, stat. simpl. destruct n as [a|es]; [discriminate|].
  intros _. destruct (find "cmake" es) as [[a|es0]|]; intros [H|H];
    try discriminate; eauto.
Qed.

(** What making the directory cmake leaves as it was. *)
Lemma mkdir_cmake_frame (n n' : node) :
  mkdir n ["cmake"] = Ok n' ->
  (forall p, generated p = false -> stat n' p = stat n p) /\
  (forall p, p <> ["cmake"] -> is_dir n' p = is_dir n p) /\
  is_dir n [] = true /\
  stat n' ["cmake"] = Some None /\
  (stat n ["cmake"] = None \/ stat n ["cmake"] = Some None) /\
  (forall p, p <> [] -> subdirs n' p = subdirs n p) /\
  (forall p suffix, p <> [] -> glob_at n' p suffix = glob_at n p suffix).
Proof.
  intros Hm.
  assert (Hroot : is_dir n [] = true).
  { destruct n; [discriminate | reflexivity]. }
  destruct (@mkdir_cmake_cases n n' Hm) as [[-> Hs]|[es [-> [E ->]]]].
  - repeat split; auto.
  - assert (Hwalk : forall y p, y <> "cmake"%string ->
              walk (Dir (es ++ [("cmake"%string, Dir [])])) (y :: p)
              = walk (Dir es) (y :: p)).
    { intros y p Hy. cbn [walk]. rewrite find_app.
      destruct (find y es); [reflexivity|]. cbn [find].
      destruct (String.eqb_spec "cmake" y); [congruence | reflexivity]. }
    assert (Hnew : forall p,
              walk (Dir (es ++ [("cmake"%string, Dir [])])) ("cmake"%string :: p)
              = walk (Dir []) p).
    { intros p. cbn [walk]. rewrite find_app, E. reflexivity. }
    assert (Hold : forall p, walk (Dir es) ("cmake"%string :: p)
                             = Raise FileNotFoundError).
    { intros p. cbn [walk]. rewrite E. reflexivity. }
    assert (Hempty : forall p, p <> [] ->
              walk (Dir []) p = Raise FileNotFoundError).
    { intros [|y p] Hp; [congruence | reflexivity]. }
    repeat split.
    + intros [|y p] Hg; [reflexivity|].
      unfold stat. rewrite Hwalk; [reflexivity|].
      unfold generated in Hg. apply orb_false_iff in Hg. destruct Hg as [_ Hg].
      intros ->. discriminate Hg.
    + intros [|y p] Hp; [reflexivity|]. unfold is_dir.
      destruct (String.eqb_spec y "cmake") as [->|Hy].
      * rewrite Hnew, Hold, Hempty; [reflexivity | congruence].
      * rewrite Hwalk by exact Hy. reflexivity.
    + unfold stat. rewrite Hnew. reflexivity.
    + left. unfold stat. rewrite Hold. reflexivity.
    + intros [|y p] Hp; [congruence|]. rewrite !subdirs_walk.
      destruct (String.eqb_spec y "cmake") as [->|Hy].
      * rewrite Hnew, Hold. destruct p; reflexivity.
      * rewrite Hwalk by exact Hy. reflexivity.
    + intros [|y p] suffix Hp; [congruence|]. unfold glob_at.
      destruct (String.eqb_spec y "cmake") as [->|Hy].
      * rewrite Hnew, Hold. destruct p; reflexivity.
      * rewrite Hwalk by exact Hy. reflexivity.
Qed.

Lemma agree_refl (n : node) : agree n n.
Proof. constructor; auto. left. reflexivity. Qed.

Lemma agree_trans (n1 n2 n3 : node) : agree n1 n2 -> agree n2 n3 -> agree n1 n3.
Proof.
  intros [S1 D1 C1 U1 G1] [S2 D2 C2 U2 G2]. constructor.
  - intros p Hp. rewrite S2, S1; auto.
  - intros p Hp. rewrite D2, D1; auto.
  - unfold cmake_kept in *.
    destruct C1 as [C1|[C1 C1']], C2 as [C2|[C2 C2']]; try congruence.
    + left. congruence.
    + right. split; congruence.
    + right. split; congruence.
  - intros p Hp. rewrite U2, U1; auto.
  - intros p suffix Hp Hin. rewrite G2, G1; auto.
Qed.

Lemma not_generated_neq (p q : path) :
  generated p = false -> generated q = true -> p <> q.
Proof. intros Hp Hq ->. congruence. Qed.

Lemma write_agree (n : node) (q : path) (content : string) (n' : node) :
  target q -> write n q content = Ok n' -> agree n n'.
Proof.
  intros [Hg [Hns Hc]] Hw.
  destruct (@write_frame n q content n' Hw Hns) as [Hs [_ [Hd [Hu Hgl]]]].
  constructor; auto.
  - intros p Hp. apply Hs. eapply not_generated_neq; eauto.
  - left. apply Hs. congruence.
Qed.

Lemma mkdir_cmake_agree (n n' : node) :
  mkdir n ["cmake"] = Ok n' -> agree n n'.
Proof.
  intros Hm.
  destruct (@mkdir_cmake_frame n n' Hm) as [Hs [Hd [_ [Hnew [Hold [Hu Hg]]]]]].
  constructor; auto.
  unfold cmake_kept. destruct Hold as [Hold|Hold].
  - right. auto.
  - left. congruence.
Qed.

(** The same write succeeds on a tree that agrees, and the trees agree
    afterwards. *)
Lemma write_parallel (n v : node) (q : path) (content : string) (n' : node) :
  target q -> agree n v -> write n q content = Ok n' ->
  exists v', write v q content = Ok v' /\ agree n' v'.
Proof.
  intros [Hg [Hns Hc]] [S D C U G] Hw.
  destruct (@write_needs q n content n' Hw) as [Hq [Hpar Hself]].
  assert (Hv : exists v', write v q content = Ok v').
  { apply write_succeeds; [exact Hq | | rewrite D; assumption].
    destruct (list_eq_dec string_dec (removelast q) ["cmake"%string]) as [E|E].
    - rewrite E in *. rewrite is_dir_stat in Hpar |- *.
      destruct C as [C|[C1 C2]]; [rewrite C; exact Hpar | rewrite C2; reflexivity].
    - rewrite D; assumption. }
  destruct Hv as [v' Hv]. exists v'. split; [exact Hv|].
  destruct (@write_frame n q content n' Hw Hns) as [Hs [Hsq [Hd [Hu Hgl]]]].
  destruct (@write_frame v q content v' Hv Hns) as [Hs' [Hsq' [Hd' [Hu' Hgl']]]].
  constructor.
  - intros p Hp. assert (p <> q) by (eapply not_generated_neq; eauto).
    rewrite Hs', Hs, S; auto.
  - intros p Hp. rewrite Hd', Hd, D; auto.
  - unfold cmake_kept. rewrite (Hs ["cmake"%string]), (Hs' ["cmake"%string])
      by congruence. exact C.
  - intros p Hp. rewrite Hu', Hu, U; auto.
  - intros p suffix Hp Hin. rewrite Hgl', Hgl, G; auto.
Qed.

Lemma mkdir_cmake_parallel (n v n' : node) :
  agree n v -> mkdir n ["cmake"] = Ok n' ->
  exists v', mkdir v ["cmake"] = Ok v' /\ agree n' v'.
Proof.
  intros [S D C U G] Hm.
  destruct (@mkdir_cmake_frame n n' Hm) as [Hs [Hd [Hroot [Hnew [Hold [Hu Hg]]]]]].
  assert (Hv : exists v', mkdir v ["cmake"] = Ok v').
  { apply mkdir_cmake_succeeds.
    - rewrite D by discriminate. exact Hroot.
    - destruct C as [C|[C1 C2]]; [rewrite C; exact Hold | right; exact C2]. }
  destruct Hv as [v' Hv]. exists v'. split; [exact Hv|].
  destruct (@mkdir_cmake_frame v v' Hv) as [Hs' [Hd' [_ [Hnew' [_ [Hu' Hg']]]]]].
  constructor.
  - intros p Hp. rewrite Hs', Hs, S; auto.
  - intros p Hp. rewrite Hd', Hd, D; auto.
  - left. congruence.
  - intros p Hp. rewrite Hu', Hu, U; auto.
  - intros p suffix Hp Hin. rewrite Hg', Hg, G; auto.
Qed.

End Frame.

(** ** Running the pipeline twice *)

Module Twice.
Import DictFacts Collect Frame.

Lemma same_outcome_refl (A : Type) (r : result A) : same_outcome r r.
Proof. destruct r; simpl; auto. Qed.

(** Once the directory cmake is there, every step keeps it. *)
Lemma steady_keeps_cmake (A : Type) (c : M A) (w : world) (r : result A)
      (w' : world) :
  steady c -> c w = (r, w') -> cmake_dir (fs w) -> cmake_dir (fs w').
Proof.
  intros Hs H Hc. destruct (agree_cmake (Hs w r w' H)) as [E|[E _]];
    unfold cmake_dir in *; congruence.
Qed.

Lemma good_weaken (A : Type) (c : M A) : good c -> good_below_cmake c.
Proof.
  intros [Hs Hr]. split; [exact Hs|].
  intros w v r w' Hag _ _ H. apply (Hr w v r w' Hag I I H).
Qed.

Section Ready.
Variable ready : node -> Prop.
Hypothesis ready_kept :
  forall (A : Type) (c : M A) (w : world) (r : result A) (w' : world),
    steady c -> c w = (r, w') -> ready (fs w) -> ready (fs w').

Lemma repeats_ret (A : Type) (a : A) : repeats_when ready (ret a).
Proof.
  intros w v r w' Hag _ _ H. injection H as <- <-.
  exists (Ok a), v. split; [reflexivity|]. split; [reflexivity|].
  split; [exact Hag|]. exists [], []. rewrite !app_nil_r. auto.
Qed.

Lemma repeats_bind (A B : Type) (c : M A) (k : A -> M B) :
  steady c -> repeats_when ready c ->
  (forall a, repeats_when ready (k a)) ->
  repeats_when ready (bind c k).
Proof.
  intros Sc Rc Rk w v r w' Hag Hw Hv H. unfold bind in H |- *.
  destruct (c w) as [[a|e] w1] eqn:E.
  - destruct (Rc w v (Ok a) w1 Hag Hw Hv E)
      as [r1 [v1 [Ev [Hsame [Hag1 [o1 [r1' [Ho [Ho' [Hr Hr']]]]]]]]]].
    destruct r1 as [a1|e1]; [|contradiction]. simpl in Hsame. subst a1.
    destruct (Rk a w1 v1 r w' Hag1 (@ready_kept _ _ _ _ _ Sc E Hw) (@ready_kept _ _ _ _ _ Sc Ev Hv) H)
      as [r2 [v' [Ev' [Hsame' [Hag' [o2 [r2' [Ho2 [Ho2' [Hr2 Hr2']]]]]]]]]].
    exists r2, v'. rewrite Ev. split; [exact Ev'|]. split; [exact Hsame'|].
    split; [exact Hag'|]. exists (o1 ++ o2), (r1' ++ r2').
    rewrite Ho2, Ho2', Hr2, Hr2', Ho, Ho', Hr, Hr', !app_assoc. auto.
  - injection H as <- <-.
    destruct (Rc w v (Raise e) w1 Hag Hw Hv E)
      as [r1 [v1 [Ev [Hsame [Hag1 Hd]]]]].
    destruct r1 as [a1|e1]; [contradiction|].
    exists (Raise e1), v1. rewrite Ev. auto.
Qed.

Lemma repeats_forM_ (A : Type) (l : list A) (body : A -> M unit) :
  (forall x, In x l -> steady (body x) /\ repeats_when ready (body x)) ->
  steady (forM_ l body) /\ repeats_when ready (forM_ l body).
Proof.
  induction l as [|x l IH]; intros H; cbn [forM_].
  - split; [|apply repeats_ret].
    intros w r w' E. injection E as <- <-. apply agree_refl.
  - destruct (H x (or_introl eq_refl)) as [Sx Rx].
    destruct (IH (fun y Hy => H y (or_intror Hy))) as [Sl Rl]. split.
    + intros w r w' E. unfold bind in E.
      destruct (body x w) as [[a|e] w1] eqn:E1.
      * eapply agree_trans; [eapply Sx, E1 | eapply Sl, E].
      * injection E as <- <-. eapply Sx, E1.
    + apply repeats_bind; [exact Sx | exact Rx | intros _; exact Rl].
Qed.

End Ready.

Lemma ready_true_kept :
  forall (A : Type) (c : M A) (w : world) (r : result A) (w' : world),
    steady c -> c w = (r, w') -> (fun _ : node => True) (fs w) ->
    (fun _ : node => True) (fs w').
Proof. intros. exact I. Qed.

Lemma steady_bind (A B : Type) (c : M A) (k : A -> M B) :
  steady c -> (forall a, steady (k a)) -> steady (bind c k).
Proof.
  intros Sc Sk w r w' H. unfold bind in H.
  destruct (c w) as [[a|e] w1] eqn:E.
  - eapply agree_trans; [eapply Sc, E | eapply Sk, H].
  - injection H as <- <-. eapply Sc, E.
Qed.

Lemma good_ret (A : Type) (a : A) : good (ret a).
Proof.
  split; [|apply repeats_ret].
  intros w r w' H. injection H as <- <-. apply agree_refl.
Qed.

Lemma good_bind (A B : Type) (c : M A) (k : A -> M B) :
  good c -> (forall a, good (k a)) -> good (bind c k).
Proof.
  intros [Sc Rc] Hk. split.
  - apply steady_bind; [exact Sc | intros a; apply Hk].
  - apply (@repeats_bind (fun _ => True) (@ready_true_kept) A B c k Sc Rc). intros a. apply Hk.
Qed.

Lemma good_below_cmake_bind (A B : Type) (c : M A) (k : A -> M B) :
  good_below_cmake c -> (forall a, good_below_cmake (k a)) ->
  good_below_cmake (bind c k).
Proof.
  intros [Sc Rc] Hk. split.
  - apply steady_bind; [exact Sc | intros a; apply Hk].
  - apply (@repeats_bind cmake_dir (@steady_keeps_cmake) A B c k Sc Rc). intros a. apply Hk.
Qed.

Lemma good_print (line : string) : good (print line).
Proof.
  split.
  - intros w r w' H. injection H as <- <-. apply agree_refl.
  - intros w v r w' Hag _ _ H. injection H as <- <-.
    eexists (Ok tt), _. split; [reflexivity|]. split; [reflexivity|].
    split; [exact Hag|]. exists [line], []. simpl. rewrite !app_nil_r. auto.
Qed.

(** A computation that only looks at the tree. *)
Lemma good_look (A : Type) (f : node -> result A) :
  (forall n n', agree n n' -> same_outcome (f n) (f n')) ->
  good (fun w => (f (fs w), w)).
Proof.
  intros Hf. split.
  - intros w r w' H. injection H as <- <-. apply agree_refl.
  - intros w v r w' Hag _ _ H. injection H as <- <-.
    exists (f (fs v)), v. split; [reflexivity|].
    split; [apply Hf, Hag|]. split; [exact Hag|].
    exists [], []. rewrite !app_nil_r. auto.
Qed.

Lemma good_open_read (p : path) : generated p = false -> good (open_read p).
Proof.
  intros Hp. apply (good_look (fun n => read n p)). intros n n' Hag.
  pose proof (agree_stat Hag p Hp) as Hs. unfold stat, read in *.
  destruct (walk n p) as [[a|es]|e], (walk n' p) as [[a'|es']|e'];
    simpl; try discriminate; auto. congruence.
Qed.

Lemma good_path_exists (p : path) : generated p = false -> good (path_exists p).
Proof.
  intros Hp. apply (good_look (fun n => Ok (exists_ n p))).
  intros n n' Hag. simpl.
  rewrite !exists_stat, (agree_stat Hag p Hp). reflexivity.
Qed.

Lemma good_path_is_dir (p : path) : p <> ["cmake"] -> good (path_is_dir p).
Proof.
  intros Hp. apply (good_look (fun n => Ok (is_dir n p))).
  intros n n' Hag. simpl. rewrite (agree_is_dir Hag Hp). reflexivity.
Qed.

Lemma good_glob (p : path) (suffix : string) :
  p <> [] -> In suffix exts -> good (glob p suffix).
Proof.
  intros Hp Hin. apply (good_look (fun n => Ok (glob_at n p suffix))).
  intros n n' Hag. simpl. rewrite (agree_glob Hag Hp Hin). reflexivity.
Qed.

(** Where the directory a file goes into is seen alike, a write that fails
    on one tree fails on the other. *)
Lemma write_fails_parallel (n v : node) (q : path) (content : string) (e : exn) :
  agree n v -> q <> ["cmake"] ->
  is_dir v (removelast q) = is_dir n (removelast q) ->
  write n q content = Raise e -> exists e', write v q content = Raise e'.
Proof.
  intros Hag Hq Hpar Hw.
  destruct (write v q content) as [v'|e'] eqn:Ev; [|eauto].
  destruct (@write_needs q v content v' Ev) as [Hne [Hp Hs]].
  rewrite Hpar in Hp. rewrite (agree_is_dir Hag Hq) in Hs.
  destruct (@write_succeeds q n content Hne Hp Hs) as [n' Hn]. congruence.
Qed.

Lemma steady_open_write (q : path) (content : string) :
  target q -> steady (open_write q content).
Proof.
  intros Hq w r w' H. unfold open_write in H.
  destruct (write (fs w) q content) as [n|e] eqn:E; injection H as <- <-.
  - eapply write_agree; eauto.
  - apply agree_refl.
Qed.

Lemma repeats_open_write (ready : node -> Prop) (q : path) (content : string) :
  target q ->
  (forall n v, agree n v -> ready n -> ready v ->
               is_dir v (removelast q) = is_dir n (removelast q)) ->
  repeats_when ready (open_write q content).
Proof.
  intros Hq Hpar w v r w' Hag Hw Hv H. unfold open_write in H |- *.
  destruct (write (fs w) q content) as [n|e] eqn:E; injection H as <- <-.
  - destruct (@write_parallel (fs w) (fs v) q content n Hq Hag E) as [v' [Ev Hag']].
    rewrite Ev. eexists (Ok tt), _. split; [reflexivity|].
    split; [reflexivity|]. split; [exact Hag'|].
    exists [], [(q, content)]. simpl. rewrite !app_nil_r. auto.
  - destruct (@write_fails_parallel (fs w) (fs v) q content e Hag
                (proj2 (proj2 Hq)) (Hpar _ _ Hag Hw Hv) E) as [e' Ev].
    rewrite Ev. exists (Raise e'), v. split; [reflexivity|].
    split; [exact I|]. split; [exact Hag|].
    exists [], []. rewrite !app_nil_r. auto.
Qed.

Lemma good_open_write (q : path) (content : string) :
  target q -> removelast q <> ["cmake"] -> good (open_write q content).
Proof.
  intros Hq Hpar. split; [apply steady_open_write, Hq|].
  apply repeats_open_write; [exact Hq|].
  intros n v Hag _ _. apply (agree_is_dir Hag Hpar).
Qed.

Lemma good_below_cmake_open_write (q : path) (content : string) :
  target q -> removelast q = ["cmake"] ->
  good_below_cmake (open_write q content).
Proof.
  intros Hq Hpar. split; [apply steady_open_write, Hq|].
  apply repeats_open_write; [exact Hq|].
  intros n v _ Hn Hv. rewrite Hpar, !is_dir_stat.
  unfold cmake_dir in Hn, Hv. rewrite Hn, Hv. reflexivity.
Qed.

(** Making the directory cmake, then a computation that writes into it. *)
Lemma good_after_mkdir (A : Type) (k : M A) :
  good_below_cmake k -> good (path_mkdir ["cmake"] ;; k).
Proof.
  intros [Sk Rk].
  assert (Sm : steady (path_mkdir ["cmake"])).
  { intros w r w' H. unfold path_mkdir in H.
    destruct (mkdir (fs w) ["cmake"]) as [n|e] eqn:E; injection H as <- <-.
    - apply mkdir_cmake_agree, E.
    - apply agree_refl. }
  split; [apply steady_bind; [exact Sm | intros _; exact Sk]|].
  intros w v r w' Hag _ _ H. unfold bind, path_mkdir in H |- *.
  destruct (mkdir (fs w) ["cmake"]) as [n|e] eqn:E.
  - destruct (@mkdir_cmake_parallel (fs w) (fs v) n Hag E) as [v' [Ev Hag']].
    rewrite Ev.
    destruct (@mkdir_cmake_frame (fs w) n E) as [_ [_ [_ [Hn _]]]].
    destruct (@mkdir_cmake_frame (fs v) v' Ev) as [_ [_ [_ [Hv _]]]].
    exact (Rk {| fs := n; stdout := stdout w; written := written w |}
              {| fs := v'; stdout := stdout v; written := written v |}
              r w' Hag' Hn Hv H).
  - injection H as <- <-.
    destruct (mkdir (fs v) ["cmake"]) as [v'|e'] eqn:Ev.
    + exfalso.
      destruct (@mkdir_cmake_frame (fs v) v' Ev) as [_ [_ [Hroot [_ [Hold _]]]]].
      rewrite (agree_is_dir Hag (p := [])) in Hroot by discriminate.
      assert (Hn : stat (fs w) ["cmake"] = None \/ stat (fs w) ["cmake"] = Some None).
      { destruct (agree_cmake Hag) as [C|[C _]]; [rewrite <- C; exact Hold | auto]. }
      destruct (@mkdir_cmake_succeeds (fs w) Hroot Hn) as [n Hmk]. congruence.
    + exists (Raise e'), v. split; [reflexivity|]. split; [exact I|].
      split; [exact Hag|]. exists [], []. rewrite !app_nil_r. auto.
Qed.

Lemma good_forM_ (A : Type) (l : list A) (body : A -> M unit) :
  (forall x, In x l -> good (body x)) -> good (forM_ l body).
Proof. intros H. apply (@repeats_forM_ (fun _ => True) (@ready_true_kept) A l body H). Qed.

Lemma good_below_cmake_forM_ (A : Type) (l : list A) (body : A -> M unit) :
  (forall x, In x l -> good_below_cmake (body x)) ->
  good_below_cmake (forM_ l body).
Proof. intros H. apply (@repeats_forM_ cmake_dir (@steady_keeps_cmake) A l body H). Qed.

Lemma good_foldM (A B : Type) (body : B -> A -> M B) (l : list A) :
  (forall b x, In x l -> good (body b x)) -> forall b, good (foldM body l b).
Proof.
  induction l as [|x l IH]; intros H b; cbn [foldM].
  - apply good_ret.
  - apply good_bind; [apply H; left; reflexivity|].
    intros b'. apply IH. intros b0 y Hy. apply H. right. exact Hy.
Qed.

Lemma reads_bind (A B : Type) (c : M A) (k : A -> M B) :
  reads c -> (forall a, reads (k a)) -> reads (bind c k).
Proof.
  intros Hc Hk w. unfold bind. specialize (Hc w).
  destruct (c w) as [[a|e] w1]; simpl in Hc; subst w1; [apply Hk | reflexivity].
Qed.

Lemma reads_platform_round (configs : dict platform_config) (x : string) :
  reads (platform_round configs x).
Proof.
  unfold platform_round. apply reads_bind; [intros w; reflexivity|].
  intros d. destruct d; cbn [negb]; [|intros w; reflexivity].
  apply reads_bind; [intros w; reflexivity|].
  intros e. destruct e; cbn [negb]; [|intros w; reflexivity].
  apply reads_bind; [|intros c w; reflexivity].
  unfold _parse_platform_detect.
  apply reads_bind; [intros w; reflexivity | intros a w; reflexivity].
Qed.

Lemma reads_module_round (modules : dict module_config) (x : string) :
  reads (module_round modules x).
Proof.
  unfold module_round. apply reads_bind; [intros w; reflexivity|].
  intros d. destruct d; cbn [negb]; [|intros w; reflexivity].
  apply reads_bind; [|intros c w; reflexivity].
  unfold _parse_module. apply reads_bind; [intros w; reflexivity|].
  intros e. destruct e; [|intros w; reflexivity].
  apply reads_bind; [intros w; reflexivity | intros a w; reflexivity].
Qed.

(** Rounds that stop at their first test can be left out. *)
Lemma foldM_skip (A B : Type) (body : B -> A -> M B) (keep : A -> bool)
      (w : world) :
  (forall b x, reads (body b x)) ->
  (forall b x, keep x = false -> fst (body b x w) = Ok b) ->
  forall l b, foldM body l b w = foldM body (filter keep l) b w.
Proof.
  intros Hr Hs. induction l as [|x l IH]; intros b; [reflexivity|].
  cbn [foldM filter]. pose proof (Hr b x w) as Hw.
  destruct (keep x) eqn:K.
  - cbn [foldM]. unfold bind.
    destruct (body b x w) as [[b'|e] w1]; simpl in Hw; subst w1;
      [apply IH | reflexivity].
  - unfold bind. pose proof (Hs b x K) as Hb.
    destruct (body b x w) as [r w1]; simpl in Hw, Hb; subst w1 r. apply IH.
Qed.

Lemma good_parse_sconstruct : good _parse_sconstruct.
Proof.
  unfold _parse_sconstruct. apply good_bind.
  - apply good_open_read. reflexivity.
  - intros content. apply good_ret.
Qed.

Lemma good_platform_round (configs : dict platform_config) (x : string) :
  good (platform_round configs x).
Proof.
  unfold platform_round. apply good_bind.
  { apply good_path_is_dir. discriminate. }
  intros d. destruct d; cbn [negb]; [|apply good_ret].
  apply good_bind.
  { apply good_path_exists. reflexivity. }
  intros e. destruct e; cbn [negb]; [|apply good_ret].
  apply good_bind; [|intros c; apply good_ret].
  unfold _parse_platform_detect. apply good_bind.
  - apply good_open_read. reflexivity.
  - intros content. apply good_ret.
Qed.

Lemma good_module_round (modules : dict module_config) (x : string) :
  good (module_round modules x).
Proof.
  unfold module_round. apply good_bind.
  { apply good_path_is_dir. discriminate. }
  intros d. destruct d; cbn [negb]; [|apply good_ret].
  apply good_bind; [|intros c; apply good_ret].
  unfold _parse_module. apply good_bind.
  { apply good_path_exists. reflexivity. }
  intros e. destruct e; [|apply good_ret].
  apply good_bind.
  - apply good_open_read. reflexivity.
  - intros content. apply good_ret.
Qed.

(** A loop over the names below [p] whose rounds start with the test
    [is_dir] runs alike on trees that agree. *)
Lemma good_dir_loop (B : Type) (p : path) (round : B -> string -> M B) (b : B) :
  p <> [] ->
  (forall b x, reads (round b x)) ->
  (forall b x, good (round b x)) ->
  (forall b x w, is_dir (fs w) (p ++ [x]) = false ->
                 fst (round b x w) = Ok b) ->
  good (names <- path_glob p ;; foldM round names b).
Proof.
  intros Hp Hreads Hgood Hskip. split.
  - intros w r w' H. unfold bind, path_glob in H.
    eapply (proj1 (good_foldM round _ (fun b0 x _ => Hgood b0 x) b)), H.
  - intros w v r w' Hag _ _ H. unfold bind, path_glob in H |- *.
    rewrite (foldM_skip round (fun x => is_dir (fs w) (p ++ [x])) w Hreads
               (fun b0 x => Hskip b0 x w)) in H.
    rewrite (foldM_skip round (fun x => is_dir (fs v) (p ++ [x])) v Hreads
               (fun b0 x => Hskip b0 x v)).
    change (filter (fun x => is_dir (fs w) (p ++ [x])) (path_glob_star (fs w) p))
      with (subdirs (fs w) p) in H.
    change (filter (fun x => is_dir (fs v) (p ++ [x])) (path_glob_star (fs v) p))
      with (subdirs (fs v) p).
    rewrite (agree_subdirs Hag Hp).
    exact (proj2 (good_foldM round _ (fun b0 x _ => Hgood b0 x) b)
                 w v r w' Hag I I H).
Qed.

Lemma good_parse_platform_configs : good _parse_platform_configs.
Proof.
  apply (good_dir_loop (p := ["platform"])).
  - discriminate.
  - apply reads_platform_round.
  - apply good_platform_round.
  - intros b x w Hd. unfold platform_round, bind, path_is_dir.
    cbn [app] in Hd. rewrite Hd. reflexivity.
Qed.

Lemma good_parse_modules : good _parse_modules.
Proof.
  apply (good_dir_loop (p := ["modules"])).
  - discriminate.
  - apply reads_module_round.
  - apply good_module_round.
  - intros b x w Hd. unfold module_round, bind, path_is_dir.
    cbn [app] in Hd. rewrite Hd. reflexivity.
Qed.

Lemma eqb_by_length (s t : string) :
  String.length s <> String.length t -> (s =? t)%string = false.
Proof.
  intros H. destruct (String.eqb_spec s t) as [->|]; [congruence | reflexivity].
Qed.

Lemma endswith_longer (suf tail : string) :
  endswith suf tail = false ->
  String.length suf <= String.length tail ->
  forall a, endswith suf (a +++ tail) = false.
Proof.
  intros Ht Hlen. induction a as [|c a IH]; [exact Ht|].
  cbn [String.append endswith]. rewrite IH, orb_false_r.
  apply eqb_by_length. simpl. rewrite StrFacts.length_append. lia.
Qed.

Lemma no_source_cmake (a : string) : no_source (a +++ ".cmake") = true.
Proof.
  unfold no_source, exts, fnmatch_star. cbn [forallb].
  rewrite !endswith_longer; try reflexivity; simpl; lia.
Qed.

Lemma target_platform_file (platform : string) :
  target ["cmake"; "platform_" +++ platform +++ ".cmake"].
Proof.
  split; [|split].
  - unfold generated. apply orb_true_r.
  - cbn [last].
    change ("platform_" +++ platform +++ ".cmake")
      with ("platform_" +++ (platform +++ ".cmake")).
    rewrite <- StrFacts.append_assoc. apply no_source_cmake.
  - discriminate.
Qed.

Lemma target_cmakelists (dir : path) :
  target (dir ++ ["CMakeLists.txt"]).
Proof.
  split; [|split].
  - unfold generated. rewrite last_last. reflexivity.
  - rewrite last_last. reflexivity.
  - destruct dir as [|x [|y dir]]; discriminate.
Qed.

Section Emitters.
Variable root_dir : string.

Lemma good_generate_root (options : dict opt) :
  good (_generate_root_cmakelists options).
Proof.
  apply good_open_write; [apply (target_cmakelists []) | discriminate].
Qed.

Lemma good_generate_platform (configs : dict platform_config) :
  good (_generate_platform_cmake_files configs).
Proof.
  unfold _generate_platform_cmake_files. apply good_after_mkdir.
  apply good_below_cmake_forM_. intros [platform config] _.
  apply good_below_cmake_open_write; [apply target_platform_file | reflexivity].
Qed.

Lemma good_warn (A : Type) (l : list A) (line : string) :
  good (if some l then ret tt else print line).
Proof. destruct (some l); [apply good_ret | apply good_print]. Qed.

Lemma good_core_round (lib : string) :
  generated [lib] = false -> good (core_round root_dir lib).
Proof.
  intros Hlib. unfold core_round. apply good_bind.
  { apply good_path_exists, Hlib. }
  intros e. destruct e; cbn [negb]; [|apply good_ret].
  apply good_bind.
  { unfold core_sources. apply good_foldM. intros sources ext Hin.
    apply good_bind; [apply good_glob; [discriminate | exact Hin]|].
    intros files. apply good_ret. }
  intros sources. apply good_bind; [apply good_warn|].
  intros _. apply good_open_write; [apply (target_cmakelists [lib])|].
  cbn [removelast]. intros E. injection E as ->. discriminate Hlib.
Qed.

Lemma good_generate_core : good (_generate_core_cmake_files root_dir).
Proof.
  unfold _generate_core_cmake_files. apply good_forM_. intros lib Hin.
  apply good_core_round. unfold core_libs in Hin. simpl in Hin.
  destruct Hin as [<-|[<-|[<-|[<-|[<-|[<-|[]]]]]]]; reflexivity.
Qed.

Lemma good_module_file_round (entry : string * module_config) :
  good (module_file_round root_dir entry).
Proof.
  destruct entry as [module config]. unfold module_file_round.
  apply good_bind.
  { unfold module_sources. apply good_foldM. intros sources ext Hin.
    apply good_bind; [apply good_glob; [discriminate | exact Hin]|].
    intros files. apply good_foldM. intros sources' file _.
    apply good_bind; [apply good_print | intros _; apply good_ret]. }
  intros sources. apply good_bind; [apply good_warn|].
  intros _.
  apply good_open_write;
    [apply (target_cmakelists ["modules"; module]) | discriminate].
Qed.

Lemma good_generate_modules (modules : dict module_config) :
  good (_generate_module_cmake_files root_dir modules).
Proof.
  unfold _generate_module_cmake_files. apply good_bind.
  - apply good_open_write; [apply (target_cmakelists ["modules"]) | discriminate].
  - intros _. apply good_forM_. intros entry _. apply good_module_file_round.
Qed.

Lemma good_convert : good (convert root_dir).
Proof.
  unfold convert.
  apply good_bind; [apply good_print|]. intros _.
  apply good_bind; [apply good_parse_sconstruct|]. intros options.
  apply good_bind; [apply good_parse_platform_configs|]. intros configs.
  apply good_bind; [apply good_parse_modules|]. intros modules.
  apply good_bind; [apply good_generate_root|]. intros _.
  apply good_bind; [apply good_generate_platform|]. intros _.
  apply good_bind; [apply good_generate_core|]. intros _.
  apply good_generate_modules.
Qed.

End Emitters.

(** A good computation, run from two worlds with nothing printed or
    written yet whose trees agree. *)
Lemma good_from_fresh (A : Type) (c : M A) (n n' : node) :
  good c -> agree n n' ->
  same_outcome (fst (c (fresh n))) (fst (c (fresh n'))) /\
  stdout (snd (c (fresh n'))) = stdout (snd (c (fresh n))) /\
  written (snd (c (fresh n'))) = written (snd (c (fresh n))).
Proof.
  intros [_ Hr] Hag.
  destruct (c (fresh n)) as [r w'] eqn:E.
  destruct (Hr (fresh n) (fresh n') r w' Hag I I E)
    as [r' [v' [Ev [Hsame [_ [out [wr [Ho [Ho' [Hw Hw']]]]]]]]]].
  rewrite Ev. cbn [fst snd fresh stdout written] in *.
  split; [exact Hsame|]. split; congruence.
Qed.

(** C9. A second run of the whole pipeline, on the tree the first run
    left, ends as the first did (it returns, or it raises where the first
    raised), prints the same lines and writes the same files with the same
    text in the same order; and on the tree the first run left each
    collector ends as on the tree it found and returns the same options,
    platforms and modules. *)
Theorem convert_twice_same_output (root_dir : string) (n : node) :
  let first := convert root_dir (fresh n) in
  let second := convert root_dir (fresh (fs (snd first))) in
  same_outcome (fst first) (fst second) /\
  written (snd second) = written (snd first) /\
  stdout (snd second) = stdout (snd first) /\
  same_outcome (fst (_parse_sconstruct (fresh n)))
               (fst (_parse_sconstruct (fresh (fs (snd first))))) /\
  same_outcome (fst (_parse_platform_configs (fresh n)))
               (fst (_parse_platform_configs (fresh (fs (snd first))))) /\
  same_outcome (fst (_parse_modules (fresh n)))
               (fst (_parse_modules (fresh (fs (snd first))))).
Proof.
  intros first second.
  assert (Hag : agree n (fs (snd first))).
  { subst first. destruct (convert root_dir (fresh n)) as [r w1] eqn:E.
    exact (proj1 (good_convert root_dir) _ _ _ E). }
  destruct (good_from_fresh (good_convert root_dir) Hag) as [H1 [H2 H3]].
  split; [exact H1|]. split; [exact H3|]. split; [exact H2|].
  split; [apply (good_from_fresh good_parse_sconstruct Hag)|].
  split; [apply (good_from_fresh good_parse_platform_configs Hag)|].
  apply (good_from_fresh good_parse_modules Hag).
Qed.

(** On the sample project the two runs return and write the same seven
    files. *)
Example convert_twice_on_sample :
  fst (convert "proj" (fresh sample_tree)) = Ok tt /\
  fst (convert "proj" (fresh (fs first_run))) = Ok tt /\
  written (snd (convert "proj" (fresh (fs first_run)))) = written first_run /\
  length (written first_run) = 7.
Proof.
  split; [vm_compute; reflexivity|].
  split; [vm_compute; reflexivity|].
  split; vm_compute; reflexivity.
Qed.

End Twice.

(** ** The collectors *)

Module Collectors.
Import DictFacts Collect.

(** C10. Every platform configuration and every module configuration the
    collectors return has no defines and no include paths, and the content
    the platform emitter writes for a collected platform has no line that
    opens a compile-definitions block. *)
Theorem collected_defines_and_includes_empty
        (w w1 w2 : world) (configs : dict platform_config)
        (modules : dict module_config) :
  _parse_platform_configs w = (Ok configs, w1) ->
  _parse_modules w = (Ok modules, w2) ->
  Forall (fun entry =>
            p_defines (snd entry) = [] /\ p_includes (snd entry) = [] /\
            ~ In "add_compile_definitions("%string
                 (platform_content (fst entry) (snd entry)))
         configs /\
  Forall (fun entry =>
            m_defines (snd entry) = [] /\ m_includes (snd entry) = [])
         modules.
Proof.
  intros Hp Hm. split; apply Forall_forall; intros [x c] Hin; cbn [fst snd].
  - pose proof (parse_platform_configs_spec w) as S. rewrite Hp in S.
    destruct S as [_ S]. destruct (S x c Hin) as [_ [_ [Hde Hinc]]].
    split; [exact Hde|]. split; [exact Hinc|].
    intros Hblock.
    apply PlatformEmitter.opener_origin in Hblock;
      try reflexivity; try discriminate.
    destruct Hblock as [[H _]|[[_ H]|[H _]]]; [discriminate H | | discriminate H].
    apply H, Hde.
  - pose proof (parse_modules_spec w) as S. rewrite Hm in S.
    destruct S as [_ [S _]]. destruct (S x c Hin) as [_ [Hde [Hinc _]]]. auto.
Qed.

Lemma collected_defines_and_includes_empty_witness :
  Forall (fun entry =>
            p_defines (snd entry) = [] /\ p_includes (snd entry) = [] /\
            ~ In "add_compile_definitions("%string
                 (platform_content (fst entry) (snd entry)))
         [("linuxbsd"%string,
           {| p_name := "linuxbsd"; p_defines := []; p_libs := ["GL"; "X11"]%string;
              p_includes := []; p_flags := [] |})] /\
  Forall (fun entry =>
            m_defines (snd entry) = [] /\ m_includes (snd entry) = [])
         [("mymodule"%string,
           {| m_name := "mymodule"; m_sources := ["*.cpp"%string];
              m_deps := ["core"%string]; m_defines := []; m_includes := [] |});
          ("bare"%string, empty_module "bare")].
Proof.
  apply (@collected_defines_and_includes_empty
           (fresh sample_tree) (fresh sample_tree) (fresh sample_tree));
    vm_compute; reflexivity.
Defined.

End Collectors.

(** ** Source discovery *)

Module Discovery.
Import DictFacts Collect Frame Twice.

Lemma glob_rec_dir (suffix : string) (es : list (string * node)) :
  glob_rec suffix (Dir es) =
  map (fun x => [x])
      (filter (fun x => negb (ishidden x) && fnmatch_star suffix x)
              (map fst es))
  ++ flat_map (below suffix) es.
Proof. reflexivity. Qed.

Lemma permutation_filter (A : Type) (f : A -> bool) (l l' : list A) :
  Permutation l l' -> Permutation (filter f l) (filter f l').
Proof.
  induction 1 as [|x l l' _ IH|x y l|l1 l2 l3 _ IH1 _ IH2]; simpl.
  - constructor.
  - destruct (f x); [constructor|]; exact IH.
  - destruct (f x), (f y); try apply Permutation_refl. constructor.
  - eapply perm_trans; eassumption.
Qed.

(** Shuffled trees hold the same sources: the glob of one is the glob of
    the other in another order. *)
Lemma shuffle_glob (n n' : node) :
  shuffle n n' ->
  is_dir_node n = is_dir_node n' /\
  forall suffix, Permutation (glob_rec suffix n) (glob_rec suffix n').
Proof.
  apply (shuffle_mut
           (fun n n' => is_dir_node n = is_dir_node n' /\
                        forall suffix,
                          Permutation (glob_rec suffix n) (glob_rec suffix n'))
           (fun es es' => Permutation (map fst es) (map fst es') /\
                          forall suffix,
                            Permutation (flat_map (below suffix) es)
                                        (flat_map (below suffix) es'))).
  - intros content. split; [reflexivity | intros; apply Permutation_refl].
  - intros es es' _ [Hn Hb]. split; [reflexivity|].
    intros suffix. rewrite !glob_rec_dir. apply Permutation_app.
    + apply Permutation_map, permutation_filter, Hn.
    + apply Hb.
  - split; [constructor | intros; constructor].
  - intros x c c' es es' _ [Hk Hg] _ [Hn Hb]. split.
    + simpl. constructor. exact Hn.
    + intros suffix. cbn [flat_map]. apply Permutation_app; [|apply Hb].
      unfold below. rewrite Hk.
      destruct (is_dir_node c' && negb (ishidden x));
        [apply Permutation_map, Hg | constructor].
  - intros a b es. split.
    + simpl. constructor.
    + intros suffix. cbn [flat_map]. rewrite !app_assoc.
      apply Permutation_app_tail, Permutation_app_comm.
  - intros es1 es2 es3 _ [Hn1 Hb1] _ [Hn2 Hb2]. split.
    + eapply perm_trans; eassumption.
    + intros suffix. eapply perm_trans; [apply Hb1 | apply Hb2].
Qed.

Lemma permutation_flat_map (A B : Type) (f g : A -> list B) (l : list A) :
  (forall x, Permutation (f x) (g x)) ->
  Permutation (flat_map f l) (flat_map g l).
Proof.
  intros H. induction l as [|x l IH]; simpl; [constructor|].
  apply Permutation_app; [apply H | exact IH].
Qed.

(** The library emitter lists [source_lines] of the library's directory. *)
Lemma core_sources_lines (lib : string) (w : world) :
  core_sources lib w =
  (Ok (match walk (fs w) [lib] with
       | Ok d => source_lines d
       | Raise _ => []
       end), w).
Proof.
  unfold core_sources, exts, source_lines, glob, glob_at.
  cbn [foldM flat_map]. unfold bind, ret.
  destruct (walk (fs w) [lib]) as [d|e]; cbn [map app].
  - unfold exts. cbn [flat_map]. rewrite app_nil_r, <- !app_assoc. reflexivity.
  - reflexivity.
Qed.

Lemma report_fold (module : string) (files : list path) (sources : list string)
      (w : world) :
  foldM (fun sources file =>
           print ("Found source file for module " +++ module
                  +++ ": " +++ rel_path file) ;;
           ret (sources ++ [indent4 (rel_path file)]))
        files sources w
  = (Ok (sources ++ map (fun file => indent4 (rel_path file)) files),
     {| fs := fs w;
        stdout := stdout w
                  ++ map (fun file => "Found source file for module " +++ module
                                      +++ ": " +++ rel_path file) files;
        written := written w |}).
Proof.
  revert sources w. induction files as [|file files IH]; intros sources w.
  - cbn [foldM map]. unfold ret. rewrite !app_nil_r. destruct w; reflexivity.
  - cbn [foldM map]. unfold bind at 1. unfold bind at 1. cbn [print ret].
    rewrite IH. cbn [fs stdout written]. rewrite <- !app_assoc. reflexivity.
Qed.

Lemma module_sources_fold (module : string) (l : list string)
      (sources : list string) (w : world) :
  exists w',
    foldM (fun sources ext =>
             files <- glob ["modules"; module] ext ;;
             foldM (fun sources file =>
                      print ("Found source file for module " +++ module
                             +++ ": " +++ rel_path file) ;;
                      ret (sources ++ [indent4 (rel_path file)]))
                   files sources)
          l sources w
    = (Ok (sources
           ++ flat_map (fun suffix =>
                          map (fun file => indent4 (rel_path file))
                              (glob_at (fs w) ["modules"; module] suffix))
                       l), w') /\
    fs w' = fs w.
Proof.
  revert sources w. induction l as [|ext l IH]; intros sources w.
  - exists w. cbn [foldM flat_map]. unfold ret. rewrite app_nil_r. auto.
  - cbn [foldM flat_map]. unfold bind at 1. unfold bind at 1.
    cbn [glob]. rewrite report_fold.
    match goal with
    | |- context [foldM ?body l ?b ?w1] =>
        destruct (IH b w1) as [w' [E Hfs]]
    end.
    exists w'. rewrite E. cbn [fs] in *. rewrite <- app_assoc. auto.
Qed.

(** The module emitter lists [source_lines] of the module's directory. *)
Lemma module_sources_lines (module : string) (w : world) :
  fst (module_sources module w) =
  Ok (match walk (fs w) ["modules"; module] with
      | Ok d => source_lines d
      | Raise _ => []
      end).
Proof.
  unfold module_sources.
  destruct (module_sources_fold module exts [] w) as [w' [E _]]. rewrite E.
  unfold glob_at, source_lines. cbn [app fst].
  destruct (walk (fs w) ["modules"%string; module]) as [d|e]; reflexivity.
Qed.

(** The source lines of a directory listed in another order, at any
    depth, are a permutation of its source lines. *)
Lemma shuffled_sources_permuted (d d' : node) :
  shuffle d d' -> Permutation (source_lines d) (source_lines d').
Proof.
  intros H. destruct (shuffle_glob H) as [_ Hg].
  unfold source_lines. apply permutation_flat_map. intros suffix.
  apply Permutation_map, Hg.
Qed.

Lemma shuffle_lib : shuffle lib_ba lib_ab.
Proof. apply shuffle_dir, shuffle_swap. Qed.

End Discovery.

(** ** Missing inputs *)

Module Failures.
Import DictFacts Collect Frame Twice.

Lemma bind_ok (A B : Type) (c : M A) (k : A -> M B) (w : world) (b : B)
      (w' : world) :
  bind c k w = (Ok b, w') ->
  exists a w1, c w = (Ok a, w1) /\ k a w1 = (Ok b, w').
Proof.
  unfold bind. destruct (c w) as [[a|e] w1]; [|discriminate].
  intros H. exists a, w1. auto.
Qed.

(** Without the options file the run stops before anything is written. *)
Lemma missing_sconstruct_aborts (argv0 root_dir : string) (w : world) :
  is_dir (fs w) [] = true ->
  (forall content, read (fs w) ["SConstruct"] <> Ok content) ->
  exit_status [argv0; root_dir] w
  = (1, {| fs := fs w;
           stdout := stdout w ++ ["Converting SCons to CMake..."%string];
           written := written w |}).
Proof.
  intros Hroot Hread.
  unfold exit_status, main, bind, path_is_dir. rewrite Hroot. cbn [negb].
  unfold convert, bind, print, _parse_sconstruct, bind, open_read. cbn [fs].
  destruct (read (fs w) ["SConstruct"%string]) as [content|e] eqn:E.
  - exfalso. apply (Hread content). reflexivity.
  - reflexivity.
Qed.

(** Without a platforms root, or a modules root, the collector returns the
    empty mapping. *)
Lemma missing_roots_collect_nothing (w : world) :
  (is_dir (fs w) ["platform"] = false ->
   _parse_platform_configs w = (Ok [], w)) /\
  (is_dir (fs w) ["modules"] = false -> _parse_modules w = (Ok [], w)).
Proof.
  unfold _parse_platform_configs, _parse_modules, bind, path_glob,
    path_glob_star, is_dir.
  split; intros H.
  - destruct (walk (fs w) ["platform"%string]) as [[a|es]|e];
      [reflexivity | discriminate | reflexivity].
  - destruct (walk (fs w) ["modules"%string]) as [[a|es]|e];
      [reflexivity | discriminate | reflexivity].
Qed.

(** A run that returns had a modules directory to write into. *)
Lemma convert_needs_modules (root_dir : string) (w w' : world) :
  convert root_dir w = (Ok tt, w') -> is_dir (fs w) ["modules"] = true.
Proof.
  unfold convert. intros H.
  apply bind_ok in H. destruct H as [u0 [w0 [H0 H]]].
  apply bind_ok in H. destruct H as [options [w1 [H1 H]]].
  apply bind_ok in H. destruct H as [configs [w2 [H2 H]]].
  apply bind_ok in H. destruct H as [modules [w3 [H3 H]]].
  apply bind_ok in H. destruct H as [u4 [w4 [H4 H]]].
  apply bind_ok in H. destruct H as [u5 [w5 [H5 H]]].
  apply bind_ok in H. destruct H as [u6 [w6 [H6 H]]].
  unfold _generate_module_cmake_files in H.
  apply bind_ok in H. destruct H as [u7 [w7 [H7 _]]].
  unfold open_write in H7.
  destruct (write (fs w6) ["modules"; "CMakeLists.txt"]%string
                  (join nl (modules_content modules))) as [n|e] eqn:E;
    [|discriminate].
  destruct (@write_needs _ _ _ _ E) as [_ [Hdir _]]. cbn [removelast] in Hdir.
  pose proof (proj1 (good_print _) _ _ _ H0) as A0.
  pose proof (proj1 good_parse_sconstruct _ _ _ H1) as A1.
  pose proof (proj1 good_parse_platform_configs _ _ _ H2) as A2.
  pose proof (proj1 good_parse_modules _ _ _ H3) as A3.
  pose proof (proj1 (good_generate_root _) _ _ _ H4) as A4.
  pose proof (proj1 (good_generate_platform _) _ _ _ H5) as A5.
  pose proof (proj1 (good_generate_core root_dir) _ _ _ H6) as A6.
  pose proof (agree_trans A0 (agree_trans A1 (agree_trans A2 (agree_trans A3
                (agree_trans A4 (agree_trans A5 A6)))))) as A.
  rewrite <- (agree_is_dir A (p := ["modules"%string])); [exact Hdir|].
  discriminate.
Qed.

(** On every tree without a modules directory the process ends with
    status 1. *)
Lemma exit_status_without_modules (argv0 root_dir : string) (w : world) :
  is_dir (fs w) ["modules"] = false ->
  fst (exit_status [argv0; root_dir] w) = 1.
Proof.
  intros Hno. unfold exit_status, main, bind, path_is_dir.
  destruct (is_dir (fs w) []); cbn [negb]; [|reflexivity].
  destruct (convert (pathlib_str root_dir) w) as [[[]|e] w'] eqn:E;
    [|reflexivity].
  apply convert_needs_modules in E. congruence.
Qed.

(** C3. On a project that has its options file and no modules directory
    (and no platforms directory), both collectors return the empty mapping
    and leave the world as it is, and the run then ends with an exception
    nobody catches, exit status 1, after it has written the root file; on
    a project without its options file the run ends
    with status 1 and writes nothing. *)
Theorem missing_modules_root_aborts :
  _parse_platform_configs (fresh no_modules_tree)
  = (Ok [], fresh no_modules_tree) /\
  _parse_modules (fresh no_modules_tree) = (Ok [], fresh no_modules_tree) /\
  fst (convert "proj" (fresh no_modules_tree)) = Raise FileNotFoundError /\
  fst (exit_status argv (fresh no_modules_tree)) = 1 /\
  map fst (written (snd (exit_status argv (fresh no_modules_tree))))
  = [["CMakeLists.txt"%string]] /\
  exit_status argv (fresh no_sconstruct_tree)
  = (1, {| fs := no_sconstruct_tree;
           stdout := ["Converting SCons to CMake..."%string];
           written := [] |}).
Proof.
  split; [vm_compute; reflexivity|].
  split; [vm_compute; reflexivity|].
  split; [vm_compute; reflexivity|].
  split; [vm_compute; reflexivity|].
  split; vm_compute; reflexivity.
Qed.

End Failures.

(** ** The list extractor, line by line *)

Module MoreExtractors.
Import StrFacts ReFacts ListPattern OptionPattern Soundness.

(** The list extractor through the one-pass description of its spans. *)
Lemma items_by_spans (text : string) :
  _extract_list_items text = flat_map list_items (bracket_spans None text).
Proof.
  unfold _extract_list_items, finditer.
  rewrite (flat_map_through_map list_items (fun m => group m 1)).
  rewrite scan_list by lia. reflexivity.
Qed.

Lemma split_cons (sep : ascii) (s : string) :
  exists w ws, split sep s = w :: ws.
Proof.
  destruct (split sep s) as [|w ws] eqn:E; [|eauto].
  exfalso. revert E. apply Extractors.split_not_nil.
Qed.

(** The spans of a text are the spans of its lines, one line after the
    other. *)
Lemma spans_by_line (s : string) :
  forall inside,
    bracket_spans inside s =
    match split newline s with
    | w :: ws => bracket_spans inside w ++ flat_map (bracket_spans None) ws
    | [] => []
    end.
Proof.
  induction s as [|c s IH]; intros inside; [reflexivity|].
  cbn [split]. destruct (Ascii.eqb_spec c newline) as [->|Hc].
  - assert (H : bracket_spans inside (String newline s) = bracket_spans None s).
    { destruct inside; reflexivity. }
    rewrite H, (IH None).
    destruct (split_cons newline s) as [w [ws ->]].
    cbn [bracket_spans app flat_map]. reflexivity.
  - destruct (split_cons newline s) as [w [ws E]]. rewrite E.
    cbn [bracket_spans]. apply Ascii.eqb_neq in Hc.
    destruct inside as [u|].
    + rewrite Hc. destruct (c =? "]")%char.
      * rewrite (IH None), E. reflexivity.
      * rewrite (IH (Some (u +++ chr c))), E. reflexivity.
    + destruct (c =? "[")%char.
      * rewrite (IH (Some EmptyString)), E. reflexivity.
      * rewrite (IH None), E. reflexivity.
Qed.

Lemma flat_map_flat_map (A B C : Type) (f : A -> list B) (g : B -> list C)
      (l : list A) :
  flat_map g (flat_map f l) = flat_map (fun x => flat_map g (f x)) l.
Proof.
  induction l as [|x l IH]; simpl; [reflexivity|].
  rewrite flat_map_app, IH. reflexivity.
Qed.

Lemma items_by_line (content : string) :
  _extract_list_items content =
  flat_map _extract_list_items (split newline content).
Proof.
  rewrite items_by_spans, (spans_by_line content None).
  destruct (split_cons newline content) as [w [ws ->]].
  cbn [flat_map]. rewrite flat_map_app, flat_map_flat_map, items_by_spans.
  f_equal. apply flat_map_ext. intros line. symmetry. apply items_by_spans.
Qed.

(** X4. The list extractor works line by line: what it returns for a text
    is what it returns for the first line, then for the second, and so on,
    because no span runs over a line end. *)
Theorem extract_list_items_line_by_line (content : string) :
  _extract_list_items content =
  flat_map _extract_list_items (split newline content).
Proof. apply items_by_line. Qed.

(** ** What an extracted element can hold *)

Lemma eqb_flip (a b : ascii) : (a =? b)%char = false -> (b =? a)%char = false.
Proof. rewrite Ascii.eqb_sym. exact (fun H => H). Qed.

Lemma split_pieces (sep c : ascii) (s : string) :
  forall w, In w (split sep s) ->
    mem_char sep w = false /\ (mem_char c w = true -> mem_char c s = true).
Proof.
  induction s as [|a s IH]; intros w Hin.
  - destruct Hin as [<-|[]]. split; [reflexivity|discriminate].
  - cbn [split] in Hin. destruct (a =? sep)%char eqn:E.
    + destruct Hin as [<-|Hin]; [split; [reflexivity|discriminate]|].
      destruct (IH w Hin) as [H1 H2]. split; [exact H1|].
      intros H. cbn [mem_char]. rewrite (H2 H). apply orb_true_r.
    + destruct (split sep s) as [|w0 ws0] eqn:Es.
      * exfalso. revert Es. apply Extractors.split_not_nil.
      * destruct Hin as [<-|Hin].
        -- destruct (IH w0 (or_introl eq_refl)) as [H1 H2].
           cbn [mem_char]. rewrite (eqb_flip _ _ E), H1. split; [reflexivity|].
           destruct (c =? a)%char; [reflexivity|exact H2].
        -- destruct (IH w (or_intror Hin)) as [H1 H2]. split; [exact H1|].
           intros H. cbn [mem_char]. rewrite (H2 H). apply orb_true_r.
Qed.

Lemma lstrip_chars (p : ascii -> bool) (c : ascii) (s : string) :
  mem_char c (lstrip p s) = true -> mem_char c s = true.
Proof.
  induction s as [|a s IH]; [exact (fun H => H)|].
  cbn [lstrip]. destruct (p a); [|exact (fun H => H)].
  intros H. cbn [mem_char]. rewrite (IH H). apply orb_true_r.
Qed.

Lemma rstrip_chars (p : ascii -> bool) (c : ascii) (s : string) :
  mem_char c (rstrip p s) = true -> mem_char c s = true.
Proof.
  induction s as [|a s IH]; [exact (fun H => H)|].
  cbn [rstrip]. destruct (rstrip p s) as [|d r].
  - destruct (p a); [discriminate|].
    cbn [chr mem_char]. rewrite orb_false_r. intros ->. reflexivity.
  - cbn [mem_char] in *. intros H. apply orb_true_iff in H.
    destruct H as [->|H]; [reflexivity|]. rewrite (IH H). apply orb_true_r.
Qed.

Lemma strip_chars (p : ascii -> bool) (c : ascii) (s : string) :
  mem_char c (strip p s) = true -> mem_char c s = true.
Proof. intros H. apply (lstrip_chars p), (rstrip_chars p). exact H. Qed.

Lemma lstrip_head (p : ascii -> bool) (s : string) :
  match lstrip p s with
  | String c _ => p c = false
  | EmptyString => True
  end.
Proof.
  induction s as [|a s IH]; [exact I|].
  cbn [lstrip]. destruct (p a) eqn:E; [exact IH|exact E].
Qed.

Lemma rstrip_twice (p : ascii -> bool) (s : string) :
  rstrip p (rstrip p s) = rstrip p s.
Proof.
  induction s as [|a s IH]; [reflexivity|].
  cbn [rstrip]. destruct (rstrip p s) as [|d r] eqn:E.
  - destruct (p a) eqn:Ea; [reflexivity|].
    cbn [chr rstrip]. rewrite Ea. reflexivity.
  - change (rstrip p (String a (String d r))) with
      (match rstrip p (String d r) with
       | EmptyString => if p a then EmptyString else chr a
       | String x y => String a (String x y)
       end).
    rewrite IH. reflexivity.
Qed.

Lemma rstrip_keeps_head (p : ascii -> bool) (c : ascii) (s : string) :
  p c = false -> exists r, rstrip p (String c s) = String c r.
Proof.
  intros Hc. cbn [rstrip]. destruct (rstrip p s) as [|d r].
  - rewrite Hc. exists EmptyString. reflexivity.
  - exists (String d r). reflexivity.
Qed.

(** Trimming a trimmed text changes nothing. *)
Lemma strip_twice (p : ascii -> bool) (s : string) :
  strip p (strip p s) = strip p s.
Proof.
  unfold strip. pose proof (lstrip_head p s) as Hh.
  destruct (lstrip p s) as [|c t]; [reflexivity|].
  destruct (rstrip_keeps_head p c t Hh) as [r Er].
  rewrite Er. cbn [lstrip]. rewrite Hh, <- Er. apply rstrip_twice.
Qed.

Lemma spans_chars (s : string) :
  forall inside w,
    (forall u, inside = Some u ->
               mem_char "]" u = false /\ mem_char newline u = false) ->
    In w (bracket_spans inside s) ->
    mem_char "]" w = false /\ mem_char newline w = false.
Proof.
  induction s as [|c s IH]; intros inside w Hin Hw; [destruct Hw|].
  cbn [bracket_spans] in Hw. destruct inside as [u|].
  - destruct (Hin u eq_refl) as [H1 H2].
    destruct (c =? "]")%char eqn:E1.
    + destruct Hw as [<-|Hw]; [split; assumption|].
      apply (IH None w); [discriminate|exact Hw].
    + destruct (c =? newline)%char eqn:E2.
      * apply (IH None w); [discriminate|exact Hw].
      * apply (IH (Some (u +++ chr c)) w); [|exact Hw].
        intros u' Hu. injection Hu as <-.
        rewrite !OptionPattern.mem_char_app, H1, H2. cbn [chr mem_char].
        rewrite (eqb_flip _ _ E1), (eqb_flip _ _ E2). split; reflexivity.
  - destruct (c =? "[")%char.
    + apply (IH (Some EmptyString) w); [|exact Hw].
      intros u' Hu. injection Hu as <-. split; reflexivity.
    + apply (IH None w); [discriminate|exact Hw].
Qed.

Lemma in_list_items (item span : string) :
  In item (list_items span) ->
  exists piece, In piece (split "," span) /\ item = strip quote_chars piece.
Proof.
  unfold list_items. intros H. apply in_map_iff in H.
  destruct H as [piece [<- H]]. apply filter_In in H.
  exists piece. split; [apply H|reflexivity].
Qed.

Lemma absent_char (c : ascii) (w s : string) :
  (mem_char c w = true -> mem_char c s = true) ->
  mem_char c s = false -> mem_char c w = false.
Proof.
  intros H Hs. destruct (mem_char c w); [|reflexivity].
  rewrite (H eq_refl) in Hs. discriminate.
Qed.

(** X5. An element the list extractor returns holds no comma, no closing
    bracket and no line end, and it neither starts nor ends with a space or
    a quote character: trimming it again gives the element itself. *)
Theorem extracted_items_are_trimmed_pieces (text item : string) :
  In item (_extract_list_items text) ->
  mem_char "," item = false /\
  mem_char "]" item = false /\
  mem_char newline item = false /\
  strip quote_chars item = item.
Proof.
  rewrite items_by_spans. intros H. apply in_flat_map in H.
  destruct H as [span [Hspan Hitem]].
  destruct (@spans_chars text None span) as [Hb Hn];
    [discriminate|exact Hspan|].
  destruct (in_list_items _ _ Hitem) as [piece [Hpiece ->]].
  destruct (@split_pieces "," "]" span piece Hpiece) as [Hcomma Hb'].
  destruct (@split_pieces "," newline span piece Hpiece) as [_ Hn'].
  split; [|split; [|split]].
  - apply (@absent_char _ _ piece); [apply strip_chars|exact Hcomma].
  - apply (@absent_char _ _ piece); [apply strip_chars|].
    apply (@absent_char _ _ span); [exact Hb'|exact Hb].
  - apply (@absent_char _ _ piece); [apply strip_chars|].
    apply (@absent_char _ _ span); [exact Hn'|exact Hn].
  - apply strip_twice.
Qed.

Lemma extracted_items_are_trimmed_pieces_witness :
  In "GL"%string (_extract_list_items ("return [" +++ q +++ "GL" +++ q +++ ", X11]")) /\
  mem_char "," "GL" = false /\
  mem_char "]" "GL" = false /\
  mem_char newline "GL" = false /\
  strip quote_chars "GL" = "GL"%string.
Proof.
  assert (H : In "GL"%string
                 (_extract_list_items ("return [" +++ q +++ "GL" +++ q +++ ", X11]"))).
  { vm_compute. left. reflexivity. }
  split; [exact H|].
  exact (@extracted_items_are_trimmed_pieces _ _ H).
Defined.

End MoreExtractors.

(** ** What the option and function patterns capture *)

Module MatchRuns.
Import StrFacts ReFacts ListPattern OptionPattern Soundness.

Lemma consumed_append (w s : string) : consumed (w +++ s) s = w.
Proof.
  induction w as [|c w IH]; cbn [String.append].
  - apply consumed_same.
  - rewrite consumed_cons, IH; [reflexivity|].
    rewrite length_append. lia.
Qed.

Lemma strip_prefix_spec (pre s s' : string) :
  strip_prefix pre s = Some s' -> s = pre +++ s'.
Proof.
  revert s. induction pre as [|a pre IH]; intros s H.
  - injection H as ->. reflexivity.
  - destruct s as [|b s]; [discriminate|]. cbn [strip_prefix] in H.
    destruct (Ascii.eqb_spec b a) as [->|]; [|discriminate].
    cbn [String.append]. rewrite (IH _ H). reflexivity.
Qed.

Lemma strip_prefix_startswith (pre s : string) :
  startswith pre s =
  match strip_prefix pre s with Some _ => true | None => false end.
Proof.
  revert s. induction pre as [|a pre IH]; intros s; [reflexivity|].
  destruct s as [|b s]; [reflexivity|]. cbn [startswith strip_prefix].
  rewrite Ascii.eqb_sym. destruct (b =? a)%char; [apply IH|reflexivity].
Qed.

Lemma startswith_append (pre a b : string) :
  startswith pre a = true -> startswith pre (a +++ b) = true.
Proof.
  revert a. induction pre as [|c pre IH]; intros a H; [reflexivity|].
  destruct a as [|d a]; [discriminate|]. cbn [startswith String.append] in *.
  apply andb_true_iff in H. destruct H as [-> H]. apply (IH _ H).
Qed.

Section Continuations.
Variable R : Type.

(** A run of [n] characters of the class. *)
Lemma at_least_run (n : nat) (p : ascii -> bool) :
  forall (s : string) (k : string -> option R) (x : R),
    at_least n p s k = Some x ->
    exists w s1, s = w +++ s1 /\ String.length w = n /\
                 (forall c, mem_char c w = true -> p c = true) /\
                 k s1 = Some x.
Proof.
  induction n as [|n IH]; intros s k x H.
  - exists EmptyString, s. repeat split; [discriminate|exact H].
  - cbn [at_least] in H. destruct s as [|c s]; [discriminate|].
    destruct (p c) eqn:Ec; [|discriminate].
    destruct (IH _ _ _ H) as [w [s1 [-> [Hl [Hp Hk]]]]].
    exists (String c w), s1. split; [reflexivity|]. split; [simpl; lia|].
    split; [|exact Hk].
    intros d Hd. cbn [mem_char] in Hd. apply orb_true_iff in Hd.
    destruct Hd as [Hd|Hd]; [|exact (Hp d Hd)].
    apply Ascii.eqb_eq in Hd. subst d. exact Ec.
Qed.

Lemma star_greedy_run (p : ascii -> bool) (s : string)
      (k : string -> option R) (x : R) :
  star_greedy p s k = Some x ->
  exists w s1, s = w +++ s1 /\
               (forall c, mem_char c w = true -> p c = true) /\
               k s1 = Some x.
Proof.
  induction s as [|c s IH]; cbn [star_greedy]; intros H.
  - exists EmptyString, EmptyString. repeat split; [discriminate|exact H].
  - assert (Hstay : k (String c s) = Some x ->
                    exists w s1, String c s = w +++ s1 /\
                                 (forall d, mem_char d w = true -> p d = true) /\
                                 k s1 = Some x).
    { intros Hk. exists EmptyString, (String c s).
      repeat split; [discriminate|exact Hk]. }
    destruct (p c) eqn:Ec; [|exact (Hstay H)].
    destruct (star_greedy p s k) as [y|] eqn:Eg; [|exact (Hstay H)].
    destruct (IH H) as [w [s1 [-> [Hp Hk]]]].
    exists (String c w), s1. split; [reflexivity|]. split; [|exact Hk].
    intros d Hd. cbn [mem_char] in Hd. apply orb_true_iff in Hd.
    destruct Hd as [Hd|Hd]; [|exact (Hp d Hd)].
    apply Ascii.eqb_eq in Hd. subst d. exact Ec.
Qed.

(** The lazy star stops at the first text its continuation accepts: no
    earlier stop is one that [ok] holds of. *)
Lemma star_lazy_first (p : ascii -> bool) (ok : string -> bool)
      (k : string -> option R) (x : R) :
  (forall t, ok t = true -> k t <> None) ->
  forall s,
    star_lazy p s k = Some x ->
    exists w s2, s = w +++ s2 /\ k s2 = Some x /\
                 (forall w1 w2, w = w1 +++ w2 -> w2 <> EmptyString ->
                                ok (w2 +++ s2) = false).
Proof.
  intros Hok. induction s as [|c s IH]; cbn [star_lazy]; intros H.
  - destruct (k EmptyString) as [y|] eqn:Ek; [|discriminate].
    exists EmptyString, EmptyString. split; [reflexivity|].
    split; [congruence|].
    intros w1 w2 Hw Hne. destruct w1; destruct w2; try discriminate.
    contradiction.
  - destruct (k (String c s)) as [y|] eqn:Ek.
    + exists EmptyString, (String c s). split; [reflexivity|].
      split; [congruence|].
      intros w1 w2 Hw Hne. destruct w1; destruct w2; try discriminate.
      contradiction.
    + destruct (p c); [|discriminate].
      destruct (IH H) as [w [s2 [-> [Hk Hfirst]]]].
      exists (String c w), s2. split; [reflexivity|]. split; [exact Hk|].
      intros w1 w2 Hw Hne. destruct w1 as [|d w1].
      * cbn [String.append] in Hw. subst w2. cbn [String.append].
        destruct (ok (String c (w +++ s2))) eqn:Eo; [|reflexivity].
        exfalso. exact (Hok _ Eo Ek).
      * cbn [String.append] in Hw. injection Hw as _ Hw.
        exact (Hfirst w1 w2 Hw Hne).
Qed.
End Continuations.

Lemma rmatch_lit_some (R : Type) (l s : string) (caps : captures)
      (k : string -> captures -> option R) (x : R) :
  rmatch (lit l) s caps k = Some x ->
  exists s', s = l +++ s' /\ k s' caps = Some x.
Proof.
  rewrite rmatch_lit. destruct (strip_prefix l s) as [s'|] eqn:E; [|discriminate].
  intros H. exists s'. split; [exact (strip_prefix_spec _ _ E)|exact H].
Qed.

Lemma rmatch_ws_some (R : Type) (s : string) (caps : captures)
      (k : string -> captures -> option R) (x : R) :
  rmatch ws s caps k = Some x ->
  exists w s', s = w +++ s' /\ k s' caps = Some x.
Proof.
  unfold ws. cbn [rmatch at_least]. intros H.
  apply star_greedy_run in H. destruct H as [w [s1 [-> [_ H]]]].
  exists w, s1. split; [reflexivity|exact H].
Qed.

(** A quoted item: its text is not empty and holds no double quote. *)
Lemma rmatch_quoted_some (R : Type) (n : nat) (s : string) (caps : captures)
      (k : string -> captures -> option R) (x : R) :
  rmatch (quoted n) s caps k = Some x ->
  exists w s', s = q +++ w +++ q +++ s' /\ w <> EmptyString /\
               mem_char dquote w = false /\
               k s' ((n, w) :: caps) = Some x.
Proof.
  unfold quoted. cbn [seq fold_right]. cbn [rmatch]. intros H.
  apply rmatch_lit_some in H. destruct H as [s1 [-> H]].
  apply at_least_run in H. destruct H as [w1 [s2 [-> [Hl [Hp1 H]]]]].
  apply star_greedy_run in H. destruct H as [w2 [s3 [-> [Hp2 H]]]].
  apply rmatch_lit_some in H. destruct H as [s4 [-> H]].
  exists (w1 +++ w2), s4. split; [|split; [|split]].
  - rewrite !append_assoc. reflexivity.
  - destruct w1; [discriminate Hl|discriminate].
  - rewrite mem_char_app.
    destruct (mem_char dquote w1) eqn:E1; [apply Hp1 in E1; discriminate E1|].
    destruct (mem_char dquote w2) eqn:E2; [apply Hp2 in E2; discriminate E2|].
    reflexivity.
  - rewrite <- append_assoc, consumed_append in H. exact H.
Qed.

End MatchRuns.

Module StringOptions.
Import StrFacts ReFacts ListPattern OptionPattern Soundness.
Import MatchRuns.

Lemma match_str_here (s : string) (pos : nat) (adv : bool) (m : match_obj) :
  match_here re_str s pos adv = Some m ->
  exists w1 w2 w3,
    m_caps m = [(3, w3); (2, w2); (1, w1)] /\
    (w1 <> EmptyString /\ mem_char dquote w1 = false) /\
    (w2 <> EmptyString /\ mem_char dquote w2 = false) /\
    (w3 <> EmptyString /\ mem_char dquote w3 = false).
Proof.
  unfold match_here, re_str. cbn [seq fold_right]. cbn [rmatch]. intros H.
  apply rmatch_lit_some in H. destruct H as [s1 [_ H]].
  apply rmatch_ws_some in H. destruct H as [? [s2 [_ H]]].
  apply rmatch_lit_some in H. destruct H as [s3 [_ H]].
  apply rmatch_ws_some in H. destruct H as [? [s4 [_ H]]].
  apply rmatch_quoted_some in H. destruct H as [w1 [s5 [_ [N1 [Q1 H]]]]].
  apply rmatch_ws_some in H. destruct H as [? [s6 [_ H]]].
  apply rmatch_lit_some in H. destruct H as [s7 [_ H]].
  apply rmatch_ws_some in H. destruct H as [? [s8 [_ H]]].
  apply rmatch_quoted_some in H. destruct H as [w2 [s9 [_ [N2 [Q2 H]]]]].
  apply rmatch_ws_some in H. destruct H as [? [s10 [_ H]]].
  apply rmatch_lit_some in H. destruct H as [s11 [_ H]].
  apply rmatch_ws_some in H. destruct H as [? [s12 [_ H]]].
  apply rmatch_quoted_some in H. destruct H as [w3 [s13 [_ [N3 [Q3 H]]]]].
  exists w1, w2, w3.
  destruct (adv && (String.length s13 =? String.length s)%nat);
    [discriminate|].
  injection H as <-. cbn [m_caps]. repeat split; assumption.
Qed.

Lemma search_str (s : string) :
  forall (pos : nat) (adv : bool) (m : match_obj),
    search_from re_str s pos adv = Some m ->
    exists w1 w2 w3,
      (group m 1 = w1 /\ group m 2 = w2 /\ group m 3 = w3) /\
      (w1 <> EmptyString /\ mem_char dquote w1 = false) /\
      (w2 <> EmptyString /\ mem_char dquote w2 = false) /\
      (w3 <> EmptyString /\ mem_char dquote w3 = false).
Proof.
  assert (Hhere : forall t pos adv m,
             match_here re_str t pos adv = Some m ->
             exists w1 w2 w3,
               (group m 1 = w1 /\ group m 2 = w2 /\ group m 3 = w3) /\
               (w1 <> EmptyString /\ mem_char dquote w1 = false) /\
               (w2 <> EmptyString /\ mem_char dquote w2 = false) /\
               (w3 <> EmptyString /\ mem_char dquote w3 = false)).
  { intros t pos adv m H. apply match_str_here in H.
    destruct H as [w1 [w2 [w3 [Hc H]]]]. exists w1, w2, w3.
    split; [|exact H]. unfold group. rewrite Hc. repeat split. }
  induction s as [|c s IH]; intros pos adv m; cbn [search_from].
  - destruct (match_here re_str EmptyString pos adv) as [m'|] eqn:E;
      [|discriminate].
    intros H. injection H as <-. exact (Hhere _ _ _ _ E).
  - destruct (match_here re_str (String c s) pos adv) as [m'|] eqn:E.
    + intros H. injection H as <-. exact (Hhere _ _ _ _ E).
    + apply IH.
Qed.

(** X1. Whatever line it is given, [_parse_option] returns nothing or a
    string-valued option, never a boolean and never an enumerated one; the
    option's name, description and default are each a non-empty text
    without a double quote. *)
Theorem parse_option_returns_string_options (line : string) (o : opt) :
  _parse_option line = Some o ->
  exists name desc default,
    o = StringOpt name desc default /\
    (name <> EmptyString /\ mem_char dquote name = false) /\
    (desc <> EmptyString /\ mem_char dquote desc = false) /\
    (default <> EmptyString /\ mem_char dquote default = false).
Proof.
  intros H. pose proof (parse_option_only_string _ H) as Ht.
  unfold _parse_option in H.
  destruct (search re_opts_add line) as [m|]; [|discriminate].
  unfold bool_rule, enum_rule, str_rule in H.
  destruct (search re_bool (group m 1)).
  { injection H as <-. discriminate Ht. }
  destruct (search re_enum (group m 1)).
  { injection H as <-. discriminate Ht. }
  destruct (search re_str (group m 1)) as [ms|] eqn:Es; [|discriminate].
  injection H as <-. apply search_str in Es.
  destruct Es as [w1 [w2 [w3 [[<- [<- <-]] Hw]]]].
  exists (group ms 1), (group ms 2), (group ms 3).
  split; [reflexivity|exact Hw].
Qed.

Lemma parse_option_returns_string_options_witness :
  _parse_option four_items_line = Some (StringOpt "p" "Platform" "x") /\
  exists name desc default,
    StringOpt "p" "Platform" "x" = StringOpt name desc default /\
    (name <> EmptyString /\ mem_char dquote name = false) /\
    (desc <> EmptyString /\ mem_char dquote desc = false) /\
    (default <> EmptyString /\ mem_char dquote default = false).
Proof.
  assert (H : _parse_option four_items_line = Some (StringOpt "p" "Platform" "x"))
    by (vm_compute; reflexivity).
  split; [exact H|].
  exact (@parse_option_returns_string_options _ _ H).
Defined.

End StringOptions.

Module FunctionBodies.
Import StrFacts ReFacts ListPattern OptionPattern Soundness.
Import MatchRuns.

(** The look-ahead [(?=def|\Z)] at a text. *)
Lemma ahead_def (t : string) (caps : captures) :
  match rmatch (lit "def") t caps (fun _ caps' => Some caps') with
  | Some x => Some x
  | None => match t with
            | EmptyString => Some caps
            | String _ _ => None
            end
  end =
  if startswith "def" t || (t =? EmptyString)%string then Some caps else None.
Proof.
  rewrite rmatch_lit, strip_prefix_startswith.
  destruct (strip_prefix "def" t) as [t'|]; [reflexivity|].
  destruct t; reflexivity.
Qed.

Lemma contains_none (sub w : string) :
  sub <> EmptyString ->
  (forall w1 w2, w = w1 +++ w2 -> w2 <> EmptyString -> startswith sub w2 = false) ->
  contains sub w = false.
Proof.
  intros Hsub. induction w as [|c w IH]; intros H.
  - destruct sub; [contradiction|reflexivity].
  - cbn [contains]. rewrite (H EmptyString (String c w) eq_refl); [|discriminate].
    apply IH. intros w1 w2 Hw Hne.
    apply (H (String c w1) w2); [rewrite Hw; reflexivity|exact Hne].
Qed.

Lemma match_def_here (fname s : string) (pos : nat) (m : match_obj) :
  match_here (re_def fname) s pos false = Some m ->
  exists head,
    s = head +++ group m 1 +++ m_rest m /\
    contains "def" (group m 1) = false /\
    (startswith "def" (m_rest m) = true \/ m_rest m = EmptyString).
Proof.
  unfold match_here, re_def. cbn [seq fold_right]. cbn [rmatch]. intros H.
  apply rmatch_lit_some in H. destruct H as [s1 [-> H]].
  apply at_least_run in H. destruct H as [w1 [s2 [-> [_ [_ H]]]]].
  apply star_greedy_run in H. destruct H as [w2 [s3 [-> [_ H]]]].
  apply rmatch_lit_some in H. destruct H as [s4 [-> H]].
  apply rmatch_lit_some in H. destruct H as [s5 [-> H]].
  apply star_greedy_run in H. destruct H as [w3 [s6 [-> [_ H]]]].
  apply (@star_lazy_first _ any
           (fun t => startswith "def" t || (t =? EmptyString)%string)) in H.
  - destruct H as [w [s7 [-> [H Hfirst]]]]. cbv beta in H.
    rewrite ahead_def in H.
    destruct (startswith "def" s7 || (s7 =? EmptyString)%string) eqn:Eok;
      [|discriminate].
    cbn [andb] in H. injection H as <-. unfold group. cbn [m_caps m_rest assoc_nat Nat.eqb].
    rewrite consumed_append.
    exists ("def" +++ w1 +++ w2 +++ fname +++ "():" +++ w3).
    split; [rewrite !append_assoc; reflexivity|]. split.
    + apply contains_none; [discriminate|].
      intros u1 u2 Hu Hne. specialize (Hfirst u1 u2 Hu Hne).
      apply orb_false_iff in Hfirst. destruct Hfirst as [Hfirst _].
      destruct (startswith "def" u2) eqn:E; [|reflexivity].
      rewrite (startswith_append _ _ s7 E) in Hfirst. discriminate.
    + apply orb_true_iff in Eok. destruct Eok as [E|E]; [left; exact E|].
      right. apply String.eqb_eq. exact E.
  - intros t Hok. cbv beta. rewrite ahead_def, Hok. discriminate.
Qed.

Lemma search_def (fname s : string) :
  forall (pos : nat) (m : match_obj),
    search_from (re_def fname) s pos false = Some m ->
    exists head,
      s = head +++ group m 1 +++ m_rest m /\
      contains "def" (group m 1) = false /\
      (startswith "def" (m_rest m) = true \/ m_rest m = EmptyString).
Proof.
  induction s as [|c s IH]; intros pos m; cbn [search_from].
  - destruct (match_here (re_def fname) EmptyString pos false) as [m'|] eqn:E;
      [|discriminate].
    intros H. injection H as <-. exact (match_def_here _ _ _ E).
  - destruct (match_here (re_def fname) (String c s) pos false) as [m'|] eqn:E.
    + intros H. injection H as <-. exact (match_def_here _ _ _ E).
    + intros H. destruct (IH _ _ H) as [head [-> Hm]].
      exists (String c head). split; [reflexivity|exact Hm].
Qed.

(** X6. The function body that the patterns of [_parse_platform_detect]
    capture is a piece of the file that nowhere holds the text "def", and
    it is followed by "def" or by the end of the file: the body ends at the
    first "def" after the function's header, a word such as "default"
    included. *)
Theorem function_body_stops_at_def (fname content : string) (m : match_obj) :
  search (re_def fname) content = Some m ->
  (exists head, content = head +++ group m 1 +++ m_rest m) /\
  contains "def" (group m 1) = false /\
  (startswith "def" (m_rest m) = true \/ m_rest m = EmptyString).
Proof.
  unfold search. intros H. destruct (search_def _ _ _ H) as [head [Hc Hm]].
  split; [exists head; exact Hc|exact Hm].
Qed.

Lemma function_body_stops_at_def_witness :
  search (re_def "get_libs") detect_two_functions
  = Some (MatchObj 0 [(1, "return [" +++ q +++ "GL" +++ q +++ "]" +++ nl)]
                   ("def get_flags():" +++ nl +++ "    return ["
                    +++ q +++ "-O2" +++ q +++ "]")) /\
  (exists head,
      detect_two_functions
      = head +++ ("return [" +++ q +++ "GL" +++ q +++ "]" +++ nl)
        +++ ("def get_flags():" +++ nl +++ "    return ["
             +++ q +++ "-O2" +++ q +++ "]")) /\
  contains "def" ("return [" +++ q +++ "GL" +++ q +++ "]" +++ nl) = false /\
  (startswith "def" ("def get_flags():" +++ nl +++ "    return ["
                     +++ q +++ "-O2" +++ q +++ "]") = true \/
   "def get_flags():" +++ nl +++ "    return [" +++ q +++ "-O2" +++ q +++ "]"
   = EmptyString).
Proof.
  assert (H : search (re_def "get_libs") detect_two_functions
              = Some (MatchObj 0 [(1, "return [" +++ q +++ "GL" +++ q +++ "]" +++ nl)]
                               ("def get_flags():" +++ nl +++ "    return ["
                                +++ q +++ "-O2" +++ q +++ "]")))
    by (vm_compute; reflexivity).
  split; [exact H|].
  exact (@function_body_stops_at_def _ _ _ H).
Defined.

(** A body that starts with the word default is empty, and the list after
    it is not collected. *)
Example function_items_stop_at_default :
  function_items "get_libs" detect_default = [] /\
  function_items "get_libs" detect_two_functions = ["GL"%string] /\
  function_items "get_flags" detect_two_functions = ["-O2"%string].
Proof. vm_compute. repeat split. Qed.

End FunctionBodies.

(** ** The options file *)

Module OptionsFile.
Import StrFacts ReFacts ListPattern OptionPattern Soundness.
Import DictFacts.

Lemma dict_get_keys (V : Type) (k : string) (d : dict V) :
  dict_get k d = None <-> ~ In k (keys d).
Proof.
  induction d as [|[k' v'] d IH]; cbn [dict_get keys map fst].
  - split; [intros _ []|reflexivity].
  - destruct (String.eqb_spec k' k) as [->|Hk].
    + split; [discriminate|]. intros H. exfalso. apply H. left. reflexivity.
    + rewrite IH. unfold keys. split.
      * intros H [E|E]; [exact (Hk E)|exact (H E)].
      * intros H E. apply H. right. exact E.
Qed.

Lemma keys_dict_set (V : Type) (k : string) (v : V) (d : dict V) :
  keys (dict_set k v d) =
  match dict_get k d with
  | Some _ => keys d
  | None => keys d ++ [k]
  end.
Proof.
  induction d as [|[k' v'] d IH]; [reflexivity|].
  cbn [dict_set dict_get]. destruct (String.eqb_spec k' k) as [->|Hk].
  - reflexivity.
  - unfold keys in *. cbn [map fst]. rewrite IH.
    destruct (dict_get k d); reflexivity.
Qed.

Lemma nodup_dict_set (V : Type) (k : string) (v : V) (d : dict V) :
  NoDup (keys d) -> NoDup (keys (dict_set k v d)).
Proof.
  intros H. rewrite keys_dict_set.
  destruct (dict_get k d) eqn:E; [exact H|].
  apply dict_get_keys in E.
  apply NoDup_rev in H. rewrite <- (rev_involutive (keys d ++ [k])).
  apply NoDup_rev. rewrite rev_app_distr. cbn [rev app].
  constructor; [|exact H]. rewrite <- in_rev. exact E.
Qed.

(** What [parse_line] does to the dictionary, by cases. *)
Lemma parse_line_cases (options : dict opt) (line : string) :
  parse_line options line = options \/
  exists o, startswith "opts.Add(" (strip isspace line) = true /\
            _parse_option line = Some o /\
            parse_line options line = dict_set (opt_name o) o options.
Proof.
  unfold parse_line.
  destruct (startswith "opts.Add(" (strip isspace line)); [|left; reflexivity].
  destruct (_parse_option line) as [o|]; [|left; reflexivity].
  right. exists o. repeat split.
Qed.

(** Every entry is filed under its option's name and comes from a
    declaration among the lines [all]; no name is filed twice. *)
Lemma fold_parse_line (all : list string) (lines : list string) :
  (forall line, In line lines -> In line all) ->
  forall options,
    (NoDup (keys options) /\
     forall name o, In (name, o) options ->
       opt_name o = name /\
       exists line, In line all /\
                    startswith "opts.Add(" (strip isspace line) = true /\
                    _parse_option line = Some o) ->
    NoDup (keys (fold_left parse_line lines options)) /\
    forall name o, In (name, o) (fold_left parse_line lines options) ->
      opt_name o = name /\
      exists line, In line all /\
                   startswith "opts.Add(" (strip isspace line) = true /\
                   _parse_option line = Some o.
Proof.
  induction lines as [|line lines IH]; intros Hall options Hd; [exact Hd|].
  cbn [fold_left]. apply IH; [intros l Hl; apply Hall; right; exact Hl|].
  destruct (parse_line_cases options line) as [->|[o [Hs [Ho ->]]]]; [exact Hd|].
  destruct Hd as [Hn Hd]. split; [apply nodup_dict_set; exact Hn|].
  intros name o' Hin. apply in_dict_set in Hin. destruct Hin as [E|Hin].
  - injection E as -> ->. split; [reflexivity|].
    exists line. split; [apply Hall; left; reflexivity|]. split; assumption.
  - exact (Hd _ _ Hin).
Qed.

Lemma fold_keeps_entry (name : string) (o : opt) (post : list string) :
  (forall line o', In line post -> _parse_option line = Some o' ->
                   opt_name o' <> name) ->
  forall options, dict_get name options = Some o ->
                  dict_get name (fold_left parse_line post options) = Some o.
Proof.
  induction post as [|line post IH]; intros Hpost options Hd; [exact Hd|].
  cbn [fold_left]. apply IH; [intros l o' Hl; apply Hpost; right; exact Hl|].
  destruct (parse_line_cases options line) as [->|[o' [_ [Ho ->]]]]; [exact Hd|].
  rewrite dict_get_set.
  destruct (String.eqb_spec (opt_name o') name) as [E|_]; [|exact Hd].
  exfalso. exact (Hpost line o' (or_introl eq_refl) Ho E).
Qed.

Lemma parse_sconstruct_run (w : world) :
  _parse_sconstruct w =
  match read (fs w) ["SConstruct"] with
  | Ok content => (Ok (fold_left parse_line (split newline content) []), w)
  | Raise e => (Raise e, w)
  end.
Proof.
  unfold _parse_sconstruct, bind, open_read, ret.
  destruct (read (fs w) ["SConstruct"]); reflexivity.
Qed.

(** X2. When the options collector returns, it has changed nothing, the
    options file could be read, and in the dictionary it returns no name is
    filed twice, every option is filed under its own name, is of string
    type, and is what [_parse_option] gives for a line of the file that
    starts, indentation apart, with the text opts.Add and an opening
    parenthesis. *)
Theorem parse_sconstruct_entries (w w' : world) (options : dict opt) :
  _parse_sconstruct w = (Ok options, w') ->
  w' = w /\
  exists content,
    read (fs w) ["SConstruct"] = Ok content /\
    NoDup (keys options) /\
    forall name o, In (name, o) options ->
      opt_name o = name /\ opt_type o = "string"%string /\
      exists line, In line (split newline content) /\
                   startswith "opts.Add(" (strip isspace line) = true /\
                   _parse_option line = Some o.
Proof.
  rewrite parse_sconstruct_run.
  destruct (read (fs w) ["SConstruct"]) as [content|e]; [|discriminate].
  intros H. injection H as <- <-. split; [reflexivity|].
  exists content. split; [reflexivity|].
  destruct (@fold_parse_line (split newline content) (split newline content)
              (fun line H => H) [])
    as [Hn Hd].
  { split; [constructor|intros name o []]. }
  split; [exact Hn|]. intros name o Hin.
  destruct (Hd name o Hin) as [Hname [line [Hl [Hs Ho]]]].
  split; [exact Hname|]. split; [exact (parse_option_only_string _ Ho)|].
  exists line. repeat split; assumption.
Qed.

Lemma parse_sconstruct_entries_witness :
  _parse_sconstruct (fresh declared_twice_tree)
  = (Ok [("p"%string, StringOpt "p" "Other" "y")], fresh declared_twice_tree) /\
  fresh declared_twice_tree = fresh declared_twice_tree /\
  exists content,
    read (fs (fresh declared_twice_tree)) ["SConstruct"] = Ok content /\
    NoDup (keys [("p"%string, StringOpt "p" "Other" "y")]) /\
    forall name o, In (name, o) [("p"%string, StringOpt "p" "Other" "y")] ->
      opt_name o = name /\ opt_type o = "string"%string /\
      exists line, In line (split newline content) /\
                   startswith "opts.Add(" (strip isspace line) = true /\
                   _parse_option line = Some o.
Proof.
  assert (H : _parse_sconstruct (fresh declared_twice_tree)
              = (Ok [("p"%string, StringOpt "p" "Other" "y")],
                 fresh declared_twice_tree))
    by (vm_compute; reflexivity).
  split; [exact H|].
  exact (@parse_sconstruct_entries _ _ _ H).
Defined.

(** X3. A name declared more than once keeps its last declaration: when a
    line of the options file gives an option and no later line gives one of
    the same name, the collector returns a dictionary that holds this
    option under its name. *)
Theorem parse_sconstruct_last_declaration_wins
        (w : world) (content : string) (pre post : list string)
        (line : string) (o : opt) :
  read (fs w) ["SConstruct"] = Ok content ->
  split newline content = pre ++ line :: post ->
  startswith "opts.Add(" (strip isspace line) = true ->
  _parse_option line = Some o ->
  (forall later o', In later post -> _parse_option later = Some o' ->
                    opt_name o' <> opt_name o) ->
  exists options,
    _parse_sconstruct w = (Ok options, w) /\
    dict_get (opt_name o) options = Some o.
Proof.
  intros Hread Hsplit Hs Ho Hpost. rewrite parse_sconstruct_run, Hread, Hsplit.
  eexists. split; [reflexivity|].
  rewrite fold_left_app. cbn [fold_left].
  apply fold_keeps_entry; [exact Hpost|].
  unfold parse_line. rewrite Hs, Ho, dict_get_set, String.eqb_refl.
  reflexivity.
Qed.

Lemma parse_sconstruct_last_declaration_wins_witness :
  exists options,
    _parse_sconstruct (fresh declared_twice_tree)
    = (Ok options, fresh declared_twice_tree) /\
    dict_get "p" options = Some (StringOpt "p" "Other" "y").
Proof.
  apply (@parse_sconstruct_last_declaration_wins
           (fresh declared_twice_tree)
           (four_items_line +++ nl +++ four_items_again)
           [four_items_line] [] four_items_again (StringOpt "p" "Other" "y")).
  - reflexivity.
  - vm_compute. reflexivity.
  - vm_compute. reflexivity.
  - vm_compute. reflexivity.
  - intros later o' [].
Defined.

End OptionsFile.

(** ** What the collectors hold *)

Module Rounds.
Import StrFacts ReFacts ListPattern OptionPattern Soundness.
Import DictFacts Collect OptionsFile.

(** One round of the platform loop, by what is at the descriptor's path. *)
Lemma platform_round_run (configs : dict platform_config) (x : string)
      (w : world) :
  platform_round configs x w =
  match read (fs w) ["platform"; x; "detect.py"] with
  | Ok content =>
      (Ok (dict_set x
             {| p_name := x; p_defines := [];
                p_libs := function_items "get_libs" content;
                p_includes := [];
                p_flags := function_items "get_flags" content |}
             configs), w)
  | Raise e =>
      if is_dir (fs w) ["platform"; x; "detect.py"]
      then (Raise IsADirectoryError, w) else (Ok configs, w)
  end.
Proof.
  assert (Hw : walk (fs w) ["platform"; x; "detect.py"] =
               match walk (fs w) ["platform"; x] with
               | Ok c => walk c ["detect.py"]
               | Raise e => Raise e
               end).
  { change ["platform"; x; "detect.py"] with (["platform"; x] ++ ["detect.py"]).
    apply walk_app. }
  unfold platform_round, _parse_platform_detect, bind, path_is_dir, path_exists,
    open_read, ret, is_dir, exists_, read.
  destruct (walk (fs w) ["platform"; x]) as [[c|es]|e];
    cbn [negb]; cbv beta iota; rewrite ?Hw; try reflexivity.
  destruct (walk (Dir es) ["detect.py"]) as [[c|es']|e];
    cbn [negb]; cbv beta iota; rewrite ?Hw; reflexivity.
Qed.

(** One round of the module loop. *)
Lemma module_round_run (modules : dict module_config) (x : string) (w : world) :
  module_round modules x w =
  if is_dir (fs w) ["modules"; x] then
    match read (fs w) ["modules"; x; "SCsub"] with
    | Ok content =>
        (Ok (dict_set x
               {| m_name := x;
                  m_sources := anchored_items "env.add_source_files" content;
                  m_deps := anchored_items "env.Depends" content;
                  m_defines := []; m_includes := [] |}
               modules), w)
    | Raise e =>
        if is_dir (fs w) ["modules"; x; "SCsub"]
        then (Raise IsADirectoryError, w)
        else (Ok (dict_set x (empty_module x) modules), w)
    end
  else (Ok modules, w).
Proof.
  assert (Hw : walk (fs w) ["modules"; x; "SCsub"] =
               match walk (fs w) ["modules"; x] with
               | Ok c => walk c ["SCsub"]
               | Raise e => Raise e
               end).
  { change ["modules"; x; "SCsub"] with (["modules"; x] ++ ["SCsub"]).
    apply walk_app. }
  unfold module_round, _parse_module, bind, path_is_dir, path_exists,
    open_read, ret, is_dir, exists_, read.
  change (["modules"; x] ++ ["SCsub"]) with ["modules"; x; "SCsub"].
  destruct (walk (fs w) ["modules"; x]) as [[c|es]|e];
    cbn [negb]; cbv beta iota; rewrite ?Hw; try reflexivity.
  destruct (walk (Dir es) ["SCsub"]) as [[c|es']|e];
    cbn [negb]; cbv beta iota; rewrite ?Hw; reflexivity.
Qed.

(** A loop of rounds that leave the world alone raises when one of its
    rounds does whatever was collected before. *)
Lemma foldM_raises (A B : Type) (body : B -> A -> M B) (w : world) (x : A) :
  (forall b y, snd (body b y w) = w) ->
  (forall b, exists e, body b x w = (Raise e, w)) ->
  forall l b, In x l -> exists e, foldM body l b w = (Raise e, w).
Proof.
  intros Hreads Hx. induction l as [|y l IH]; intros b Hin; [destruct Hin|].
  cbn [foldM]. unfold bind. destruct Hin as [->|Hin].
  - destruct (Hx b) as [e ->]. exists e. reflexivity.
  - pose proof (Hreads b y) as Hw.
    destruct (body b y w) as [[b'|e] w']; cbn [snd] in Hw; subst w'.
    + apply IH, Hin.
    + exists e. reflexivity.
Qed.

Lemma in_existsb (x : string) (l : list string) :
  existsb (String.eqb x) l = true <-> In x l.
Proof.
  rewrite existsb_exists. split.
  - intros [y [Hy E]]. apply String.eqb_eq in E. subst y. exact Hy.
  - intros H. exists x. split; [exact H|apply String.eqb_refl].
Qed.

Lemma existsb_snoc (x y : string) (l : list string) :
  existsb (String.eqb x) (l ++ [y]) = existsb (String.eqb x) l || (x =? y)%string.
Proof. rewrite existsb_app. cbn [existsb]. rewrite orb_false_r. reflexivity. Qed.

Lemma read_below_listed (n : node) (p : path) (x y content : string) :
  read n (p ++ [x; y]) = Ok content -> In x (path_glob_star n p).
Proof.
  intros H. apply is_dir_listed. unfold read, is_dir in *.
  change (p ++ [x; y]) with (p ++ [x] ++ [y]) in H.
  rewrite app_assoc, walk_app in H.
  destruct (walk n (p ++ [x])) as [[c|es]|e]; try discriminate; reflexivity.
Qed.

(** A loop over the names of a directory whose rounds leave the world as
    it is. *)
Lemma dir_loop_reading (B : Type) (round : B -> string -> M B) (p : path)
      (w : world) (b0 : B) (P : list string -> B -> Prop) :
  (forall pre x b, P pre b ->
     match round b x w with
     | (Ok b', w') => w' = w /\ P (pre ++ [x]) b'
     | (Raise _, w') => w' = w
     end) ->
  P [] b0 ->
  match (names <- path_glob p ;; foldM round names b0) w with
  | (Ok r, w') => w' = w /\ P (path_glob_star (fs w) p) r
  | (Raise _, w') => w' = w
  end.
Proof.
  intros Hround H0. unfold bind, path_glob.
  pose proof (@foldM_reading _ _ round w P (fun _ => True)) as H.
  assert (Hbody : forall pre x b, P pre b ->
             match round b x w with
             | (Ok b', w') => w' = w /\ P (pre ++ [x]) b'
             | (Raise _, w') => w' = w /\ True
             end).
  { intros pre x b HP. specialize (Hround pre x b HP).
    destruct (round b x w) as [[b'|e] w']; [exact Hround|split; [exact Hround|exact I]]. }
  specialize (H Hbody (path_glob_star (fs w) p) [] b0 H0).
  destruct (foldM round (path_glob_star (fs w) p) b0 w) as [[r|e] w'].
  - exact H.
  - apply H.
Qed.

Lemma is_dir_parent (n : node) (p : path) (x : string) :
  is_dir n (p ++ [x]) = true -> is_dir n p = true.
Proof.
  unfold is_dir. rewrite walk_app.
  destruct (walk n p) as [[c|es]|e]; [discriminate|reflexivity|discriminate].
Qed.

Lemma read_of_dir (n : node) (p : path) :
  is_dir n p = true -> read n p = Raise IsADirectoryError.
Proof.
  unfold is_dir, read. destruct (walk n p) as [[c|es]|e]; try discriminate.
  reflexivity.
Qed.

End Rounds.

Module Collected.
Import StrFacts ReFacts ListPattern OptionPattern Soundness.
Import DictFacts Collect OptionsFile Rounds Twice.

Lemma platform_entries
        (w w' : world) (configs : dict platform_config) :
  _parse_platform_configs w = (Ok configs, w') ->
  w' = w /\
  forall d,
    dict_get d configs =
    match read (fs w) ["platform"; d; "detect.py"] with
    | Ok content =>
        Some {| p_name := d; p_defines := [];
                p_libs := function_items "get_libs" content;
                p_includes := [];
                p_flags := function_items "get_flags" content |}
    | Raise _ => None
    end.
Proof.
  intros Hrun.
  pose proof (@dir_loop_reading _ platform_round ["platform"] w []
    (fun pre configs => forall d,
       dict_get d configs =
       match read (fs w) ["platform"; d; "detect.py"] with
       | Ok content =>
           if existsb (String.eqb d) pre
           then Some {| p_name := d; p_defines := [];
                        p_libs := function_items "get_libs" content;
                        p_includes := [];
                        p_flags := function_items "get_flags" content |}
           else None
       | Raise _ => None
       end)) as H.
  unfold _parse_platform_configs in Hrun. rewrite Hrun in H.
  destruct H as [-> H].
  - intros pre x b HP. rewrite platform_round_run.
    destruct (read (fs w) ["platform"; x; "detect.py"]) as [content|e] eqn:Hread.
    + split; [reflexivity|]. intros d. rewrite dict_get_set, (HP d), existsb_snoc.
      destruct (String.eqb_spec x d) as [->|Hxd].
      * rewrite Hread, String.eqb_refl, orb_true_r. reflexivity.
      * assert (E : (d =? x)%string = false).
        { apply String.eqb_neq. congruence. }
        rewrite E, orb_false_r. reflexivity.
    + destruct (is_dir (fs w) ["platform"; x; "detect.py"]); [reflexivity|].
      split; [reflexivity|]. intros d. rewrite (HP d), existsb_snoc.
      destruct (String.eqb_spec d x) as [->|Hxd].
      * rewrite Hread. reflexivity.
      * rewrite orb_false_r. reflexivity.
  - intros d. cbn [dict_get existsb].
    destruct (read (fs w) ["platform"; d; "detect.py"]); reflexivity.
  - split; [reflexivity|]. intros d. rewrite (H d).
    destruct (read (fs w) ["platform"; d; "detect.py"]) as [content|e] eqn:Hread;
      [|reflexivity].
    assert (Hin : In d (path_glob_star (fs w) ["platform"])).
    { apply (@read_below_listed (fs w) ["platform"] d "detect.py" content).
      exact Hread. }
    apply in_existsb in Hin. rewrite Hin. reflexivity.
Qed.

(** X7. When the platform collector returns, its dictionary holds an entry
    for a name exactly when the file detect.py below the platform directory
    of that name can be read, and the entry is made of the name, the list
    elements of the body of get_libs, those of the body of get_flags, and
    no defines and no include paths; the world is as it was. *)
Theorem parse_platform_configs_complete
        (w w' : world) (configs : dict platform_config) :
  _parse_platform_configs w = (Ok configs, w') ->
  w' = w /\
  forall d,
    dict_get d configs =
    match read (fs w) ["platform"; d; "detect.py"] with
    | Ok content =>
        Some {| p_name := d; p_defines := [];
                p_libs := function_items "get_libs" content;
                p_includes := [];
                p_flags := function_items "get_flags" content |}
    | Raise _ => None
    end.
Proof. exact (@platform_entries w w' configs). Qed.

Lemma module_entries
        (w w' : world) (modules : dict module_config) :
  _parse_modules w = (Ok modules, w') ->
  w' = w /\
  forall e,
    dict_get e modules =
    if is_dir (fs w) ["modules"; e] then
      Some match read (fs w) ["modules"; e; "SCsub"] with
           | Ok content =>
               {| m_name := e;
                  m_sources := anchored_items "env.add_source_files" content;
                  m_deps := anchored_items "env.Depends" content;
                  m_defines := []; m_includes := [] |}
           | Raise _ => empty_module e
           end
    else None.
Proof.
  intros Hrun.
  pose proof (@dir_loop_reading _ module_round ["modules"] w []
    (fun pre modules => forall e,
       dict_get e modules =
       if is_dir (fs w) ["modules"; e] && existsb (String.eqb e) pre then
         Some match read (fs w) ["modules"; e; "SCsub"] with
              | Ok content =>
                  {| m_name := e;
                     m_sources := anchored_items "env.add_source_files" content;
                     m_deps := anchored_items "env.Depends" content;
                     m_defines := []; m_includes := [] |}
              | Raise _ => empty_module e
              end
       else None)) as H.
  unfold _parse_modules in Hrun. rewrite Hrun in H.
  destruct H as [-> H].
  - intros pre x b HP. rewrite module_round_run.
    assert (Hother : forall e, x <> e ->
               existsb (String.eqb e) (pre ++ [x]) = existsb (String.eqb e) pre).
    { intros e Hxe. rewrite existsb_snoc.
      assert (E : (e =? x)%string = false) by (apply String.eqb_neq; congruence).
      rewrite E. apply orb_false_r. }
    assert (Hself : existsb (String.eqb x) (pre ++ [x]) = true).
    { rewrite existsb_snoc, String.eqb_refl. apply orb_true_r. }
    destruct (is_dir (fs w) ["modules"; x]) eqn:Hd.
    + destruct (read (fs w) ["modules"; x; "SCsub"]) as [content|e0] eqn:Hread.
      * split; [reflexivity|]. intros e. rewrite dict_get_set.
        destruct (String.eqb_spec x e) as [<-|Hxe].
        -- rewrite Hd, Hself, Hread. reflexivity.
        -- rewrite (HP e), (Hother e Hxe). reflexivity.
      * destruct (is_dir (fs w) ["modules"; x; "SCsub"]); [reflexivity|].
        split; [reflexivity|]. intros e. rewrite dict_get_set.
        destruct (String.eqb_spec x e) as [<-|Hxe].
        -- rewrite Hd, Hself, Hread. reflexivity.
        -- rewrite (HP e), (Hother e Hxe). reflexivity.
    + split; [reflexivity|]. intros e. rewrite (HP e).
      destruct (String.eqb_spec x e) as [<-|Hxe].
      * rewrite Hd. reflexivity.
      * rewrite (Hother e Hxe). reflexivity.
  - intros e. cbn [dict_get existsb]. rewrite andb_false_r. reflexivity.
  - split; [reflexivity|]. intros e. rewrite (H e).
    destruct (is_dir (fs w) ["modules"; e]) eqn:Hd; [|reflexivity].
    assert (Hin : In e (path_glob_star (fs w) ["modules"])).
    { apply (@is_dir_listed (fs w) ["modules"] e). exact Hd. }
    apply in_existsb in Hin. rewrite Hin. reflexivity.
Qed.

(** X8. When the module collector returns, its dictionary holds an entry
    for a name exactly when there is a directory of that name below the
    modules directory; with a readable manifest SCsub the entry's sources
    are the list elements of the manifest's lines that hold
    env.add_source_files and its dependencies those of the lines that hold
    env.Depends, and without one the entry is empty. *)
Theorem parse_modules_complete
        (w w' : world) (modules : dict module_config) :
  _parse_modules w = (Ok modules, w') ->
  w' = w /\
  forall e,
    dict_get e modules =
    if is_dir (fs w) ["modules"; e] then
      Some match read (fs w) ["modules"; e; "SCsub"] with
           | Ok content =>
               {| m_name := e;
                  m_sources := anchored_items "env.add_source_files" content;
                  m_deps := anchored_items "env.Depends" content;
                  m_defines := []; m_includes := [] |}
           | Raise _ => empty_module e
           end
    else None.
Proof. exact (@module_entries w w' modules). Qed.

Lemma parse_platform_configs_complete_witness :
  _parse_platform_configs (fresh sample_tree)
  = (Ok sample_configs, fresh sample_tree) /\
  fresh sample_tree = fresh sample_tree /\
  forall d,
    dict_get d sample_configs =
    match read (fs (fresh sample_tree)) ["platform"; d; "detect.py"] with
    | Ok content =>
        Some {| p_name := d; p_defines := [];
                p_libs := function_items "get_libs" content;
                p_includes := [];
                p_flags := function_items "get_flags" content |}
    | Raise _ => None
    end.
Proof.
  assert (H : _parse_platform_configs (fresh sample_tree)
              = (Ok sample_configs, fresh sample_tree))
    by (vm_compute; reflexivity).
  split; [exact H|].
  exact (@parse_platform_configs_complete _ _ _ H).
Defined.

Lemma parse_modules_complete_witness :
  _parse_modules (fresh sample_tree) = (Ok sample_modules, fresh sample_tree) /\
  fresh sample_tree = fresh sample_tree /\
  forall e,
    dict_get e sample_modules =
    if is_dir (fs (fresh sample_tree)) ["modules"; e] then
      Some match read (fs (fresh sample_tree)) ["modules"; e; "SCsub"] with
           | Ok content =>
               {| m_name := e;
                  m_sources := anchored_items "env.add_source_files" content;
                  m_deps := anchored_items "env.Depends" content;
                  m_defines := []; m_includes := [] |}
           | Raise _ => empty_module e
           end
    else None.
Proof.
  assert (H : _parse_modules (fresh sample_tree)
              = (Ok sample_modules, fresh sample_tree))
    by (vm_compute; reflexivity).
  split; [exact H|].
  exact (@parse_modules_complete _ _ _ H).
Defined.

Lemma keys_subset_filter (V : Type) (x : string) (d : dict V)
      (f : string -> bool) (pre : list string) :
  keys d = filter f pre -> ~ In x pre -> dict_get x d = None.
Proof.
  intros Hk Hx. apply dict_get_keys. rewrite Hk. intros H.
  apply filter_In in H. apply Hx, H.
Qed.

Lemma module_keys
        (w w' : world) (modules : dict module_config) :
  _parse_modules w = (Ok modules, w') ->
  NoDup (path_glob_star (fs w) ["modules"]) ->
  keys modules = subdirs (fs w) ["modules"] /\
  modules_content modules =
  ["# Godot modules"%string; blank]
  ++ map (fun module => "add_subdirectory(" +++ module +++ ")")
         (subdirs (fs w) ["modules"]).
Proof.
  intros Hrun Hnodup.
  pose proof (@dir_loop_reading _ module_round ["modules"] w []
    (fun pre modules =>
       NoDup pre ->
       keys modules = filter (fun x => is_dir (fs w) ["modules"; x]) pre)) as H.
  unfold _parse_modules in Hrun. rewrite Hrun in H.
  destruct H as [_ H].
  - intros pre x b HP. rewrite module_round_run.
    assert (Hstep : forall v, is_dir (fs w) ["modules"; x] = true ->
               NoDup (pre ++ [x]) ->
               keys (dict_set x v b) =
               filter (fun x => is_dir (fs w) ["modules"; x]) (pre ++ [x])).
    { intros v Hd Hn. apply NoDup_remove in Hn. rewrite app_nil_r in Hn.
      destruct Hn as [Hn Hx]. specialize (HP Hn).
      rewrite keys_dict_set, (@keys_subset_filter _ x b _ pre HP Hx), HP, filter_app.
      cbn [filter]. rewrite Hd. reflexivity. }
    destruct (is_dir (fs w) ["modules"; x]) eqn:Hd.
    + destruct (read (fs w) ["modules"; x; "SCsub"]) as [content|e0].
      * split; [reflexivity|]. apply Hstep. reflexivity.
      * destruct (is_dir (fs w) ["modules"; x; "SCsub"]); [reflexivity|].
        split; [reflexivity|]. apply Hstep. reflexivity.
    + split; [reflexivity|]. intros Hn.
      apply NoDup_remove in Hn. rewrite app_nil_r in Hn. destruct Hn as [Hn _].
      rewrite (HP Hn), filter_app. cbn [filter]. rewrite Hd, app_nil_r.
      reflexivity.
  - intros _. reflexivity.
  - specialize (H Hnodup).
    assert (Hk : keys modules = subdirs (fs w) ["modules"]) by exact H.
    split; [exact Hk|]. unfold modules_content. rewrite Hk. reflexivity.
Qed.

(** X9. When no name is listed twice in the modules directory, the
    dictionary of the module collector has the subdirectories of that
    directory as its keys, in listing order, and so the file
    modules/CMakeLists.txt names each of them once, in that order. *)
Theorem parse_modules_keys_in_listing_order
        (w w' : world) (modules : dict module_config) :
  _parse_modules w = (Ok modules, w') ->
  NoDup (path_glob_star (fs w) ["modules"]) ->
  keys modules = subdirs (fs w) ["modules"] /\
  modules_content modules =
  ["# Godot modules"%string; blank]
  ++ map (fun module => "add_subdirectory(" +++ module +++ ")")
         (subdirs (fs w) ["modules"]).
Proof. exact (@module_keys w w' modules). Qed.

Lemma parse_modules_keys_in_listing_order_witness :
  keys sample_modules = subdirs (fs (fresh sample_tree)) ["modules"] /\
  modules_content sample_modules =
  ["# Godot modules"%string; blank]
  ++ map (fun module => "add_subdirectory(" +++ module +++ ")")
         (subdirs (fs (fresh sample_tree)) ["modules"]).
Proof.
  apply (@parse_modules_keys_in_listing_order
           (fresh sample_tree) (fresh sample_tree) sample_modules).
  - vm_compute. reflexivity.
  - vm_compute. repeat constructor; simpl; intuition discriminate.
Defined.

End Collected.

(** ** Paths a step leaves alone *)

Module Keeps.
Import StrFacts ReFacts ListPattern OptionPattern Soundness.
Import DictFacts Collect Frame Twice Discovery Failures OptionsFile Rounds.

Lemma looks_keeps (p : path) (A : Type) (c : M A) : looks c -> keeps p c.
Proof.
  intros H w r w' E. specialize (H w). rewrite E in H. cbn [snd] in H.
  rewrite H. reflexivity.
Qed.

Lemma looks_ret (A : Type) (a : A) : looks (ret a).
Proof. intros w. reflexivity. Qed.

Lemma looks_print (line : string) : looks (print line).
Proof. intros w. reflexivity. Qed.

Lemma looks_bind (A B : Type) (c : M A) (k : A -> M B) :
  looks c -> (forall a, looks (k a)) -> looks (bind c k).
Proof.
  intros Hc Hk w. unfold bind. specialize (Hc w).
  destruct (c w) as [[a|e] w1]; cbn [snd] in *; [|exact Hc].
  rewrite (Hk a w1). exact Hc.
Qed.

Lemma looks_foldM (A B : Type) (body : B -> A -> M B) (l : list A) :
  (forall b x, looks (body b x)) -> forall b, looks (foldM body l b).
Proof.
  intros Hbody. induction l as [|x l IH]; intros b; cbn [foldM].
  - apply looks_ret.
  - apply looks_bind; [apply Hbody|exact IH].
Qed.

Lemma looks_glob (p : path) (suffix : string) : looks (glob p suffix).
Proof. intros w. reflexivity. Qed.

Lemma looks_path_exists (p : path) : looks (path_exists p).
Proof. intros w. reflexivity. Qed.

Lemma looks_warn (A : Type) (l : list A) (line : string) :
  looks (if some l then ret tt else print line).
Proof. destruct (some l); [apply looks_ret|apply looks_print]. Qed.

Lemma looks_core_sources (root_dir lib : string) : looks (core_sources lib).
Proof.
  unfold core_sources. apply looks_foldM. intros sources ext.
  apply looks_bind; [apply looks_glob|]. intros files. apply looks_ret.
Qed.

Lemma looks_module_sources (module : string) : looks (module_sources module).
Proof.
  unfold module_sources. apply looks_foldM. intros sources ext.
  apply looks_bind; [apply looks_glob|]. intros files.
  apply looks_foldM. intros sources' file.
  apply looks_bind; [apply looks_print|]. intros _. apply looks_ret.
Qed.

Lemma keeps_bind (p : path) (A B : Type) (c : M A) (k : A -> M B) :
  keeps p c -> (forall a, keeps p (k a)) -> keeps p (bind c k).
Proof.
  intros Hc Hk w r w'. unfold bind. specialize (Hc w).
  destruct (c w) as [[a|e] w1] eqn:E.
  - intros H. rewrite (Hk a _ _ _ H). exact (Hc _ _ eq_refl).
  - intros H. injection H as <- <-. exact (Hc _ _ eq_refl).
Qed.

Lemma keeps_forM_ (p : path) (A : Type) (l : list A) (body : A -> M unit) :
  (forall x, In x l -> keeps p (body x)) -> keeps p (forM_ l body).
Proof.
  induction l as [|x l IH]; intros H; cbn [forM_].
  - apply looks_keeps, looks_ret.
  - apply keeps_bind; [apply H; left; reflexivity|].
    intros _. apply IH. intros y Hy. apply H. right. exact Hy.
Qed.

Lemma keeps_open_write (p q : path) (content : string) :
  p <> q -> no_source (last q EmptyString) = true ->
  keeps p (open_write q content).
Proof.
  intros Hpq Hq w r w'. unfold open_write.
  destruct (write (fs w) q content) as [n|e] eqn:E; intros H; injection H as <- <-.
  - cbn [fs]. exact (proj1 (write_frame _ _ _ E Hq) p Hpq).
  - reflexivity.
Qed.

(** A successful write leaves its text at the path. *)
Lemma open_write_ok (q : path) (content : string) (w w' : world) :
  no_source (last q EmptyString) = true ->
  open_write q content w = (Ok tt, w') ->
  stat (fs w') q = Some (Some content) /\
  written w' = written w ++ [(q, content)] /\ stdout w' = stdout w.
Proof.
  intros Hq. unfold open_write.
  destruct (write (fs w) q content) as [n|e] eqn:E; [|discriminate].
  intros H. injection H as <-. cbn [fs written stdout].
  split; [|split; reflexivity].
  exact (proj1 (proj2 (write_frame _ _ _ E Hq))).
Qed.

Lemma keeps_mkdir_cmake (p : path) :
  (forall t, p <> "cmake"%string :: t) -> keeps p (path_mkdir ["cmake"]).
Proof.
  intros Hp w r w'. unfold path_mkdir.
  destruct (mkdir (fs w) ["cmake"]) as [n|e] eqn:E; intros H; injection H as <- <-;
    [|reflexivity].
  cbn [fs]. destruct (mkdir_cmake_cases _ E) as [[-> _]|[es [Hn [Hf ->]]]];
    [reflexivity|].
  rewrite Hn. unfold stat. destruct p as [|x t]; [reflexivity|].
  cbn [walk]. rewrite find_app.
  destruct (find x es) as [c|]; [reflexivity|].
  cbn [find]. destruct (String.eqb_spec "cmake" x) as [<-|_]; [|reflexivity].
  exfalso. exact (Hp t eq_refl).
Qed.

(** The emitters, by the paths they leave alone. *)
Lemma keeps_generate_platform (p : path) (configs : dict platform_config) :
  (forall t, p <> "cmake"%string :: t) ->
  keeps p (_generate_platform_cmake_files configs).
Proof.
  intros Hp. unfold _generate_platform_cmake_files.
  apply keeps_bind; [apply keeps_mkdir_cmake, Hp|]. intros _.
  apply keeps_forM_. intros [platform config] _. unfold platform_file_round.
  apply keeps_open_write; [apply Hp|].
  apply (proj1 (proj2 (target_platform_file platform))).
Qed.

Lemma keeps_core_round (p : path) (root_dir lib : string) :
  p <> [lib; "CMakeLists.txt"%string] -> keeps p (core_round root_dir lib).
Proof.
  intros Hp. unfold core_round.
  apply keeps_bind; [apply looks_keeps, looks_path_exists|].
  intros e. destruct e; cbn [negb]; [|apply looks_keeps, looks_ret].
  apply keeps_bind; [apply looks_keeps, (looks_core_sources root_dir)|].
  intros sources. apply keeps_bind; [apply looks_keeps, looks_warn|].
  intros _. apply keeps_open_write; [exact Hp|reflexivity].
Qed.

Lemma keeps_generate_core (p : path) (root_dir : string) :
  (forall lib, In lib core_libs -> p <> [lib; "CMakeLists.txt"%string]) ->
  keeps p (_generate_core_cmake_files root_dir).
Proof.
  intros Hp. unfold _generate_core_cmake_files. apply keeps_forM_.
  intros lib Hlib. apply keeps_core_round, Hp, Hlib.
Qed.

Lemma keeps_module_file_round (p : path) (root_dir : string)
      (entry : string * module_config) :
  p <> ["modules"%string; fst entry; "CMakeLists.txt"%string] ->
  keeps p (module_file_round root_dir entry).
Proof.
  destruct entry as [module config]. cbn [fst]. intros Hp.
  unfold module_file_round.
  apply keeps_bind; [apply looks_keeps, looks_module_sources|].
  intros sources. apply keeps_bind; [apply looks_keeps, looks_warn|].
  intros _. apply keeps_open_write; [exact Hp|reflexivity].
Qed.

Lemma keeps_generate_modules (p : path) (root_dir : string)
      (modules : dict module_config) :
  p <> ["modules"%string; "CMakeLists.txt"%string] ->
  (forall module, In module (keys modules) ->
                  p <> ["modules"%string; module; "CMakeLists.txt"%string]) ->
  keeps p (_generate_module_cmake_files root_dir modules).
Proof.
  intros Hp Hm. unfold _generate_module_cmake_files.
  apply keeps_bind; [apply keeps_open_write; [exact Hp|reflexivity]|].
  intros _. apply keeps_forM_. intros entry Hin.
  apply keeps_module_file_round, Hm. unfold keys. apply in_map, Hin.
Qed.

End Keeps.

(** ** Loops, dictionaries and sources *)

Module Written.
Import StrFacts ReFacts ListPattern OptionPattern Soundness.
Import DictFacts Collect Frame Twice Discovery Failures OptionsFile Rounds Collected Keeps.

Lemma append_inj_l (a s t : string) : a +++ s = a +++ t -> s = t.
Proof.
  induction a as [|c a IH]; cbn [String.append]; intros H; [exact H|].
  injection H as H. exact (IH H).
Qed.

Lemma append_inj_r (b : string) :
  forall s t, s +++ b = t +++ b -> s = t.
Proof.
  assert (Hlen : forall c u, b <> String c (u +++ b)).
  { intros c u H. apply (f_equal String.length) in H.
    cbn [String.length] in H. rewrite length_append in H. lia. }
  induction s as [|c s IH]; intros [|d t]; cbn [String.append]; intros H.
  - reflexivity.
  - exfalso. exact (Hlen _ _ H).
  - exfalso. symmetry in H. exact (Hlen _ _ H).
  - injection H as -> H. rewrite (IH _ H). reflexivity.
Qed.

Lemma forM_ok_split (A : Type) (body : A -> M unit) (l1 l2 : list A) (x : A) :
  forall w w',
    forM_ (l1 ++ x :: l2) body w = (Ok tt, w') ->
    exists w1 w2,
      forM_ l1 body w = (Ok tt, w1) /\ body x w1 = (Ok tt, w2) /\
      forM_ l2 body w2 = (Ok tt, w').
Proof.
  induction l1 as [|y l1 IH]; intros w w' H.
  - cbn [app forM_] in H. apply bind_ok in H. destruct H as [[] [w2 [Hx H]]].
    exists w, w2. repeat split; assumption.
  - cbn [app forM_] in H. apply bind_ok in H. destruct H as [[] [wy [Hy H]]].
    destruct (IH _ _ H) as [w1 [w2 [H1 [Hx H2]]]].
    exists w1, w2. split; [|split; assumption].
    cbn [forM_]. unfold bind. rewrite Hy. exact H1.
Qed.

Lemma nodup_later_keys (V : Type) (l1 l2 : list (string * V)) (k : string)
      (v : V) :
  NoDup (keys (l1 ++ (k, v) :: l2)) ->
  forall entry, In entry l2 -> fst entry <> k.
Proof.
  unfold keys. rewrite map_app. cbn [map fst]. intros H entry Hin E.
  apply NoDup_remove_2 in H. apply H, in_or_app. right.
  rewrite <- E. apply in_map, Hin.
Qed.

(** The dictionaries of the collectors file no name twice. *)
Lemma platform_keys_nodup (w w' : world) (configs : dict platform_config) :
  _parse_platform_configs w = (Ok configs, w') -> NoDup (keys configs).
Proof.
  intros Hrun.
  pose proof (@dir_loop_reading _ platform_round ["platform"] w []
                (fun _ configs => NoDup (keys configs))) as H.
  unfold _parse_platform_configs in Hrun. rewrite Hrun in H. apply H.
  - intros pre x b HP. rewrite platform_round_run.
    destruct (read (fs w) ["platform"; x; "detect.py"]).
    + split; [reflexivity|]. apply nodup_dict_set, HP.
    + destruct (is_dir (fs w) ["platform"; x; "detect.py"]); [reflexivity|].
      split; [reflexivity|exact HP].
  - constructor.
Qed.

Lemma module_keys_nodup (w w' : world) (modules : dict module_config) :
  _parse_modules w = (Ok modules, w') -> NoDup (keys modules).
Proof.
  intros Hrun.
  pose proof (@dir_loop_reading _ module_round ["modules"] w []
                (fun _ modules => NoDup (keys modules))) as H.
  unfold _parse_modules in Hrun. rewrite Hrun in H. apply H.
  - intros pre x b HP. rewrite module_round_run.
    destruct (is_dir (fs w) ["modules"; x]); [|split; [reflexivity|exact HP]].
    destruct (read (fs w) ["modules"; x; "SCsub"]).
    + split; [reflexivity|]. apply nodup_dict_set, HP.
    + destruct (is_dir (fs w) ["modules"; x; "SCsub"]); [reflexivity|].
      split; [reflexivity|]. apply nodup_dict_set, HP.
  - constructor.
Qed.

Lemma in_core_libs (lib : string) :
  In lib core_libs ->
  generated [lib] = false /\ lib <> "cmake"%string /\ lib <> "modules"%string.
Proof.
  unfold core_libs. intros H.
  destruct H as [<-|[<-|[<-|[<-|[<-|[<-|[]]]]]]];
    (split; [reflexivity|split; discriminate]).
Qed.

Lemma sources_at_glob (n : node) (p : path) :
  sources_at n p =
  flat_map (fun suffix => map (fun file => indent4 (rel_path file))
                              (glob_at n p suffix))
           exts.
Proof.
  unfold sources_at, source_lines, glob_at.
  destruct (walk n p); reflexivity.
Qed.

Lemma sources_at_agree (n n' : node) (p : path) :
  agree n n' -> p <> [] -> sources_at n' p = sources_at n p.
Proof.
  intros Ha Hp. rewrite !sources_at_glob. unfold exts. cbn [flat_map].
  rewrite !(@agree_glob _ _ Ha p); try exact Hp; unfold exts; simpl; auto 10.
Qed.

Lemma module_sources_run (module : string) (w : world) :
  exists w1,
    module_sources module w = (Ok (sources_at (fs w) ["modules"; module]), w1) /\
    fs w1 = fs w.
Proof.
  pose proof (module_sources_lines module w) as H1.
  pose proof (looks_module_sources module w) as H2.
  destruct (module_sources module w) as [r w1]. cbn [fst snd] in *.
  exists w1. rewrite H1. split; [reflexivity|exact H2].
Qed.

End Written.

(** ** Runs that stop while collecting *)

Module Aborts.
Import StrFacts ReFacts ListPattern OptionPattern Soundness.
Import DictFacts Collect Frame Twice Discovery Failures OptionsFile Rounds Collected Keeps Written.

Lemma platform_collector_raises (w : world) (x : string) :
  is_dir (fs w) ["platform"; x; "detect.py"] = true ->
  exists e, _parse_platform_configs w = (Raise e, w).
Proof.
  intros Hd. unfold _parse_platform_configs, bind, path_glob.
  apply (@foldM_raises _ _ platform_round w x).
  - intros b y. apply reads_platform_round.
  - intros b. exists IsADirectoryError. rewrite platform_round_run.
    rewrite (read_of_dir _ _ Hd), Hd. reflexivity.
  - apply (@is_dir_listed (fs w) ["platform"] x).
    apply (@is_dir_parent (fs w) ["platform"; x] "detect.py"). exact Hd.
Qed.

Lemma module_collector_raises (w : world) (x : string) :
  is_dir (fs w) ["modules"; x; "SCsub"] = true ->
  exists e, _parse_modules w = (Raise e, w).
Proof.
  intros Hd. unfold _parse_modules, bind, path_glob.
  assert (Hx : is_dir (fs w) ["modules"; x] = true).
  { apply (@is_dir_parent (fs w) ["modules"; x] "SCsub"). exact Hd. }
  apply (@foldM_raises _ _ module_round w x).
  - intros b y. apply reads_module_round.
  - intros b. exists IsADirectoryError. rewrite module_round_run.
    rewrite Hx, (read_of_dir _ _ Hd), Hd. reflexivity.
  - apply (@is_dir_listed (fs w) ["modules"] x). exact Hx.
Qed.

Lemma platform_collector_world (w : world) : snd (_parse_platform_configs w) = w.
Proof.
  pose proof (parse_platform_configs_spec w) as H.
  destruct (_parse_platform_configs w) as [[r|e] w']; destruct H as [-> _];
    reflexivity.
Qed.

Lemma bind_raise (A B : Type) (c : M A) (k : A -> M B) (w w' : world) (e : exn) :
  c w = (Raise e, w') -> bind c k w = (Raise e, w').
Proof. intros H. unfold bind. rewrite H. reflexivity. Qed.

Lemma bind_step (A B : Type) (c : M A) (k : A -> M B) (w w' : world) (a : A) :
  c w = (Ok a, w') -> bind c k w = k a w'.
Proof. intros H. unfold bind. rewrite H. reflexivity. Qed.

Lemma collection_failure_stops (root_dir : string) (w : world) :
  (forall content, read (fs w) ["SConstruct"] <> Ok content) \/
  (exists x, is_dir (fs w) ["platform"; x; "detect.py"] = true) \/
  (exists x, is_dir (fs w) ["modules"; x; "SCsub"] = true) ->
  exists e,
    convert root_dir w
    = (Raise e,
       {| fs := fs w;
          stdout := stdout w ++ ["Converting SCons to CMake..."%string];
          written := written w |}).
Proof.
  intros Hbad. unfold convert.
  set (w1 := {| fs := fs w;
                stdout := stdout w ++ ["Converting SCons to CMake..."%string];
                written := written w |}).
  rewrite (@bind_step _ _ (print "Converting SCons to CMake...") _ w w1 tt)
    by reflexivity.
  destruct (read (fs w) ["SConstruct"]) as [content|e] eqn:Hread.
  - rewrite (@bind_step _ _ _parse_sconstruct _ w1 w1
               (fold_left parse_line (split newline content) []))
      by (rewrite parse_sconstruct_run; cbn [fs w1]; rewrite Hread; reflexivity).
    pose proof (platform_collector_world w1) as Hw2.
    destruct (_parse_platform_configs w1) as [[configs|e] w2] eqn:H2;
      cbn [snd] in Hw2; subst w2.
    + rewrite (@bind_step _ _ _ _ _ _ _ H2).
      destruct Hbad as [Hbad|[[x Hx]|[x Hx]]].
      * exfalso. exact (Hbad content eq_refl).
      * destruct (@platform_collector_raises w1 x Hx) as [e He].
        rewrite He in H2. discriminate.
      * destruct (@module_collector_raises w1 x Hx) as [e He].
        exists e. apply bind_raise. exact He.
    + exists e. apply bind_raise. exact H2.
  - exists e. apply bind_raise. rewrite parse_sconstruct_run.
    cbn [fs w1]. rewrite Hread. reflexivity.
Qed.

(** X15. A run writes nothing unless all three collectors return: when the
    options file cannot be read, or some platform's detect.py is a
    directory, or some module's SCsub is a directory, the run raises after
    its first message, with the tree as it was and no file written. *)
Theorem convert_writes_nothing_when_collection_fails
        (root_dir : string) (w : world) :
  (forall content, read (fs w) ["SConstruct"] <> Ok content) \/
  (exists x, is_dir (fs w) ["platform"; x; "detect.py"] = true) \/
  (exists x, is_dir (fs w) ["modules"; x; "SCsub"] = true) ->
  exists e,
    convert root_dir w
    = (Raise e,
       {| fs := fs w;
          stdout := stdout w ++ ["Converting SCons to CMake..."%string];
          written := written w |}).
Proof. exact (@collection_failure_stops root_dir w). Qed.

Lemma convert_writes_nothing_when_collection_fails_witness :
  exists e,
    convert "proj" (fresh scsub_dir_tree)
    = (Raise e,
       {| fs := fs (fresh scsub_dir_tree);
          stdout := stdout (fresh scsub_dir_tree)
                    ++ ["Converting SCons to CMake..."%string];
          written := written (fresh scsub_dir_tree) |}).
Proof.
  apply (@convert_writes_nothing_when_collection_fails
           "proj" (fresh scsub_dir_tree)).
  right. right. exists "m"%string. reflexivity.
Defined.

End Aborts.

(** ** The entry point and the module files *)

Module EntryPoint.
Import StrFacts ReFacts ListPattern OptionPattern Soundness.
Import DictFacts Collect Frame Twice Discovery Failures OptionsFile Rounds Collected Keeps Written Aborts.

Lemma main_run (a r : string) (w : world) :
  main [a; r] w =
  if is_dir (fs w) [] then
    match convert (pathlib_str r) w with
    | (Ok _, w1) =>
        (Ok 0, {| fs := fs w1;
                  stdout := stdout w1 ++ ["Done! CMake files have been generated."%string];
                  written := written w1 |})
    | (Raise e, w1) => (Raise e, w1)
    end
  else
    (Ok 1, {| fs := fs w;
              stdout := stdout w ++ ["Error: " +++ r +++ " is not a directory"];
              written := written w |}).
Proof.
  unfold main, bind, path_is_dir, print, ret.
  destruct (is_dir (fs w) []); cbn [negb]; [|reflexivity].
  destruct (convert r w) as [[[]|e] w1]; reflexivity.
Qed.

Lemma main_usage (argv : list string) (w : world) :
  length argv <> 2 ->
  main argv w =
  (Ok 1, {| fs := fs w;
            stdout := stdout w ++ ["Usage: scons_to_cmake.py <godot_root_dir>"%string];
            written := written w |}).
Proof.
  intros H. destruct argv as [|a [|r [|x rest]]]; try reflexivity.
  exfalso. apply H. reflexivity.
Qed.

End EntryPoint.

Module ModuleEmitter.
Import StrFacts ReFacts ListPattern OptionPattern Soundness.
Import PlatformEmitter.

Lemma in_indent8 (line : string) (items : list string) :
  startswith " " line = false -> ~ In line (map indent8 items).
Proof.
  intros H Hin. apply in_map_iff in Hin. destruct Hin as [x [<- _]].
  discriminate H.
Qed.

Ltac cases_in H :=
  repeat match type of H with
         | In _ (_ ++ _) => apply in_app_or in H; destruct H as [H|H]
         | In _ (_ :: _) => destruct H as [H|H]
         | In _ [] => destruct H
         | In _ (if ?b then _ else _) => destruct b
         | _ = _ => cbn [String.append] in H; discriminate H
         end.

(** X18. In a module's file the add_library line is there exactly when
    sources were found, the target_link_libraries block exactly when the
    manifest named dependencies, and the target_include_directories block
    always: a module without sources gets include directories for a
    library that the file does not declare. *)
Theorem module_file_blocks (module : string) (config : module_config)
        (files : list string) :
  (In ("add_library(" +++ module +++ " STATIC ${MODULE_SOURCES})")
      (module_content module config (map indent4 files))
   <-> files <> []) /\
  In ("target_include_directories(" +++ module)
     (module_content module config (map indent4 files)) /\
  (In ("target_link_libraries(" +++ module)
      (module_content module config (map indent4 files))
   <-> m_deps config <> []).
Proof.
  unfold module_content, deps_block. split; [|split].
  - split.
    + intros H ->. cbn [map some] in H. cases_in H.
      exact (@in_indent8 ("add_library(" +++ module +++ " STATIC ${MODULE_SOURCES})")
               (m_deps config) eq_refl H).
    + intros H. destruct files as [|f files]; [contradiction|].
      cbn [map some]. apply in_or_app. right. apply in_or_app. left.
      apply in_or_app. right. right. right. left. reflexivity.
  - apply in_or_app. right. apply in_or_app. right. apply in_or_app. left.
    left. reflexivity.
  - split.
    + intros H Hd. rewrite Hd in H. cbn [some] in H. cases_in H.
      exact (@in_indent4 ("target_link_libraries(" +++ module) files eq_refl H).
    + intros H. destruct (m_deps config) as [|dep deps]; [contradiction|].
      cbn [some]. apply in_or_app. right. apply in_or_app. right.
      apply in_or_app. right. left. reflexivity.
Qed.

End ModuleEmitter.

(** ** The root file, untouched paths, sources found *)

Module RootEmitter.
Import StrFacts ReFacts ListPattern OptionPattern Soundness.
Import DictFacts OptionsFile.

Lemma string_option_lines (o : opt) :
  opt_type o = "string"%string ->
  exists line, option_lines o = [line] /\ startswith "set(" line = true /\
               startswith "option(" line = false /\
               startswith "set_property(" line = false.
Proof.
  destruct o as [n d b|n d v vs|n d v]; try discriminate. intros _.
  eexists. split; [reflexivity|]. repeat split.
Qed.

Lemma string_options_lines (l : list opt) :
  Forall (fun o => opt_type o = "string"%string) l ->
  length (flat_map option_lines l) = length l /\
  Forall (fun line => startswith "set(" line = true /\
                      startswith "option(" line = false /\
                      startswith "set_property(" line = false)
         (flat_map option_lines l).
Proof.
  induction 1 as [|o l Ho _ [IH1 IH2]]; [split; [reflexivity|constructor]|].
  destruct (@string_option_lines _ Ho) as [line [E Hl]].
  cbn [flat_map]. rewrite E. cbn [app length]. rewrite IH1.
  split; [reflexivity|]. constructor; [exact Hl|exact IH2].
Qed.

Lemma collected_options_are_strings (w w' : world) (options : dict opt) :
  _parse_sconstruct w = (Ok options, w') ->
  Forall (fun o => opt_type o = "string"%string) (values options).
Proof.
  rewrite parse_sconstruct_run.
  destruct (read (fs w) ["SConstruct"]) as [content|e]; [|discriminate].
  intros H. injection H as <- _.
  destruct (@fold_parse_line (split newline content) (split newline content)
              (fun line H => H) [])
    as [_ Hd].
  { split; [constructor|intros name o []]. }
  apply Forall_forall. intros o Hin. unfold values in Hin.
  apply in_map_iff in Hin. destruct Hin as [[name o'] [<- Hin]].
  destruct (Hd name o' Hin) as [_ [line [_ [_ Ho]]]].
  exact (parse_option_only_string _ Ho).
Qed.

(** X19. For the options that the options collector returns, the root
    file has one line per option, a set command with CACHE STRING, and no
    line of it is an option command or a set_property command: the
    emitter's branches for boolean and enumerated options are never
    taken. *)
Theorem root_file_has_one_set_line_per_option
        (w w' : world) (options : dict opt) :
  _parse_sconstruct w = (Ok options, w') ->
  length (root_content options) = 49 + length options /\
  Forall (fun line => startswith "set(" line = true)
         (flat_map option_lines (values options)) /\
  Forall (fun line => startswith "option(" line = false /\
                      startswith "set_property(" line = false)
         (root_content options).
Proof.
  intros H. pose proof (@collected_options_are_strings _ _ _ H) as Hs.
  destruct (@string_options_lines _ Hs) as [Hlen Hall].
  split; [|split].
  - unfold root_content. rewrite !length_app, Hlen.
    unfold values. rewrite length_map. cbn [length]. lia.
  - apply Forall_forall. intros line Hin.
    exact (proj1 (proj1 (Forall_forall _ _) Hall line Hin)).
  - unfold root_content. apply Forall_app. split; [|apply Forall_app; split].
    + repeat constructor.
    + apply Forall_forall. intros line Hin.
      exact (proj2 (proj1 (Forall_forall _ _) Hall line Hin)).
    + repeat constructor.
Qed.

Lemma root_file_has_one_set_line_per_option_witness :
  length (root_content [("p"%string, StringOpt "p" "Other" "y")]) = 49 + 1 /\
  Forall (fun line => startswith "set(" line = true)
         (flat_map option_lines
                   (values [("p"%string, StringOpt "p" "Other" "y")])) /\
  Forall (fun line => startswith "option(" line = false /\
                      startswith "set_property(" line = false)
         (root_content [("p"%string, StringOpt "p" "Other" "y")]).
Proof.
  apply (@root_file_has_one_set_line_per_option
           (fresh declared_twice_tree) (fresh declared_twice_tree)
           [("p"%string, StringOpt "p" "Other" "y")]).
  vm_compute. reflexivity.
Defined.

End RootEmitter.

Module Untouched.
Import StrFacts ReFacts ListPattern OptionPattern Soundness.
Import DictFacts Collect Frame Twice Discovery Failures OptionsFile Rounds Collected Keeps Written Aborts.

Lemma reads_keeps (p : path) (A : Type) (c : M A) : reads c -> keeps p c.
Proof.
  intros H w r w' E. specialize (H w). rewrite E in H. cbn [snd] in H.
  rewrite H. reflexivity.
Qed.

Lemma module_collector_world (w : world) : snd (_parse_modules w) = w.
Proof.
  pose proof (parse_modules_spec w) as H.
  destruct (_parse_modules w) as [[r|e] w']; destruct H as [-> _]; reflexivity.
Qed.

Lemma options_collector_world (w : world) : snd (_parse_sconstruct w) = w.
Proof.
  rewrite parse_sconstruct_run. destruct (read (fs w) ["SConstruct"]); reflexivity.
Qed.

(** Making the directory cmake changes nothing at another path. *)
Lemma keeps_mkdir_cmake_elsewhere (p : path) :
  p <> ["cmake"%string] -> keeps p (path_mkdir ["cmake"]).
Proof.
  intros Hp w r w'. unfold path_mkdir.
  destruct (mkdir (fs w) ["cmake"]) as [n|e] eqn:E; intros H; injection H as <- <-;
    [|reflexivity].
  cbn [fs]. destruct (mkdir_cmake_cases _ E) as [[-> _]|[es [Hn [Hf ->]]]];
    [reflexivity|].
  rewrite Hn. unfold stat. destruct p as [|x t]; [reflexivity|].
  cbn [walk]. rewrite find_app.
  destruct (find x es) as [c|] eqn:Hx; [reflexivity|].
  cbn [find]. destruct (String.eqb_spec "cmake" x) as [<-|_]; [|reflexivity].
  destruct t as [|y t]; [contradiction|]. reflexivity.
Qed.

Lemma convert_keeps (root_dir : string) (p : path) :
  p <> ["CMakeLists.txt"%string] -> p <> ["cmake"%string] ->
  (forall d, p <> ["cmake"%string; "platform_" +++ d +++ ".cmake"]) ->
  (forall lib, In lib core_libs -> p <> [lib; "CMakeLists.txt"%string]) ->
  p <> ["modules"%string; "CMakeLists.txt"%string] ->
  (forall m, p <> ["modules"%string; m; "CMakeLists.txt"%string]) ->
  keeps p (convert root_dir).
Proof.
  intros Hroot Hcmake Hplat Hlib Hmods Hmod. unfold convert.
  apply keeps_bind; [apply looks_keeps, looks_print|]. intros _.
  apply keeps_bind; [apply reads_keeps; exact options_collector_world|].
  intros options.
  apply keeps_bind; [apply reads_keeps; exact platform_collector_world|].
  intros configs.
  apply keeps_bind; [apply reads_keeps; exact module_collector_world|].
  intros modules.
  apply keeps_bind.
  { apply keeps_open_write; [exact Hroot|reflexivity]. }
  intros _. apply keeps_bind.
  { unfold _generate_platform_cmake_files.
    apply keeps_bind; [apply keeps_mkdir_cmake_elsewhere, Hcmake|]. intros _.
    apply keeps_forM_. intros [d c] _. unfold platform_file_round.
    apply keeps_open_write; [apply Hplat|].
    apply (proj1 (proj2 (target_platform_file d))). }
  intros _. apply keeps_bind; [apply keeps_generate_core, Hlib|].
  intros _. apply keeps_generate_modules; [exact Hmods|].
  intros m _. apply Hmod.
Qed.

(** X20. Whatever its outcome, a run changes nothing at a path other than
    the root CMakeLists.txt, the directory cmake and the platform files in
    it, the CMakeLists.txt of the six libraries, modules/CMakeLists.txt and
    the CMakeLists.txt of the module directories: every other file keeps
    its text and every other directory stays one. *)
Theorem convert_touches_only_its_files (root_dir : string) (w : world)
        (p : path) :
  p <> ["CMakeLists.txt"%string] -> p <> ["cmake"%string] ->
  (forall d, p <> ["cmake"%string; "platform_" +++ d +++ ".cmake"]) ->
  (forall lib, In lib core_libs -> p <> [lib; "CMakeLists.txt"%string]) ->
  p <> ["modules"%string; "CMakeLists.txt"%string] ->
  (forall m, p <> ["modules"%string; m; "CMakeLists.txt"%string]) ->
  stat (fs (snd (convert root_dir w))) p = stat (fs w) p.
Proof.
  intros Hroot Hcmake Hplat Hlib Hmods Hmod.
  destruct (convert root_dir w) as [r w'] eqn:E. cbn [snd].
  exact (@convert_keeps root_dir p Hroot Hcmake Hplat Hlib Hmods Hmod w r w' E).
Qed.

Lemma convert_touches_only_its_files_witness :
  stat (fs (snd (convert "proj" (fresh sample_tree)))) ["core"; "a.cpp"]
  = stat (fs (fresh sample_tree)) ["core"; "a.cpp"].
Proof.
  apply (@convert_touches_only_its_files "proj" (fresh sample_tree)
           ["core"%string; "a.cpp"%string]).
  - discriminate.
  - discriminate.
  - intros d. discriminate.
  - intros lib _. discriminate.
  - discriminate.
  - intros m. discriminate.
Defined.

End Untouched.

Module SourcesFound.
Import StrFacts ReFacts ListPattern OptionPattern Soundness.
Import Collect Discovery.

Lemma node_entries_ind (P : node -> Prop) :
  (forall content, P (File content)) ->
  (forall es, Forall (fun entry => P (snd entry)) es -> P (Dir es)) ->
  forall n, P n.
Proof.
  intros HF HD. fix IH 1. intros [content|es]; [apply HF|]. apply HD.
  induction es as [|[x c] es IHes]; constructor; [apply IH|exact IHes].
Qed.

Lemma find_in (x : string) (es : list (string * node)) (c : node) :
  find x es = Some c -> In (x, c) es.
Proof.
  induction es as [|[y m] es IH]; cbn [find]; [discriminate|].
  destruct (String.eqb_spec y x) as [->|_].
  - intros H. injection H as ->. left. reflexivity.
  - intros H. right. exact (IH H).
Qed.

(** Every path below a directory with no hidden component and a name that
    matches is among the paths the glob gives. *)
Lemma glob_complete (suffix : string) (p : path) :
  forall d c,
    walk d p = Ok c -> p <> [] ->
    Forall (fun x => ishidden x = false) p ->
    fnmatch_star suffix (last p EmptyString) = true ->
    In p (glob_rec suffix d).
Proof.
  induction p as [|x p IH]; intros d c Hw Hne Hh Hm; [contradiction|].
  destruct d as [content|es]; [discriminate|]. cbn [walk] in Hw.
  destruct (find x es) as [c0|] eqn:Hx; [|discriminate].
  inversion Hh as [|? ? Hhx Hhp]; subst.
  rewrite glob_rec_dir. apply in_or_app.
  destruct p as [|y p].
  - left. apply (in_map (fun x => [x])). apply filter_In. split.
    + exact (find_in_names _ _ Hx).
    + cbn [last] in Hm. rewrite Hhx, Hm. reflexivity.
  - right. apply in_flat_map. exists (x, c0). split; [exact (find_in _ _ Hx)|].
    unfold below. destruct c0 as [content|es0]; [discriminate|].
    cbn [is_dir_node]. rewrite Hhx. cbn [negb andb]. apply (in_map (cons x)).
    apply (IH (Dir es0) c Hw); [discriminate|exact Hhp|exact Hm].
Qed.

(** Every path the glob gives has no hidden component and a name that
    matches. *)
Lemma glob_sound (suffix : string) (d : node) :
  forall p,
    In p (glob_rec suffix d) ->
    p <> [] /\ Forall (fun x => ishidden x = false) p /\
    fnmatch_star suffix (last p EmptyString) = true.
Proof.
  induction d as [content|es IH] using node_entries_ind; intros p Hin;
    [destruct Hin|].
  rewrite glob_rec_dir in Hin. apply in_app_or in Hin. destruct Hin as [Hin|Hin].
  - apply in_map_iff in Hin. destruct Hin as [x [<- Hx]].
    apply filter_In in Hx. destruct Hx as [_ Hx].
    apply andb_true_iff in Hx. destruct Hx as [Hh Hm].
    apply negb_true_iff in Hh.
    split; [discriminate|]. split; [|exact Hm].
    constructor; [exact Hh|constructor].
  - apply in_flat_map in Hin. destruct Hin as [[x c] [Hentry Hin]].
    unfold below in Hin.
    destruct (is_dir_node c && negb (ishidden x)) eqn:Hc; [|destruct Hin].
    apply andb_true_iff in Hc. destruct Hc as [_ Hh].
    apply negb_true_iff in Hh.
    apply in_map_iff in Hin. destruct Hin as [p' [<- Hp']].
    pose proof (proj1 (Forall_forall _ _) IH (x, c) Hentry p' Hp')
      as [Hne [Hall Hm]].
    split; [discriminate|]. split; [constructor; assumption|].
    destruct p' as [|y p']; [contradiction|]. exact Hm.
Qed.

End SourcesFound.

(** ** Enumerated options *)

Module EnumOptions.
Import StrFacts ReFacts ListPattern OptionPattern Soundness.
Import DictFacts OptionsFile RootEmitter.




End EnumOptions.

(** ** Platforms without a descriptor, modules without a manifest *)

Module Asymmetry.
Import StrFacts ReFacts ListPattern OptionPattern Soundness.
Import DictFacts Collect OptionsFile Rounds Collected.

Lemma read_missing (n : node) (p : path) :
  exists_ n p = false -> exists e, read n p = Raise e.
Proof.
  unfold exists_, read. destruct (walk n p) as [c|e]; [discriminate|].
  intros _. exists e. reflexivity.
Qed.

Lemma not_in_keys (V : Type) (x : string) (d : dict V) :
  dict_get x d = None -> ~ In x (keys d).
Proof.
  induction d as [|[k v] d IH]; cbn [dict_get keys map fst]; [intros _ []|].
  destruct (String.eqb_spec k x) as [->|Hne]; [discriminate|].
  intros H [E|Hin]; [exact (Hne E)|exact (IH H Hin)].
Qed.

(** C6. Every mapping that the platform collector returns has no entry for
    a directory below platform that has no detect.py; every mapping that
    the module collector returns has an entry for every directory below
    modules, filed under the directory's name and holding that name, and
    when the directory has no SCsub the entry's sources, dependencies,
    defines and include paths are empty. Each half holds of every tree on
    its own. *)
Theorem collection_asymmetry (w : world) :
  (forall configs w' d,
      _parse_platform_configs w = (Ok configs, w') ->
      is_dir (fs w) ["platform"; d] = true ->
      exists_ (fs w) ["platform"; d; "detect.py"] = false ->
      dict_get d configs = None /\ ~ In d (keys configs)) /\
  (forall modules w' e,
      _parse_modules w = (Ok modules, w') ->
      is_dir (fs w) ["modules"; e] = true ->
      exists config,
        dict_get e modules = Some config /\ In e (keys modules) /\
        m_name config = e /\
        (exists_ (fs w) ["modules"; e; "SCsub"] = false ->
         m_sources config = [] /\ m_deps config = [] /\
         m_defines config = [] /\ m_includes config = [])).
Proof.
  split.
  - intros configs w' d Hrun _ Hno.
    destruct (@platform_entries _ _ _ Hrun) as [_ Hget]. specialize (Hget d).
    destruct (@read_missing _ _ Hno) as [e He]. rewrite He in Hget.
    split; [exact Hget|exact (@not_in_keys _ _ _ Hget)].
  - intros modules w' e Hrun Hd.
    destruct (@module_entries _ _ _ Hrun) as [_ Hget]. specialize (Hget e).
    rewrite Hd in Hget. eexists. split; [exact Hget|].
    split.
    { apply dict_get_in in Hget. unfold keys.
      exact (in_map fst _ _ Hget). }
    split.
    { destruct (read (fs w) ["modules"; e; "SCsub"]); reflexivity. }
    intros Hno. destruct (@read_missing _ _ Hno) as [x Hx]. rewrite Hx.
    repeat split.
Qed.

Lemma collection_asymmetry_witness :
  (dict_get "unfinished" sample_configs = None /\
   ~ In "unfinished"%string (keys sample_configs)) /\
  exists config,
    dict_get "bare" sample_modules = Some config /\
    In "bare"%string (keys sample_modules) /\
    m_name config = "bare"%string /\
    (exists_ sample_tree ["modules"; "bare"; "SCsub"] = false ->
     m_sources config = [] /\ m_deps config = [] /\
     m_defines config = [] /\ m_includes config = []).
Proof.
  split.
  - apply (proj1 (collection_asymmetry (fresh sample_tree))
             sample_configs (fresh sample_tree) "unfinished");
      vm_compute; reflexivity.
  - apply (proj2 (collection_asymmetry (fresh sample_tree))
             sample_modules (fresh sample_tree) "bare");
      vm_compute; reflexivity.
Defined.

End Asymmetry.

(** ** The files of the platform emitter *)

Module PlatformFiles.
Import StrFacts ReFacts ListPattern OptionPattern Soundness.
Import DictFacts Collect Frame Twice Discovery Failures OptionsFile Rounds Collected Keeps Written.
Import PlatformEmitter.

Lemma one_line_append (a b : string) :
  one_line (a +++ b) = one_line a && one_line b.
Proof. unfold one_line. rewrite mem_char_app. apply negb_orb. Qed.

Lemma split_one_line (s : string) :
  one_line s = true -> split newline s = [s].
Proof.
  unfold one_line. induction s as [|c s IH]; cbn [mem_char split];
    [reflexivity|].
  rewrite negb_orb, andb_true_iff. intros [Hc Hs].
  rewrite Ascii.eqb_sym. destruct (newline =? c)%char; [discriminate|].
  rewrite (IH Hs). reflexivity.
Qed.

Lemma split_append_line (a rest : string) :
  one_line a = true ->
  split newline (a +++ nl +++ rest) = a :: split newline rest.
Proof.
  change (nl +++ rest) with (String newline rest).
  unfold one_line. induction a as [|c a IH]; cbn [mem_char String.append split].
  - intros _. reflexivity.
  - rewrite negb_orb, andb_true_iff. intros [Hc Hs].
    rewrite Ascii.eqb_sym. destruct (newline =? c)%char; [discriminate|].
    rewrite (IH Hs). reflexivity.
Qed.

(** Lines without a line break are the lines of their joined text. *)
Lemma split_join (lines : list string) :
  lines <> [] -> Forall (fun s => one_line s = true) lines ->
  split newline (join nl lines) = lines.
Proof.
  induction lines as [|x lines IH]; [congruence|]. intros _ Hall.
  inversion Hall as [|x' l' Hx Hrest]; subst.
  destruct lines as [|y lines].
  - cbn [join concat]. apply split_one_line, Hx.
  - change (join nl (x :: y :: lines)) with (x +++ nl +++ join nl (y :: lines)).
    rewrite (@split_append_line _ _ Hx), IH; [reflexivity|discriminate|exact Hrest].
Qed.

Lemma one_line_indent4 (items : list string) :
  Forall (fun s => one_line s = true) items ->
  Forall (fun s => one_line s = true) (map indent4 items).
Proof.
  intros H. apply Forall_forall. intros line Hin.
  apply in_map_iff in Hin. destruct Hin as [x [<- Hx]].
  rewrite Forall_forall in H. unfold indent4. rewrite one_line_append.
  rewrite (H x Hx). reflexivity.
Qed.

Lemma one_line_block (opener : string) (items closing : list string) :
  one_line opener = true ->
  Forall (fun s => one_line s = true) items ->
  Forall (fun s => one_line s = true) closing ->
  Forall (fun s => one_line s = true) ([opener] ++ map indent4 items ++ closing).
Proof.
  intros Ho Hi Hc. apply Forall_app. split; [repeat constructor; exact Ho|].
  apply Forall_app. split; [apply one_line_indent4, Hi|exact Hc].
Qed.

Lemma one_line_content (platform : string) (config : platform_config) :
  one_line platform = true ->
  Forall (fun s => one_line s = true)
         (p_flags config ++ p_defines config ++ p_libs config) ->
  Forall (fun s => one_line s = true) (platform_content platform config).
Proof.
  intros Hp Hall. apply Forall_app in Hall. destruct Hall as [Hf Hall].
  apply Forall_app in Hall. destruct Hall as [Hd Hl].
  unfold platform_content, flags_block, defines_block, libs_block.
  apply Forall_app. split.
  { repeat constructor. rewrite one_line_append, Hp. reflexivity. }
  apply Forall_app. split.
  { destruct (some (p_flags config)); [|constructor].
    apply one_line_block; [reflexivity|exact Hf|repeat constructor]. }
  apply Forall_app. split.
  { destruct (some (p_defines config)); [|constructor].
    apply one_line_block; [reflexivity|exact Hd|repeat constructor]. }
  destruct (some (p_libs config)); [|constructor].
  apply one_line_block; [reflexivity|exact Hl|repeat constructor].
Qed.

(** The rounds of the platform emitter that all return have written one
    file per entry, in the order of the mapping, and printed nothing. *)
Lemma platform_rounds_trace (configs : dict platform_config) :
  forall w w',
    forM_ configs platform_file_round w = (Ok tt, w') ->
    written w' = written w ++ map platform_file configs /\
    stdout w' = stdout w.
Proof.
  induction configs as [|[platform config] configs IH]; intros w w' H.
  - cbn [forM_] in H. injection H as <-. cbn [map]. rewrite app_nil_r. auto.
  - cbn [forM_] in H. apply bind_ok in H. destruct H as [[] [w1 [Hx H]]].
    unfold platform_file_round in Hx.
    destruct (@open_write_ok _ _ _ _ (proj1 (proj2 (target_platform_file platform))) Hx)
      as [_ [Hw Hs]].
    destruct (@IH _ _ H) as [Hw' Hs']. rewrite Hw', Hw, Hs', Hs.
    cbn [map]. rewrite <- app_assoc. split; reflexivity.
Qed.

Lemma mkdir_run (p : path) (w w' : world) (r : result unit) :
  path_mkdir p w = (r, w') -> written w' = written w /\ stdout w' = stdout w.
Proof.
  unfold path_mkdir. destruct (mkdir (fs w) p); intros H; injection H as <- <-;
    split; reflexivity.
Qed.

Lemma platform_file_path_inj (d d' : string) :
  ["cmake"%string; "platform_" +++ d +++ ".cmake"]
  = ["cmake"%string; "platform_" +++ d' +++ ".cmake"] -> d = d'.
Proof.
  intros E. injection E as E. exact (append_inj_r _ _ _ E).
Qed.

(** The file of an entry, after rounds that all return, for a mapping that
    files no name twice. *)
Lemma platform_rounds_file (configs : dict platform_config) (w w' : world)
      (platform : string) (config : platform_config) :
  NoDup (keys configs) -> In (platform, config) configs ->
  forM_ configs platform_file_round w = (Ok tt, w') ->
  read (fs w') ["cmake"; "platform_" +++ platform +++ ".cmake"]
  = Ok (join nl (platform_content platform config)).
Proof.
  intros Hnd Hin H. apply in_split in Hin. destruct Hin as [l1 [l2 ->]].
  apply forM_ok_split in H. destruct H as [wa [wb [_ [Hx Hrest]]]].
  assert (K : keeps ["cmake"%string; "platform_" +++ platform +++ ".cmake"]
                    (forM_ l2 platform_file_round)).
  { apply keeps_forM_. intros [d' c'] Hin. unfold platform_file_round.
    apply keeps_open_write.
    - intros E. apply platform_file_path_inj in E.
      apply (@nodup_later_keys _ _ _ _ _ Hnd _ Hin). cbn [fst]. symmetry. exact E.
    - apply (proj1 (proj2 (target_platform_file d'))). }
  apply read_stat. rewrite (K _ _ _ Hrest).
  unfold platform_file_round in Hx.
  exact (proj1 (@open_write_ok _ _ _ _
                  (proj1 (proj2 (target_platform_file platform))) Hx)).
Qed.

(** C7. When the platform emitter returns, for a mapping that files no name
    twice and whose names hold no slash, it has written one file per
    entry and nothing else, in the order of the mapping, each at
    cmake/platform_NAME.cmake, and has printed nothing. For every platform
    configuration of the mapping the file then holds the emitter's lines
    joined by line breaks; when neither the name nor an item holds a line
    break these are the lines of the file's text. Among the lines, the one
    that opens the compile-options block is there exactly when the flags
    are not empty, the one that opens the compile-definitions block exactly
    when the defines are not empty, the one that opens the link-libraries
    block exactly when the libs are not empty; with all three empty the
    lines are the three header lines alone. *)
Theorem platform_files_blocks_iff_nonempty
        (configs : dict platform_config) (w w' : world) :
  NoDup (keys configs) ->
  Forall (fun platform => no_slash platform = true) (keys configs) ->
  _generate_platform_cmake_files configs w = (Ok tt, w') ->
  written w' = written w ++ map platform_file configs /\
  stdout w' = stdout w /\
  forall platform config,
    In (platform, config) configs ->
    let lines := platform_content platform config in
    read (fs w') ["cmake"; "platform_" +++ platform +++ ".cmake"]
    = Ok (join nl lines) /\
    (one_line platform = true ->
     Forall (fun s => one_line s = true)
            (p_flags config ++ p_defines config ++ p_libs config) ->
     split newline (join nl lines) = lines) /\
    (In "add_compile_options(" lines <-> p_flags config <> []) /\
    (In "add_compile_definitions(" lines <-> p_defines config <> []) /\
    (In "target_link_libraries(godot PRIVATE" lines <-> p_libs config <> []) /\
    (p_flags config = [] -> p_defines config = [] -> p_libs config = [] ->
     lines = ["# Platform configuration for " +++ platform; blank;
              "# Compiler flags"]).
Proof.
  intros Hnd _ H. unfold _generate_platform_cmake_files in H.
  apply bind_ok in H. destruct H as [[] [wm [Hm H]]].
  destruct (@mkdir_run _ _ _ _ Hm) as [Hmw Hms].
  destruct (@platform_rounds_trace _ _ _ H) as [Hw Hs].
  split; [rewrite Hw, Hmw; reflexivity|].
  split; [rewrite Hs, Hms; reflexivity|].
  intros platform config Hin lines.
  split; [exact (@platform_rounds_file _ _ _ _ _ Hnd Hin H)|].
  split.
  { intros Hp Hall. apply split_join; [discriminate|].
    exact (@one_line_content _ _ Hp Hall). }
  destruct (platform_blocks_iff_nonempty platform config) as [Hf [Hd [Hl _]]].
  split; [exact Hf|]. split; [exact Hd|]. split; [exact Hl|].
  intros Ef Ed El. unfold lines, platform_content.
  rewrite Ef, Ed, El. reflexivity.
Qed.

Lemma platform_files_blocks_iff_nonempty_witness :
  written (snd (_generate_platform_cmake_files two_configs (fresh (Dir []))))
  = [(["cmake"; "platform_linuxbsd.cmake"],
      join nl ["# Platform configuration for linuxbsd"; blank;
               "# Compiler flags";
               "add_compile_options("; "    -O2"; "    -Wall"; ")"; blank;
               "add_compile_definitions("; "    X11_ENABLED"; ")"; blank;
               "target_link_libraries(godot PRIVATE"; "    GL"; ")"]);
     (["cmake"; "platform_bare.cmake"],
      join nl ["# Platform configuration for bare"; blank;
               "# Compiler flags"])]%string /\
  read (fs (snd (_generate_platform_cmake_files two_configs (fresh (Dir [])))))
       ["cmake"; "platform_bare.cmake"]
  = Ok (join nl ["# Platform configuration for bare"; blank;
                 "# Compiler flags"]%string).
Proof.
  assert (Hnd : NoDup (keys two_configs)).
  { cbn. repeat constructor; simpl; intuition discriminate. }
  assert (Hns : Forall (fun platform => no_slash platform = true)
                       (keys two_configs)).
  { cbn. repeat constructor. }
  assert (Hrun : _generate_platform_cmake_files two_configs (fresh (Dir []))
                 = (Ok tt, snd (_generate_platform_cmake_files two_configs
                                  (fresh (Dir []))))).
  { vm_compute. reflexivity. }
  destruct (@platform_files_blocks_iff_nonempty _ _ _ Hnd Hns Hrun) as [Hw [_ Hfile]].
  split.
  - exact Hw.
  - exact (proj1 (Hfile "bare"%string _ (or_intror (or_introl eq_refl)))).
Defined.

End PlatformFiles.

(** ** What a computation writes *)

Module Traces.
Import StrFacts ReFacts ListPattern OptionPattern Soundness.
Import DictFacts Collect Frame Twice Discovery Failures OptionsFile Rounds Collected Keeps Written.

Section Only.
Variable P : path * string -> Prop.

Lemma writes_only_look (A : Type) (f : world -> result A) :
  writes_only P (fun w => (f w, w)).
Proof.
  intros w r w' H. injection H as _ <-. exists []. rewrite app_nil_r.
  split; [reflexivity|constructor].
Qed.

Lemma writes_only_ret (A : Type) (a : A) : writes_only P (ret a).
Proof. exact (writes_only_look (fun _ => Ok a)). Qed.

Lemma writes_only_print (line : string) : writes_only P (print line).
Proof.
  intros w r w' H. unfold print in H. injection H as _ <-. exists [].
  cbn [written]. rewrite app_nil_r. split; [reflexivity|constructor].
Qed.

Lemma writes_only_mkdir (p : path) : writes_only P (path_mkdir p).
Proof.
  intros w r w' H. unfold path_mkdir in H.
  destruct (mkdir (fs w) p); injection H as _ <-; exists [];
    cbn [written]; rewrite app_nil_r; (split; [reflexivity|constructor]).
Qed.

Lemma writes_only_open_write (q : path) (content : string) :
  P (q, content) -> writes_only P (open_write q content).
Proof.
  intros HP w r w' H. unfold open_write in H.
  destruct (write (fs w) q content); injection H as _ <-.
  - exists [(q, content)]. cbn [written]. split; [reflexivity|].
    constructor; [exact HP|constructor].
  - exists []. rewrite app_nil_r. split; [reflexivity|constructor].
Qed.

Lemma writes_only_bind (A B : Type) (c : M A) (k : A -> M B) :
  writes_only P c -> (forall a, writes_only P (k a)) ->
  writes_only P (bind c k).
Proof.
  intros Hc Hk w r w' H. unfold bind in H.
  destruct (c w) as [[a|e] w1] eqn:E.
  - destruct (Hc _ _ _ E) as [l1 [E1 F1]].
    destruct (Hk a _ _ _ H) as [l2 [E2 F2]].
    exists (l1 ++ l2). rewrite E2, E1, app_assoc.
    split; [reflexivity|]. apply Forall_app. split; assumption.
  - injection H as _ <-. exact (Hc _ _ _ E).
Qed.

Lemma writes_only_forM_ (A : Type) (l : list A) (body : A -> M unit) :
  (forall x, In x l -> writes_only P (body x)) -> writes_only P (forM_ l body).
Proof.
  induction l as [|x l IH]; intros H; cbn [forM_].
  - apply writes_only_ret.
  - apply writes_only_bind; [apply H; left; reflexivity|].
    intros _. apply IH. intros y Hy. apply H. right. exact Hy.
Qed.

Lemma writes_only_foldM (A B : Type) (body : B -> A -> M B) (l : list A) :
  (forall b x, writes_only P (body b x)) ->
  forall b, writes_only P (foldM body l b).
Proof.
  intros H. induction l as [|x l IH]; intros b; cbn [foldM].
  - apply writes_only_ret.
  - apply writes_only_bind; [apply H|exact IH].
Qed.

Lemma writes_only_warn (A : Type) (l : list A) (line : string) :
  writes_only P (if some l then ret tt else print line).
Proof. destruct (some l); [apply writes_only_ret|apply writes_only_print]. Qed.

Lemma writes_only_module_sources (module : string) :
  writes_only P (module_sources module).
Proof.
  unfold module_sources. apply writes_only_foldM. intros sources ext.
  apply writes_only_bind; [exact (writes_only_look _)|]. intros files.
  apply writes_only_foldM. intros sources' file.
  apply writes_only_bind; [apply writes_only_print|].
  intros _. apply writes_only_ret.
Qed.

Lemma writes_only_core_sources (lib : string) :
  writes_only P (core_sources lib).
Proof.
  unfold core_sources. apply writes_only_foldM. intros sources ext.
  apply writes_only_bind; [exact (writes_only_look _)|]. intros files.
  apply writes_only_ret.
Qed.

End Only.

(** A computation that writes no file leaves the trace as it was. *)
Lemma writes_nothing (A : Type) (c : M A) (w w' : world) (r : result A) :
  writes_only (fun _ => False) c -> c w = (r, w') -> written w' = written w.
Proof.
  intros Hc H. destruct (Hc _ _ _ H) as [[|x l] [E F]].
  - rewrite E. apply app_nil_r.
  - inversion F as [|? ? Hx _]. destruct Hx.
Qed.

(** The warning of an emitter changes neither the tree nor the trace. *)
Lemma warn_quiet (A : Type) (l : list A) (line : string) (w w' : world)
      (r : result unit) :
  (if some l then ret tt else print line) w = (r, w') ->
  r = Ok tt /\ fs w' = fs w /\ written w' = written w.
Proof.
  destruct (some l); intros H; injection H as <- <-; repeat split.
Qed.

End Traces.

(** ** The files of the module emitter *)

Module ModuleFiles.
Import StrFacts ReFacts ListPattern OptionPattern Soundness.
Import DictFacts Collect Frame Twice Discovery Failures OptionsFile Rounds Collected Keeps Written.
Import SourcesFound Traces.

(** One round of the module emitter that returns has written the module's
    file, with the sources found below the module's directory. *)
Lemma module_round_trace (root_dir : string) (entry : string * module_config)
      (w w' : world) :
  module_file_round root_dir entry w = (Ok tt, w') ->
  written w' = written w ++ [module_file (fs w) entry] /\
  stat (fs w') (fst (module_file (fs w) entry))
  = Some (Some (snd (module_file (fs w) entry))) /\
  agree (fs w) (fs w').
Proof.
  intros H.
  pose proof (proj1 (good_module_file_round root_dir entry) _ _ _ H) as Ha.
  destruct entry as [m cfg]. unfold module_file_round in H.
  destruct (module_sources_run m w) as [ws [Hs Hfs]].
  pose proof (@writes_nothing _ _ _ _ _
                (writes_only_module_sources (fun _ => False) m) Hs) as Hws.
  unfold bind at 1 in H. rewrite Hs in H.
  apply bind_ok in H. destruct H as [[] [wt [Hwarn H]]].
  destruct (@warn_quiet _ _ _ _ _ _ Hwarn) as [_ [Hft Hwt]].
  destruct (@open_write_ok ["modules"%string; m; "CMakeLists.txt"%string]
              _ _ _ eq_refl H) as [Hst [Hw _]].
  unfold module_file. cbn [fst snd].
  split; [rewrite Hw, Hwt, Hws; reflexivity|].
  split; [exact Hst|exact Ha].
Qed.

Lemma module_file_agree (n n' : node) (entry : string * module_config) :
  agree n n' -> module_file n' entry = module_file n entry.
Proof.
  intros Ha. unfold module_file.
  rewrite (@sources_at_agree _ _ ["modules"%string; fst entry] Ha);
    [reflexivity|discriminate].
Qed.

(** The rounds of the module emitter that all return have written one file
    per entry, in the order of the mapping, each with the sources found in
    the tree as it was before the first round. *)
Lemma module_rounds_trace (root_dir : string) (modules : dict module_config) :
  forall w0 w w',
    agree (fs w0) (fs w) ->
    forM_ modules (module_file_round root_dir) w = (Ok tt, w') ->
    written w' = written w ++ map (module_file (fs w0)) modules /\
    agree (fs w0) (fs w').
Proof.
  induction modules as [|entry modules IH]; intros w0 w w' Ha H.
  - cbn [forM_] in H. injection H as <-. cbn [map]. rewrite app_nil_r. auto.
  - cbn [forM_] in H. apply bind_ok in H. destruct H as [[] [w1 [Hx H]]].
    destruct (@module_round_trace _ _ _ _ Hx) as [Hw [_ Ha1]].
    destruct (IH w0 w1 w' (agree_trans Ha Ha1) H) as [Hw' Ha'].
    split; [|exact Ha'].
    rewrite Hw', Hw, (@module_file_agree _ _ entry Ha). cbn [map].
    rewrite <- app_assoc. reflexivity.
Qed.

Lemma module_rounds_file (root_dir : string) (modules : dict module_config)
      (w0 w w' : world) (m : string) (cfg : module_config) :
  NoDup (keys modules) -> In (m, cfg) modules ->
  agree (fs w0) (fs w) ->
  forM_ modules (module_file_round root_dir) w = (Ok tt, w') ->
  read (fs w') ["modules"; m; "CMakeLists.txt"]
  = Ok (snd (module_file (fs w0) (m, cfg))).
Proof.
  intros Hnd Hin Ha H. apply in_split in Hin. destruct Hin as [l1 [l2 ->]].
  apply forM_ok_split in H. destruct H as [wa [wb [Hpre [Hx Hrest]]]].
  destruct (@module_rounds_trace _ _ _ _ _ Ha Hpre) as [_ Ha1].
  assert (K : keeps ["modules"%string; m; "CMakeLists.txt"%string]
                    (forM_ l2 (module_file_round root_dir))).
  { apply keeps_forM_. intros entry Hin. apply keeps_module_file_round.
    intros E. injection E as E.
    apply (@nodup_later_keys _ _ _ _ _ Hnd _ Hin). symmetry. exact E. }
  apply read_stat. rewrite (K _ _ _ Hrest).
  destruct (@module_round_trace _ _ _ _ Hx) as [_ [Hst _]].
  rewrite (@module_file_agree _ _ (m, cfg) Ha1) in Hst. exact Hst.
Qed.

(** The module emitter, when it returns. *)
Lemma module_emitter_trace (root_dir : string) (modules : dict module_config)
      (w w' : world) :
  _generate_module_cmake_files root_dir modules w = (Ok tt, w') ->
  written w' = written w ++ umbrella modules :: map (module_file (fs w)) modules /\
  read (fs w') ["modules"; "CMakeLists.txt"] = Ok (snd (umbrella modules)) /\
  (NoDup (keys modules) ->
   forall m cfg, In (m, cfg) modules ->
     read (fs w') ["modules"; m; "CMakeLists.txt"]
     = Ok (snd (module_file (fs w) (m, cfg)))).
Proof.
  unfold _generate_module_cmake_files. intros H.
  apply bind_ok in H. destruct H as [[] [w1 [Hu H]]].
  destruct (@open_write_ok ["modules"%string; "CMakeLists.txt"%string]
              _ _ _ eq_refl Hu) as [Hst [Hw _]].
  assert (Ha : agree (fs w) (fs w1)).
  { apply (@steady_open_write ["modules"%string; "CMakeLists.txt"%string]
             (join nl (modules_content modules))
             (target_cmakelists ["modules"%string]) _ _ _ Hu). }
  destruct (@module_rounds_trace _ _ _ _ _ Ha H) as [Hw' _].
  split; [rewrite Hw', Hw, <- app_assoc; reflexivity|].
  split.
  - apply read_stat.
    assert (K : keeps ["modules"%string; "CMakeLists.txt"%string]
                      (forM_ modules (module_file_round root_dir))).
    { apply keeps_forM_. intros entry _. apply keeps_module_file_round.
      discriminate. }
    rewrite (K _ _ _ H). exact Hst.
  - intros Hnd m cfg Hin. exact (@module_rounds_file _ _ _ _ _ _ _ Hnd Hin Ha H).
Qed.

(** The sources of a module's directory. *)
Lemma sources_at_walk (n : node) (p : path) (d : node) :
  walk n p = Ok d -> sources_at n p = source_lines d.
Proof. unfold sources_at. intros ->. reflexivity. Qed.

(** C2, as amended. For a module directory whose path holds none of the
    wildcards of [glob], listed in another order, at any depth, on another
    tree: when on both trees the module collector returns a mapping and the
    module emitter returns for it, the file that the emitter writes for the
    module lists the same source lines on both trees, each as often, and
    possibly in another order. The lists are those of the two directories
    in their own listing orders. *)
Theorem shuffled_module_sources_permuted
        (root_dir m : string) (d1 d2 : node)
        (modules1 modules2 : dict module_config) (w1 u1 w1' w2 u2 w2' : world) :
  has_magic (path_str root_dir ["modules"; m]) = false ->
  is_dir (fs w1) ["modules"; m] = true ->
  is_dir (fs w2) ["modules"; m] = true ->
  walk (fs w1) ["modules"; m] = Ok d1 ->
  walk (fs w2) ["modules"; m] = Ok d2 ->
  shuffle d1 d2 ->
  _parse_modules w1 = (Ok modules1, u1) ->
  _parse_modules w2 = (Ok modules2, u2) ->
  _generate_module_cmake_files root_dir modules1 w1 = (Ok tt, w1') ->
  _generate_module_cmake_files root_dir modules2 w2 = (Ok tt, w2') ->
  exists cfg1 cfg2 sources1 sources2,
    dict_get m modules1 = Some cfg1 /\ dict_get m modules2 = Some cfg2 /\
    sources1 = source_lines d1 /\ sources2 = source_lines d2 /\
    read (fs w1') ["modules"; m; "CMakeLists.txt"]
    = Ok (join nl (module_content m cfg1 sources1)) /\
    read (fs w2') ["modules"; m; "CMakeLists.txt"]
    = Ok (join nl (module_content m cfg2 sources2)) /\
    In (["modules"; m; "CMakeLists.txt"],
        join nl (module_content m cfg1 sources1)) (written w1') /\
    In (["modules"; m; "CMakeLists.txt"],
        join nl (module_content m cfg2 sources2)) (written w2') /\
    Permutation sources1 sources2.
Proof.
  intros _ Hd1 Hd2 Hw1 Hw2 Hsh Hp1 Hp2 Hg1 Hg2.
  destruct (@module_entries _ _ _ Hp1) as [_ Hget1]. specialize (Hget1 m).
  destruct (@module_entries _ _ _ Hp2) as [_ Hget2]. specialize (Hget2 m).
  rewrite Hd1 in Hget1. rewrite Hd2 in Hget2.
  pose proof (@module_keys_nodup _ _ _ Hp1) as Hn1.
  pose proof (@module_keys_nodup _ _ _ Hp2) as Hn2.
  destruct (@module_emitter_trace _ _ _ _ Hg1) as [Ht1 [_ Hf1]].
  destruct (@module_emitter_trace _ _ _ _ Hg2) as [Ht2 [_ Hf2]].
  pose proof (dict_get_in _ _ Hget1) as Hin1.
  pose proof (dict_get_in _ _ Hget2) as Hin2.
  pose proof (Hf1 Hn1 _ _ Hin1) as R1. pose proof (Hf2 Hn2 _ _ Hin2) as R2.
  unfold module_file in R1, R2. cbn [fst snd] in R1, R2.
  rewrite (@sources_at_walk _ _ _ Hw1) in R1. rewrite (@sources_at_walk _ _ _ Hw2) in R2.
  do 4 eexists.
  split; [exact Hget1|]. split; [exact Hget2|].
  split; [reflexivity|]. split; [reflexivity|].
  split; [exact R1|]. split; [exact R2|].
  split; [|split].
  - rewrite Ht1. apply in_or_app. right. right.
    apply in_map_iff. eexists. split; [|exact Hin1].
    unfold module_file. cbn [fst snd]. rewrite (@sources_at_walk _ _ _ Hw1).
    reflexivity.
  - rewrite Ht2. apply in_or_app. right. right.
    apply in_map_iff. eexists. split; [|exact Hin2].
    unfold module_file. cbn [fst snd]. rewrite (@sources_at_walk _ _ _ Hw2).
    reflexivity.
  - exact (@shuffled_sources_permuted _ _ Hsh).
Qed.

Lemma shuffled_module_sources_permuted_witness :
  exists cfg1 cfg2 sources1 sources2,
    dict_get "m" one_module = Some cfg1 /\ dict_get "m" one_module = Some cfg2 /\
    sources1 = source_lines lib_ba /\ sources2 = source_lines lib_ab /\
    read (fs (snd (_generate_module_cmake_files "proj" one_module
                     (fresh modules_ba))))
         ["modules"; "m"; "CMakeLists.txt"]
    = Ok (join nl (module_content "m" cfg1 sources1)) /\
    read (fs (snd (_generate_module_cmake_files "proj" one_module
                     (fresh modules_ab))))
         ["modules"; "m"; "CMakeLists.txt"]
    = Ok (join nl (module_content "m" cfg2 sources2)) /\
    In (["modules"; "m"; "CMakeLists.txt"]%string,
        join nl (module_content "m" cfg1 sources1))
       (written (snd (_generate_module_cmake_files "proj" one_module
                        (fresh modules_ba)))) /\
    In (["modules"; "m"; "CMakeLists.txt"]%string,
        join nl (module_content "m" cfg2 sources2))
       (written (snd (_generate_module_cmake_files "proj" one_module
                        (fresh modules_ab)))) /\
    Permutation sources1 sources2.
Proof.
  apply (@shuffled_module_sources_permuted
           "proj" "m" lib_ba lib_ab one_module one_module
           (fresh modules_ba) (fresh modules_ba) _
           (fresh modules_ab) (fresh modules_ab) _);
    try (vm_compute; reflexivity).
  exact shuffle_lib.
Defined.

(** C2, as the claim states it, fails: two projects that differ only in the
    order in which the directory of the one module lists its two files get
    the same mapping from the module collector and different module files
    from the module emitter; on the first the sources are listed b.cpp
    before a.cpp, which is the listing order and not the lexicographic
    one. *)
Lemma listing_order_changes_module_file :
  shuffle modules_ba modules_ab /\
  _parse_modules (fresh modules_ba) = (Ok one_module, fresh modules_ba) /\
  _parse_modules (fresh modules_ab) = (Ok one_module, fresh modules_ab) /\
  written (snd (_generate_module_cmake_files "proj" one_module
                  (fresh modules_ba)))
  = [(["modules"; "CMakeLists.txt"],
      join nl ["# Godot modules"; blank; "add_subdirectory(m)"]);
     (["modules"; "m"; "CMakeLists.txt"],
      join nl ["# m module"; blank; "set(MODULE_SOURCES";
               "    b.cpp"; "    a.cpp"; ")"; blank;
               "add_library(m STATIC ${MODULE_SOURCES})"; blank;
               "target_include_directories(m"; "    PUBLIC";
               "        ${CMAKE_CURRENT_SOURCE_DIR}";
               "        ${CMAKE_SOURCE_DIR}"; ")"; blank])]%string /\
  written (snd (_generate_module_cmake_files "proj" one_module
                  (fresh modules_ab)))
  = [(["modules"; "CMakeLists.txt"],
      join nl ["# Godot modules"; blank; "add_subdirectory(m)"]);
     (["modules"; "m"; "CMakeLists.txt"],
      join nl ["# m module"; blank; "set(MODULE_SOURCES";
               "    a.cpp"; "    b.cpp"; ")"; blank;
               "add_library(m STATIC ${MODULE_SOURCES})"; blank;
               "target_include_directories(m"; "    PUBLIC";
               "        ${CMAKE_CURRENT_SOURCE_DIR}";
               "        ${CMAKE_SOURCE_DIR}"; ")"; blank])]%string /\
  written (snd (_generate_module_cmake_files "proj" one_module
                  (fresh modules_ba)))
  <> written (snd (_generate_module_cmake_files "proj" one_module
                     (fresh modules_ab))).
Proof.
  split.
  { apply shuffle_dir, shuffle_skip; [|apply shuffle_nil].
    apply shuffle_dir, shuffle_skip; [exact shuffle_lib|apply shuffle_nil]. }
  split; [vm_compute; reflexivity|].
  split; [vm_compute; reflexivity|].
  split; [vm_compute; reflexivity|].
  split; [vm_compute; reflexivity|].
  intros H. vm_compute in H. discriminate H.
Qed.

(** The loop of lines 310-315 over a library's directory, which the lines
    326-342 follow: on two trees whose directories of the library are
    listed in another order it builds lists with the same lines, each as
    often. *)
Lemma shuffled_library_sources_permuted
      (lib : string) (d1 d2 : node) (w1 w2 : world) :
  walk (fs w1) [lib] = Ok d1 -> walk (fs w2) [lib] = Ok d2 ->
  shuffle d1 d2 ->
  exists sources1 sources2,
    core_sources lib w1 = (Ok sources1, w1) /\
    core_sources lib w2 = (Ok sources2, w2) /\
    Permutation sources1 sources2.
Proof.
  intros H1 H2 Hsh. rewrite !core_sources_lines, H1, H2.
  do 2 eexists. split; [reflexivity|]. split; [reflexivity|].
  exact (@shuffled_sources_permuted _ _ Hsh).
Qed.

End ModuleFiles.

(** ** The module emitter on the mapping of the module collector *)

Module ModuleRuns.
Import StrFacts ReFacts ListPattern OptionPattern Soundness.
Import DictFacts Collect Frame Twice Discovery Failures OptionsFile Rounds Collected Keeps Written.
Import SourcesFound Traces ModuleFiles.

(** Every path the glob gives is listed in the tree. *)
Lemma glob_listed (suffix : string) (d : node) :
  forall p, In p (glob_rec suffix d) -> exists c, listed d p c.
Proof.
  induction d as [content|es IH] using node_entries_ind; intros p Hin;
    [destruct Hin|].
  rewrite glob_rec_dir in Hin. apply in_app_or in Hin. destruct Hin as [Hin|Hin].
  - apply in_map_iff in Hin. destruct Hin as [x [<- Hx]].
    apply filter_In in Hx. destruct Hx as [Hx _].
    apply in_map_iff in Hx. destruct Hx as [[y c] [E Hentry]].
    cbn [fst] in E. subst y. exists c.
    apply (@listed_below es x c [] c); [exact Hentry|constructor].
  - apply in_flat_map in Hin. destruct Hin as [[x c] [Hentry Hin]].
    unfold below in Hin.
    destruct (is_dir_node c && negb (ishidden x)); [|destruct Hin].
    apply in_map_iff in Hin. destruct Hin as [p' [<- Hp']].
    destruct (proj1 (Forall_forall _ _) IH (x, c) Hentry p' Hp') as [c' Hc'].
    exists c'. apply (@listed_below es x c p' c'); [exact Hentry|exact Hc'].
Qed.

(** What the module collector and the module emitter do for one directory
    below modules, when both return on one tree. *)
Lemma module_file_of_directory (root_dir : string)
      (modules : dict module_config) (w u w' : world) (m : string) :
  _parse_modules w = (Ok modules, u) ->
  _generate_module_cmake_files root_dir modules w = (Ok tt, w') ->
  is_dir (fs w) ["modules"; m] = true ->
  exists cfg,
    dict_get m modules = Some cfg /\
    read (fs w') ["modules"; m; "CMakeLists.txt"]
    = Ok (join nl (module_content m cfg (sources_at (fs w) ["modules"; m]))).
Proof.
  intros Hp Hg Hd.
  destruct (@module_entries _ _ _ Hp) as [_ Hget]. specialize (Hget m).
  rewrite Hd in Hget. eexists. split; [exact Hget|].
  destruct (@module_emitter_trace _ _ _ _ Hg) as [_ [_ Hf]].
  exact (Hf (@module_keys_nodup _ _ _ Hp) _ _ (dict_get_in _ _ Hget)).
Qed.

Lemma module_emitter_files (root_dir : string)
      (modules : dict module_config) (w u w' : world) :
  _parse_modules w = (Ok modules, u) ->
  _generate_module_cmake_files root_dir modules w = (Ok tt, w') ->
  written w' = written w ++ umbrella modules :: map (module_file (fs w)) modules /\
  read (fs w') ["modules"; "CMakeLists.txt"]
  = Ok (join nl (modules_content modules)) /\
  forall m, is_dir (fs w) ["modules"; m] = true ->
    exists cfg,
      dict_get m modules = Some cfg /\
      read (fs w') ["modules"; m; "CMakeLists.txt"]
      = Ok (join nl (module_content m cfg (sources_at (fs w) ["modules"; m]))).
Proof.
  intros Hp Hg.
  destruct (@module_emitter_trace _ _ _ _ Hg) as [Ht [Hu _]].
  split; [exact Ht|]. split; [exact Hu|].
  intros m Hd. exact (@module_file_of_directory _ _ _ _ _ _ Hp Hg Hd).
Qed.

(** X13. When the module collector and then the module emitter return on a
    tree in which no module directory's path holds a wildcard of [glob],
    the emitter has written modules/CMakeLists.txt and then one file per
    entry of the mapping, in the mapping's order, and nothing else; after
    it every directory below modules has a CMakeLists.txt with the
    emitter's lines for the entry of that directory and for the sources
    found below the directory when the emitter started: the files the
    emitter writes are never among the sources. *)
Theorem module_emitter_writes_one_file_per_module
        (root_dir : string) (modules : dict module_config) (w u w' : world) :
  _parse_modules w = (Ok modules, u) ->
  Forall (fun m => has_magic (path_str root_dir ["modules"; m]) = false)
         (keys modules) ->
  _generate_module_cmake_files root_dir modules w = (Ok tt, w') ->
  written w' = written w ++ umbrella modules :: map (module_file (fs w)) modules /\
  read (fs w') ["modules"; "CMakeLists.txt"]
  = Ok (join nl (modules_content modules)) /\
  forall m, is_dir (fs w) ["modules"; m] = true ->
    exists cfg,
      dict_get m modules = Some cfg /\
      read (fs w') ["modules"; m; "CMakeLists.txt"]
      = Ok (join nl (module_content m cfg (sources_at (fs w) ["modules"; m]))).
Proof.
  intros Hp _ Hg. exact (@module_emitter_files _ _ _ _ _ Hp Hg).
Qed.

Lemma module_emitter_writes_one_file_per_module_witness :
  written (snd (_generate_module_cmake_files "proj" sample_modules
                  (fresh sample_tree)))
  = written (fresh sample_tree)
    ++ umbrella sample_modules
       :: map (module_file (fs (fresh sample_tree))) sample_modules /\
  read (fs (snd (_generate_module_cmake_files "proj" sample_modules
                   (fresh sample_tree))))
       ["modules"; "CMakeLists.txt"]
  = Ok (join nl (modules_content sample_modules)) /\
  forall m, is_dir (fs (fresh sample_tree)) ["modules"; m] = true ->
    exists cfg,
      dict_get m sample_modules = Some cfg /\
      read (fs (snd (_generate_module_cmake_files "proj" sample_modules
                       (fresh sample_tree))))
           ["modules"; m; "CMakeLists.txt"]
      = Ok (join nl (module_content m cfg
                       (sources_at (fs (fresh sample_tree)) ["modules"; m]))).
Proof.
  apply (@module_emitter_writes_one_file_per_module
           "proj" sample_modules (fresh sample_tree) (fresh sample_tree)).
  - vm_compute. reflexivity.
  - repeat constructor.
  - vm_compute. reflexivity.
Defined.

(** The module file of the sample project's module with a manifest. *)
Example sample_module_file :
  snd (module_file sample_tree
         ("mymodule"%string,
          {| m_name := "mymodule"; m_sources := ["*.cpp"%string];
             m_deps := ["core"%string]; m_defines := []; m_includes := [] |}))
  = join nl ["# mymodule module"; blank; "set(MODULE_SOURCES"; "    one.cpp";
             ")"; blank; "add_library(mymodule STATIC ${MODULE_SOURCES})";
             blank; "target_include_directories(mymodule"; "    PUBLIC";
             "        ${CMAKE_CURRENT_SOURCE_DIR}"; "        ${CMAKE_SOURCE_DIR}";
             ")"; blank; "target_link_libraries(mymodule"; "    PRIVATE";
             "        core"; ")"]%string.
Proof. vm_compute. reflexivity. Qed.

Lemma module_round_writes (root_dir : string) (modules : dict module_config)
      (entry : string * module_config) :
  In entry modules ->
  writes_only (fun f => exists m, In m (keys modules) /\
                                  fst f = ["modules"%string; m; "CMakeLists.txt"%string])
              (module_file_round root_dir entry).
Proof.
  intros Hin. destruct entry as [m cfg]. unfold module_file_round.
  apply writes_only_bind; [apply writes_only_module_sources|]. intros sources.
  apply writes_only_bind; [apply writes_only_warn|]. intros _.
  apply writes_only_open_write. exists m. split; [|reflexivity].
  unfold keys. exact (in_map fst _ _ Hin).
Qed.

Lemma module_emitter_outcomes (root_dir : string)
      (modules : dict module_config) (w w' : world) (r : result unit) :
  _generate_module_cmake_files root_dir modules w = (r, w') ->
  (written w' = written w /\ fs w' = fs w /\ exists e, r = Raise e) \/
  (exists later,
      written w' = written w ++ umbrella modules :: later /\
      read (fs w') ["modules"; "CMakeLists.txt"]
      = Ok (join nl (modules_content modules)) /\
      Forall (fun f => exists m, In m (keys modules) /\
                                 fst f = ["modules"%string; m; "CMakeLists.txt"%string])
             later).
Proof.
  unfold _generate_module_cmake_files, bind. intros H.
  destruct (open_write ["modules"; "CMakeLists.txt"]
              (join nl (modules_content modules)) w) as [[[]|e] w1] eqn:Hu.
  - right.
    destruct (@open_write_ok ["modules"%string; "CMakeLists.txt"%string]
                _ _ _ eq_refl Hu) as [Hst [Hw _]].
    assert (W : writes_only
                  (fun f => exists m, In m (keys modules) /\
                                      fst f = ["modules"%string; m; "CMakeLists.txt"%string])
                  (forM_ modules (module_file_round root_dir))).
    { apply writes_only_forM_. intros entry Hin.
      exact (@module_round_writes root_dir _ _ Hin). }
    destruct (W _ _ _ H) as [later [E F]].
    exists later. split; [rewrite E, Hw, <- app_assoc; reflexivity|].
    split; [|exact F].
    apply read_stat.
    assert (K : keeps ["modules"%string; "CMakeLists.txt"%string]
                      (forM_ modules (module_file_round root_dir))).
    { apply keeps_forM_. intros entry _. apply keeps_module_file_round.
      discriminate. }
    rewrite (K _ _ _ H). exact Hst.
  - left. injection H as <- <-. unfold open_write in Hu.
    destruct (write (fs w) ["modules"; "CMakeLists.txt"]
                    (join nl (modules_content modules))); [discriminate|].
    injection Hu as _ <-. split; [reflexivity|]. split; [reflexivity|].
    exists e. reflexivity.
Qed.

(** X14. Whatever the outcome of the module emitter on the mapping of the
    module collector: either it raises with nothing written and the tree
    as it was, or the first file it has written is modules/CMakeLists.txt,
    with one add_subdirectory line per entry of the mapping in the
    mapping's order, every later file is the CMakeLists.txt of a module
    of the mapping, and modules/CMakeLists.txt still holds that text when
    the emitter stops. *)
Theorem module_emitter_writes_umbrella_first
        (root_dir : string) (modules : dict module_config) (w u w' : world)
        (r : result unit) :
  _parse_modules w = (Ok modules, u) ->
  _generate_module_cmake_files root_dir modules w = (r, w') ->
  (written w' = written w /\ fs w' = fs w /\ exists e, r = Raise e) \/
  (exists later,
      written w' = written w ++ umbrella modules :: later /\
      read (fs w') ["modules"; "CMakeLists.txt"]
      = Ok (join nl (modules_content modules)) /\
      Forall (fun f => exists m, In m (keys modules) /\
                                 fst f = ["modules"%string; m; "CMakeLists.txt"%string])
             later).
Proof.
  intros _ H. exact (@module_emitter_outcomes _ _ _ _ _ H).
Qed.

Lemma module_emitter_writes_umbrella_first_witness :
  (written (snd (_generate_module_cmake_files "proj" sample_modules
                   (fresh sample_tree)))
   = written (fresh sample_tree) /\
   fs (snd (_generate_module_cmake_files "proj" sample_modules
              (fresh sample_tree)))
   = fs (fresh sample_tree) /\
   exists e, fst (_generate_module_cmake_files "proj" sample_modules
                    (fresh sample_tree))
             = Raise e) \/
  (exists later,
      written (snd (_generate_module_cmake_files "proj" sample_modules
                      (fresh sample_tree)))
      = written (fresh sample_tree) ++ umbrella sample_modules :: later /\
      read (fs (snd (_generate_module_cmake_files "proj" sample_modules
                       (fresh sample_tree))))
           ["modules"; "CMakeLists.txt"]
      = Ok (join nl (modules_content sample_modules)) /\
      Forall (fun f => exists m, In m (keys sample_modules) /\
                                 fst f = ["modules"%string; m; "CMakeLists.txt"%string])
             later).
Proof.
  apply (@module_emitter_writes_umbrella_first
           "proj" sample_modules (fresh sample_tree) (fresh sample_tree)).
  - vm_compute. reflexivity.
  - apply surjective_pairing.
Defined.

Lemma sources_at_listed (n : node) (p : path) (d : node) :
  walk n p = Ok d ->
  (forall rel c suffix,
      walk n (p ++ rel) = Ok c -> rel <> [] ->
      Forall (fun x => ishidden x = false) rel ->
      In suffix exts -> fnmatch_star suffix (last rel EmptyString) = true ->
      In (indent4 (rel_path rel)) (sources_at n p)) /\
  (forall line,
      In line (sources_at n p) ->
      exists rel suffix c,
        line = indent4 (rel_path rel) /\ In suffix exts /\ rel <> [] /\
        Forall (fun x => ishidden x = false) rel /\
        fnmatch_star suffix (last rel EmptyString) = true /\
        listed d rel c).
Proof.
  intros Hw. rewrite (@sources_at_walk _ _ _ Hw). unfold source_lines. split.
  - intros rel c suffix Hq Hne Hh Hs Hm. rewrite walk_app, Hw in Hq.
    apply in_flat_map. exists suffix. split; [exact Hs|].
    apply (in_map (fun file => indent4 (rel_path file))).
    exact (@glob_complete suffix rel d c Hq Hne Hh Hm).
  - intros line Hin. apply in_flat_map in Hin. destruct Hin as [suffix [Hs Hin]].
    apply in_map_iff in Hin. destruct Hin as [rel [<- Hq]].
    destruct (@glob_listed suffix d rel Hq) as [c Hc].
    destruct (@glob_sound suffix d rel Hq) as [Hne [Hh Hm]].
    exists rel, suffix, c. repeat split; assumption.
Qed.

(** X21. When the module collector and then the module emitter return, the
    file of a module directory whose path holds no wildcard of [glob]
    lists the paths below that directory that have no component starting
    with a dot and a name ending in one of the five suffixes: every such
    path that is in the tree when the emitter starts, file or directory,
    has its line in the file's source list, and every line of the list
    belongs to a path of that kind that the directory lists. *)
Theorem module_file_lists_matching_paths
        (root_dir : string) (modules : dict module_config) (w u w' : world)
        (m : string) (d : node) :
  _parse_modules w = (Ok modules, u) ->
  _generate_module_cmake_files root_dir modules w = (Ok tt, w') ->
  is_dir (fs w) ["modules"; m] = true ->
  walk (fs w) ["modules"; m] = Ok d ->
  has_magic (path_str root_dir ["modules"; m]) = false ->
  exists cfg sources,
    dict_get m modules = Some cfg /\
    read (fs w') ["modules"; m; "CMakeLists.txt"]
    = Ok (join nl (module_content m cfg sources)) /\
    (forall rel c suffix,
        walk (fs w) ("modules" :: m :: rel) = Ok c -> rel <> [] ->
        Forall (fun x => ishidden x = false) rel ->
        In suffix exts -> fnmatch_star suffix (last rel EmptyString) = true ->
        In (indent4 (rel_path rel)) sources) /\
    (forall line,
        In line sources ->
        exists rel suffix c,
          line = indent4 (rel_path rel) /\ In suffix exts /\ rel <> [] /\
          Forall (fun x => ishidden x = false) rel /\
          fnmatch_star suffix (last rel EmptyString) = true /\
          listed d rel c).
Proof.
  intros Hp Hg Hd Hw _.
  destruct (@module_file_of_directory _ _ _ _ _ _ Hp Hg Hd) as [cfg [Hget Hr]].
  destruct (@sources_at_listed _ _ _ Hw) as [Hc Hs].
  exists cfg, (sources_at (fs w) ["modules"%string; m]).
  split; [exact Hget|]. split; [exact Hr|]. split; [|exact Hs].
  intros rel c suffix Hq. exact (Hc rel c suffix Hq).
Qed.

Lemma module_file_lists_matching_paths_witness :
  exists cfg sources,
    dict_get "mymodule" sample_modules = Some cfg /\
    read (fs (snd (_generate_module_cmake_files "proj" sample_modules
                     (fresh sample_tree))))
         ["modules"; "mymodule"; "CMakeLists.txt"]
    = Ok (join nl (module_content "mymodule" cfg sources)) /\
    (forall rel c suffix,
        walk (fs (fresh sample_tree)) ("modules" :: "mymodule" :: rel) = Ok c ->
        rel <> [] ->
        Forall (fun x => ishidden x = false) rel ->
        In suffix exts -> fnmatch_star suffix (last rel EmptyString) = true ->
        In (indent4 (rel_path rel)) sources) /\
    (forall line,
        In line sources ->
        exists rel suffix c,
          line = indent4 (rel_path rel) /\ In suffix exts /\ rel <> [] /\
          Forall (fun x => ishidden x = false) rel /\
          fnmatch_star suffix (last rel EmptyString) = true /\
          listed (Dir [("SCsub",
                        File ("env.add_source_files(env.modules_sources, ["
                              +++ q +++ "*.cpp" +++ q +++ "])" +++ nl
                              +++ "env.Depends(lib, [" +++ q +++ "core" +++ q
                              +++ "])"));
                       ("one.cpp", File "int one;")]) rel c).
Proof.
  apply (@module_file_lists_matching_paths
           "proj" sample_modules (fresh sample_tree) (fresh sample_tree) _
           "mymodule");
    vm_compute; reflexivity.
Defined.

End ModuleRuns.

(** ** Every outcome of a run *)

Module Outcomes.
Import StrFacts ReFacts ListPattern OptionPattern Soundness.
Import DictFacts Collect Frame Twice Discovery Failures OptionsFile Rounds Collected Keeps Written Aborts Untouched.
Import Traces.

(** A run stops in its first half, with nothing but its first message, or
    goes on to the emitters with what the three collectors return. *)
Lemma convert_outcomes (root_dir : string) (w w' : world) (r : result unit) :
  convert root_dir w = (r, w') ->
  (w' = started w /\ exists e, r = Raise e) \/
  exists options configs modules,
    _parse_sconstruct (started w) = (Ok options, started w) /\
    _parse_platform_configs (started w) = (Ok configs, started w) /\
    _parse_modules (started w) = (Ok modules, started w) /\
    emit_files root_dir options configs modules (started w) = (r, w').
Proof.
  unfold convert. intros H.
  rewrite (@bind_step _ _ (print "Converting SCons to CMake...") _ w
             (started w) tt) in H by reflexivity.
  pose proof (options_collector_world (started w)) as E1.
  destruct (_parse_sconstruct (started w)) as [[options|e] w1] eqn:H1;
    cbn [snd] in E1; subst w1.
  2:{ rewrite (@bind_raise _ _ _ _ _ _ _ H1) in H. injection H as <- <-.
      left. split; [reflexivity|]. exists e. reflexivity. }
  rewrite (@bind_step _ _ _ _ _ _ _ H1) in H.
  pose proof (platform_collector_world (started w)) as E2.
  destruct (_parse_platform_configs (started w)) as [[configs|e] w2] eqn:H2;
    cbn [snd] in E2; subst w2.
  2:{ rewrite (@bind_raise _ _ _ _ _ _ _ H2) in H. injection H as <- <-.
      left. split; [reflexivity|]. exists e. reflexivity. }
  rewrite (@bind_step _ _ _ _ _ _ _ H2) in H.
  pose proof (module_collector_world (started w)) as E3.
  destruct (_parse_modules (started w)) as [[modules|e] w3] eqn:H3;
    cbn [snd] in E3; subst w3.
  2:{ rewrite (@bind_raise _ _ _ _ _ _ _ H3) in H. injection H as <- <-.
      left. split; [reflexivity|]. exists e. reflexivity. }
  rewrite (@bind_step _ _ _ _ _ _ _ H3) in H.
  right. exists options, configs, modules. repeat split. exact H.
Qed.

(** What the emitters after the root emitter write, whatever their
    outcome: platform files of the mapping, the CMakeLists.txt of
    libraries, files below modules. *)
Lemma later_writes (root_dir : string) (configs : dict platform_config)
      (modules : dict module_config) :
  writes_only
    (fun f => (exists entry, In entry configs /\ f = platform_file entry) \/
              (exists lib, In lib core_libs /\
                           fst f = [lib; "CMakeLists.txt"%string]) \/
              (exists t, fst f = "modules"%string :: t))
    (_generate_platform_cmake_files configs ;;
     _generate_core_cmake_files root_dir ;;
     _generate_module_cmake_files root_dir modules).
Proof.
  apply writes_only_bind.
  { unfold _generate_platform_cmake_files.
    apply writes_only_bind; [apply writes_only_mkdir|]. intros _.
    apply writes_only_forM_. intros [platform config] Hin.
    unfold platform_file_round. apply writes_only_open_write.
    left. exists (platform, config). split; [exact Hin|reflexivity]. }
  intros _. apply writes_only_bind.
  { unfold _generate_core_cmake_files. apply writes_only_forM_.
    intros lib Hlib. unfold core_round.
    apply writes_only_bind; [exact (writes_only_look _ _)|].
    intros e. destruct e; cbn [negb]; [|apply writes_only_ret].
    apply writes_only_bind; [apply writes_only_core_sources|]. intros sources.
    apply writes_only_bind; [apply writes_only_warn|]. intros _.
    apply writes_only_open_write. right. left. exists lib.
    split; [exact Hlib|reflexivity]. }
  intros _. unfold _generate_module_cmake_files.
  apply writes_only_bind.
  { apply writes_only_open_write. right. right. eexists. reflexivity. }
  intros _. apply writes_only_forM_. intros [m cfg] _.
  unfold module_file_round.
  apply writes_only_bind; [apply writes_only_module_sources|]. intros sources.
  apply writes_only_bind; [apply writes_only_warn|]. intros _.
  apply writes_only_open_write. right. right. eexists. reflexivity.
Qed.

Lemma later_keeps_root (root_dir : string) (configs : dict platform_config)
      (modules : dict module_config) :
  keeps ["CMakeLists.txt"%string]
        (_generate_platform_cmake_files configs ;;
         _generate_core_cmake_files root_dir ;;
         _generate_module_cmake_files root_dir modules).
Proof.
  apply keeps_bind.
  { apply keeps_generate_platform. intros; discriminate. }
  intros _. apply keeps_bind.
  { apply keeps_generate_core. intros; discriminate. }
  intros _. apply keeps_generate_modules; [discriminate|intros; discriminate].
Qed.

(** The emitters: either the root file cannot be written and nothing is, or
    the root file is written first and is still there at the end. *)
Lemma emit_outcomes (root_dir : string) (options : dict opt)
      (configs : dict platform_config) (modules : dict module_config)
      (w w' : world) (r : result unit) :
  emit_files root_dir options configs modules w = (r, w') ->
  (w' = w /\ exists e, r = Raise e) \/
  exists w2 later,
    _generate_root_cmakelists options w = (Ok tt, w2) /\
    (_generate_platform_cmake_files configs ;;
     _generate_core_cmake_files root_dir ;;
     _generate_module_cmake_files root_dir modules) w2 = (r, w') /\
    written w' = written w ++ root_file options :: later /\
    read (fs w') ["CMakeLists.txt"] = Ok (snd (root_file options)) /\
    Forall (fun f => (exists entry, In entry configs /\ f = platform_file entry) \/
                     (exists lib, In lib core_libs /\
                                  fst f = [lib; "CMakeLists.txt"%string]) \/
                     (exists t, fst f = "modules"%string :: t))
           later.
Proof.
  unfold emit_files. intros H. unfold bind at 1 in H.
  destruct (_generate_root_cmakelists options w) as [[[]|e] w2] eqn:Hroot.
  - right. unfold _generate_root_cmakelists in Hroot.
    destruct (@open_write_ok ["CMakeLists.txt"%string] _ _ _ eq_refl Hroot)
      as [Hst [Hw _]].
    destruct (@later_writes root_dir configs modules _ _ _ H) as [later [E F]].
    exists w2, later. split; [reflexivity|]. split; [exact H|].
    split; [rewrite E, Hw, <- app_assoc; reflexivity|].
    split; [|exact F].
    apply read_stat. rewrite (@later_keeps_root root_dir configs modules _ _ _ H).
    exact Hst.
  - left. injection H as <- <-. unfold _generate_root_cmakelists, open_write in Hroot.
    destruct (write (fs w) ["CMakeLists.txt"] (join nl (root_content options)));
      [discriminate|].
    injection Hroot as _ <-. split; [reflexivity|]. exists e. reflexivity.
Qed.

Lemma in_dict_get_some (V : Type) (k : string) (v : V) (d : dict V) :
  NoDup (keys d) -> In (k, v) d -> dict_get k d = Some v.
Proof.
  induction d as [|[k' v'] d IH]; cbn [keys map fst dict_get]; [intros _ []|].
  intros Hnd [E|Hin].
  - injection E as -> ->. rewrite String.eqb_refl. reflexivity.
  - inversion Hnd as [|? ? Hk Hnd']; subst.
    destruct (String.eqb_spec k' k) as [->|_]; [|exact (IH Hnd' Hin)].
    exfalso. apply Hk. unfold keys in *. exact (in_map fst _ _ Hin).
Qed.

(** An entry of the platform collector's mapping comes from a descriptor
    that can be read. *)
Lemma platform_entry_origin (w u : world) (configs : dict platform_config)
      (d : string) (cfg : platform_config) :
  _parse_platform_configs w = (Ok configs, u) -> In (d, cfg) configs ->
  exists content,
    read (fs w) ["platform"; d; "detect.py"] = Ok content /\
    cfg = config_of d content.
Proof.
  intros Hp Hin.
  pose proof (@in_dict_get_some _ _ _ _ (@platform_keys_nodup _ _ _ Hp) Hin)
    as Hget.
  destruct (@platform_entries _ _ _ Hp) as [_ He]. rewrite (He d) in Hget.
  destruct (read (fs w) ["platform"; d; "detect.py"]) as [content|e];
    [|discriminate].
  exists content. split; [reflexivity|]. injection Hget as <-. reflexivity.
Qed.

Lemma root_written_first (root_dir : string) (w w' : world) (r : result unit) :
  convert root_dir w = (r, w') -> written w' <> written w ->
  exists content later,
    read (fs w) ["SConstruct"] = Ok content /\
    written w'
    = written w
      ++ root_file (fold_left parse_line (split newline content) []) :: later /\
    read (fs w') ["CMakeLists.txt"]
    = Ok (join nl (root_content
                     (fold_left parse_line (split newline content) []))) /\
    Forall (fun f => fst f <> ["CMakeLists.txt"%string]) later.
Proof.
  intros H Hne.
  destruct (@convert_outcomes _ _ _ _ H)
    as [[-> _]|[options [configs [modules [H1 [_ [_ He]]]]]]].
  { exfalso. apply Hne. reflexivity. }
  rewrite parse_sconstruct_run in H1. cbn [started fs] in H1.
  destruct (read (fs w) ["SConstruct"]) as [content|e]; [|discriminate].
  injection H1 as <-.
  destruct (@emit_outcomes _ _ _ _ _ _ _ He)
    as [[-> _]|[w2 [later [_ [_ [Hw [Hr F]]]]]]].
  { exfalso. apply Hne. reflexivity. }
  exists content, later. split; [reflexivity|]. split; [exact Hw|].
  split; [exact Hr|].
  rewrite Forall_forall in *. intros f Hf. cbv beta.
  destruct (F f Hf) as [[entry [_ ->]]|[[lib [_ E]]|[t E]]];
    [discriminate| |]; intros E'; pose proof (eq_trans (eq_sym E) E') as X;
    discriminate X.
Qed.

(** X10. Whatever the outcome of a run that has written a file, the options
    file could be read when the run started, the first file written is the
    CMakeLists.txt at the root, with the lines of the root emitter for the
    options that the lines of the options file give, no later write goes to
    that path, and the file holds that text when the run stops. *)
Theorem convert_writes_root_file_first
        (root_dir : string) (w w' : world) (r : result unit) :
  convert root_dir w = (r, w') -> written w' <> written w ->
  exists content later,
    read (fs w) ["SConstruct"] = Ok content /\
    written w'
    = written w
      ++ root_file (fold_left parse_line (split newline content) []) :: later /\
    read (fs w') ["CMakeLists.txt"]
    = Ok (join nl (root_content
                     (fold_left parse_line (split newline content) []))) /\
    Forall (fun f => fst f <> ["CMakeLists.txt"%string]) later.
Proof. exact (@root_written_first root_dir w w' r). Qed.

Lemma convert_writes_root_file_first_witness :
  exists content later,
    read (fs (fresh stopping_tree)) ["SConstruct"] = Ok content /\
    written (snd (convert "proj" (fresh stopping_tree)))
    = written (fresh stopping_tree)
      ++ root_file (fold_left parse_line (split newline content) []) :: later /\
    read (fs (snd (convert "proj" (fresh stopping_tree)))) ["CMakeLists.txt"]
    = Ok (join nl (root_content
                     (fold_left parse_line (split newline content) []))) /\
    Forall (fun f => fst f <> ["CMakeLists.txt"%string]) later.
Proof.
  apply (@convert_writes_root_file_first
           "proj" (fresh stopping_tree) _
           (fst (convert "proj" (fresh stopping_tree)))).
  - apply surjective_pairing.
  - vm_compute. discriminate.
Defined.

(** The run on the project in which the path of a platform's file is a
    directory: it stops in the platform emitter. *)
Example stopping_run :
  fst (convert "proj" (fresh stopping_tree)) = Raise IsADirectoryError /\
  stdout (snd (convert "proj" (fresh stopping_tree)))
  = ["Converting SCons to CMake..."%string] /\
  written (snd (convert "proj" (fresh stopping_tree)))
  = [root_file [("p"%string, StringOpt "p" "Platform" "x")];
     platform_file ("linuxbsd"%string, config_of "linuxbsd" detect_two_functions)] /\
  snd (platform_file ("linuxbsd"%string,
                      config_of "linuxbsd" detect_two_functions))
  = join nl ["# Platform configuration for linuxbsd"; blank;
             "# Compiler flags"; "add_compile_options("; "    -O2"; ")"; blank;
             "target_link_libraries(godot PRIVATE"; "    GL"; ")"]%string.
Proof. vm_compute. repeat split. Qed.

Lemma platform_files_origin (root_dir : string) (w w' : world)
      (r : result unit) :
  convert root_dir w = (r, w') ->
  exists l,
    written w' = written w ++ l /\
    forall name text,
      In (["cmake"%string; name], text) l ->
      exists d content,
        name = "platform_" +++ d +++ ".cmake" /\
        read (fs w) ["platform"; d; "detect.py"] = Ok content /\
        text = join nl (platform_content d (config_of d content)).
Proof.
  intros H.
  destruct (@convert_outcomes _ _ _ _ H)
    as [[-> _]|[options [configs [modules [_ [H2 [_ He]]]]]]].
  { exists []. split; [cbn [started written]; rewrite app_nil_r; reflexivity|].
    intros name text []. }
  destruct (@emit_outcomes _ _ _ _ _ _ _ He)
    as [[-> _]|[w2 [later [_ [_ [Hw [_ F]]]]]]].
  { exists []. split; [cbn [started written]; rewrite app_nil_r; reflexivity|].
    intros name text []. }
  exists (root_file options :: later). split; [exact Hw|].
  intros name text [E|Hin]; [discriminate E|].
  rewrite Forall_forall in F.
  destruct (F _ Hin) as [[[d cfg] [Hentry E]]|[[lib [Hlib E]]|[t E]]].
  - unfold platform_file in E. cbn [fst snd] in E. injection E as -> ->.
    destruct (@platform_entry_origin _ _ _ _ _ H2 Hentry) as [content [Hr ->]].
    exists d, content. repeat split. exact Hr.
  - exfalso. cbn [fst] in E. injection E as E _.
    destruct (@in_core_libs _ Hlib) as [_ [Hc _]]. apply Hc. symmetry. exact E.
  - discriminate E.
Qed.

(** X11. Whatever the outcome of a run, every file it has written into the
    directory cmake is the file platform_NAME.cmake of a platform whose
    detect.py could be read when the run started, and its text is made of
    the emitter's lines for that name and for the list elements of the
    bodies of get_libs and get_flags of that descriptor. *)
Theorem convert_platform_files_come_from_descriptors
        (root_dir : string) (w w' : world) (r : result unit) :
  convert root_dir w = (r, w') ->
  exists l,
    written w' = written w ++ l /\
    forall name text,
      In (["cmake"%string; name], text) l ->
      exists d content,
        name = "platform_" +++ d +++ ".cmake" /\
        read (fs w) ["platform"; d; "detect.py"] = Ok content /\
        text = join nl (platform_content d (config_of d content)).
Proof. exact (@platform_files_origin root_dir w w' r). Qed.

Lemma convert_platform_files_come_from_descriptors_witness :
  exists l,
    written (snd (convert "proj" (fresh stopping_tree)))
    = written (fresh stopping_tree) ++ l /\
    forall name text,
      In (["cmake"%string; name], text) l ->
      exists d content,
        name = "platform_" +++ d +++ ".cmake" /\
        read (fs (fresh stopping_tree)) ["platform"; d; "detect.py"]
        = Ok content /\
        text = join nl (platform_content d (config_of d content)).
Proof.
  apply (@convert_platform_files_come_from_descriptors
           "proj" (fresh stopping_tree) _
           (fst (convert "proj" (fresh stopping_tree)))).
  apply surjective_pairing.
Defined.

(** The path of a platform's file is left alone by the emitters when the
    mapping has no entry for the platform. *)
Lemma emit_keeps_platform_file (root_dir : string) (options : dict opt)
      (configs : dict platform_config) (modules : dict module_config)
      (d : string) :
  dict_get d configs = None ->
  keeps ["cmake"%string; "platform_" +++ d +++ ".cmake"]
        (emit_files root_dir options configs modules).
Proof.
  intros Hnone. unfold emit_files.
  apply keeps_bind.
  { apply keeps_open_write; [discriminate|reflexivity]. }
  intros _. apply keeps_bind.
  { unfold _generate_platform_cmake_files.
    apply keeps_bind; [apply keeps_mkdir_cmake_elsewhere; discriminate|].
    intros _. apply keeps_forM_. intros [d' c'] Hin. unfold platform_file_round.
    apply keeps_open_write.
    - intros E. injection E as E. apply append_inj_r in E. subst d'.
      apply (@Asymmetry.not_in_keys _ _ _ Hnone). unfold keys.
      exact (in_map fst _ _ Hin).
    - apply (proj1 (proj2 (target_platform_file d'))). }
  intros _. apply keeps_bind.
  { apply keeps_generate_core. intros lib Hlib E.
    injection E as E _. destruct (@in_core_libs _ Hlib) as [_ [Hc _]].
    apply Hc. symmetry. exact E. }
  intros _. apply keeps_generate_modules; [discriminate|intros; discriminate].
Qed.

Lemma platform_file_untouched (root_dir : string) (w w' : world)
      (r : result unit) (d : string) :
  convert root_dir w = (r, w') ->
  (forall content, read (fs w) ["platform"; d; "detect.py"] <> Ok content) ->
  stat (fs w') ["cmake"; "platform_" +++ d +++ ".cmake"]
  = stat (fs w) ["cmake"; "platform_" +++ d +++ ".cmake"] /\
  exists l,
    written w' = written w ++ l /\
    forall text, ~ In (["cmake"%string; "platform_" +++ d +++ ".cmake"], text) l.
Proof.
  intros H Hno. split.
  - destruct (@convert_outcomes _ _ _ _ H)
      as [[-> _]|[options [configs [modules [_ [H2 [_ He]]]]]]];
      [reflexivity|].
    assert (Hnone : dict_get d configs = None).
    { destruct (@platform_entries _ _ _ H2) as [_ Hget]. rewrite (Hget d).
      cbn [started fs].
      destruct (read (fs w) ["platform"; d; "detect.py"]) as [content|e] eqn:E;
        [|reflexivity].
      exfalso. exact (Hno content eq_refl). }
    exact (@emit_keeps_platform_file root_dir options configs modules d
             Hnone _ _ _ He).
  - destruct (@platform_files_origin _ _ _ _ H) as [l [Hw Hl]].
    exists l. split; [exact Hw|]. intros text Hin.
    destruct (Hl _ _ Hin) as [d' [content [E [Hr _]]]].
    apply append_inj_l in E. apply append_inj_r in E. subst d'.
    exact (Hno content Hr).
Qed.

(** X22. Whatever the outcome of a run, it writes no file for a platform
    whose detect.py could not be read when the run started: what is at the
    path of that platform's file in the directory cmake stays as it was,
    and no write of the run goes there. *)
Theorem convert_writes_no_platform_file_without_descriptor
        (root_dir : string) (w w' : world) (r : result unit) (d : string) :
  convert root_dir w = (r, w') ->
  (forall content, read (fs w) ["platform"; d; "detect.py"] <> Ok content) ->
  stat (fs w') ["cmake"; "platform_" +++ d +++ ".cmake"]
  = stat (fs w) ["cmake"; "platform_" +++ d +++ ".cmake"] /\
  exists l,
    written w' = written w ++ l /\
    forall text, ~ In (["cmake"%string; "platform_" +++ d +++ ".cmake"], text) l.
Proof. exact (@platform_file_untouched root_dir w w' r d). Qed.

Lemma convert_writes_no_platform_file_without_descriptor_witness :
  stat (fs (snd (convert "proj" (fresh stopping_tree))))
       ["cmake"; "platform_unfinished.cmake"]
  = stat (fs (fresh stopping_tree)) ["cmake"; "platform_unfinished.cmake"] /\
  exists l,
    written (snd (convert "proj" (fresh stopping_tree)))
    = written (fresh stopping_tree) ++ l /\
    forall text, ~ In (["cmake"%string; "platform_unfinished.cmake"], text) l.
Proof.
  apply (@convert_writes_no_platform_file_without_descriptor
           "proj" (fresh stopping_tree) _
           (fst (convert "proj" (fresh stopping_tree))) "unfinished").
  - apply surjective_pairing.
  - intros content H. vm_compute in H. discriminate H.
Defined.

Lemma mkdir_cmake_file (n : node) (content : string) :
  stat n ["cmake"] = Some (Some content) ->
  mkdir n ["cmake"] = Raise FileExistsError.
Proof.
  unfold stat. destruct n as [c|es]; cbn [walk mkdir]; [discriminate|].
  destruct (find "cmake" es) as [[c|es']|]; cbn [walk];
    [reflexivity|discriminate|discriminate].
Qed.

Lemma stops_at_cmake_file (root_dir : string) (w : world) (content : string) :
  stat (fs w) ["cmake"] = Some (Some content) ->
  exists e w',
    convert root_dir w = (Raise e, w') /\
    stat (fs w') ["cmake"] = Some (Some content) /\
    (written w' = written w \/
     exists options, written w' = written w ++ [root_file options]) /\
    forall p, p <> ["CMakeLists.txt"%string] -> stat (fs w') p = stat (fs w) p.
Proof.
  intros Hc.
  destruct (convert root_dir w) as [r w'] eqn:H.
  destruct (@convert_outcomes _ _ _ _ H)
    as [[-> [e ->]]|[options [configs [modules [_ [_ [_ He]]]]]]].
  { exists e, (started w). split; [reflexivity|]. split; [exact Hc|].
    split; [left; reflexivity|]. intros p _. reflexivity. }
  destruct (@emit_outcomes _ _ _ _ _ _ _ He)
    as [[-> [e ->]]|[w2 [later [Hroot [Hrest _]]]]].
  { exists e, (started w). split; [reflexivity|]. split; [exact Hc|].
    split; [left; reflexivity|]. intros p _. reflexivity. }
  unfold _generate_root_cmakelists in Hroot.
  assert (K : keeps ["cmake"%string]
                    (open_write ["CMakeLists.txt"] (join nl (root_content options)))).
  { apply keeps_open_write; [discriminate|reflexivity]. }
  pose proof (K _ _ _ Hroot) as Hc2. cbn [started fs] in Hc2. rewrite Hc in Hc2.
  destruct (@open_write_ok ["CMakeLists.txt"%string] _ _ _ eq_refl Hroot)
    as [_ [Hw _]].
  unfold _generate_platform_cmake_files in Hrest.
  unfold bind at 1 in Hrest. unfold bind at 1 in Hrest.
  unfold path_mkdir in Hrest. rewrite (@mkdir_cmake_file _ _ Hc2) in Hrest.
  injection Hrest as <- <-.
  exists FileExistsError, w2. split; [reflexivity|]. split; [exact Hc2|].
  split; [right; exists options; exact Hw|].
  intros p Hp.
  assert (Kp : keeps p
                 (open_write ["CMakeLists.txt"] (join nl (root_content options)))).
  { apply keeps_open_write; [exact Hp|reflexivity]. }
  exact (Kp _ _ _ Hroot).
Qed.

(** X16. On a tree in which the path cmake is a regular file every run
    raises; it has then written nothing, or the root CMakeLists.txt and
    nothing else, the file cmake is as it was, and so is everything at
    every path other than the root CMakeLists.txt. *)
Theorem convert_stops_at_cmake_file
        (root_dir : string) (w : world) (content : string) :
  stat (fs w) ["cmake"] = Some (Some content) ->
  exists e w',
    convert root_dir w = (Raise e, w') /\
    stat (fs w') ["cmake"] = Some (Some content) /\
    (written w' = written w \/
     exists options, written w' = written w ++ [root_file options]) /\
    forall p, p <> ["CMakeLists.txt"%string] -> stat (fs w') p = stat (fs w) p.
Proof. exact (@stops_at_cmake_file root_dir w content). Qed.

Lemma convert_stops_at_cmake_file_witness :
  exists e w',
    convert "proj" (fresh cmake_file_tree) = (Raise e, w') /\
    stat (fs w') ["cmake"] = Some (Some "include(old)"%string) /\
    (written w' = written (fresh cmake_file_tree) \/
     exists options,
       written w' = written (fresh cmake_file_tree) ++ [root_file options]) /\
    forall p, p <> ["CMakeLists.txt"%string] ->
              stat (fs w') p = stat (fs (fresh cmake_file_tree)) p.
Proof.
  apply (@convert_stops_at_cmake_file "proj" (fresh cmake_file_tree)).
  vm_compute. reflexivity.
Defined.

End Outcomes.

(** ** The exit status *)

Module ExitStatus.
Import StrFacts ReFacts ListPattern OptionPattern Soundness.
Import DictFacts Collect Frame Twice Discovery Failures OptionsFile Rounds Collected Keeps Written Aborts EntryPoint.

(** The text that [Path] makes of the argument. *)
Example pathlib_str_examples :
  pathlib_str "proj/" = "proj"%string /\
  pathlib_str "./a//b/." = "a/b"%string /\
  pathlib_str "" = "."%string /\
  pathlib_str "/" = "/"%string /\
  pathlib_str "//srv/godot" = "//srv/godot"%string /\
  pathlib_str "///srv" = "/srv"%string /\
  pathlib_str "../godot" = "../godot"%string.
Proof. vm_compute. repeat split. Qed.

Lemma exit_status_cases (argv : list string) (w : world) :
  (fst (exit_status argv w) = 0 \/ fst (exit_status argv w) = 1) /\
  (length argv <> 2 ->
   exit_status argv w
   = (1, {| fs := fs w;
            stdout := stdout w ++ ["Usage: scons_to_cmake.py <godot_root_dir>"%string];
            written := written w |})) /\
  (forall a r, argv = [a; r] -> is_dir (fs w) [] = false ->
     exit_status argv w
     = (1, {| fs := fs w;
              stdout := stdout w ++ ["Error: " +++ r +++ " is not a directory"];
              written := written w |})) /\
  (forall a r, argv = [a; r] -> is_dir (fs w) [] = true ->
     ((forall content, read (fs w) ["SConstruct"] <> Ok content) \/
      (exists x, is_dir (fs w) ["platform"; x; "detect.py"] = true) \/
      (exists x, is_dir (fs w) ["modules"; x; "SCsub"] = true)) ->
     exit_status argv w = (1, started w)) /\
  (fst (exit_status argv w) = 0 ->
   exists a r w1,
     argv = [a; r] /\ is_dir (fs w) [] = true /\
     convert (pathlib_str r) w = (Ok tt, w1) /\
     snd (exit_status argv w)
     = {| fs := fs w1;
          stdout := stdout w1 ++ ["Done! CMake files have been generated."%string];
          written := written w1 |}).
Proof.
  assert (Husage : length argv <> 2 ->
            exit_status argv w
            = (1, {| fs := fs w;
                     stdout := stdout w ++ ["Usage: scons_to_cmake.py <godot_root_dir>"%string];
                     written := written w |})).
  { intros H. unfold exit_status. rewrite (@main_usage _ w H). reflexivity. }
  assert (Hnodir : forall a r, argv = [a; r] -> is_dir (fs w) [] = false ->
            exit_status argv w
            = (1, {| fs := fs w;
                     stdout := stdout w ++ ["Error: " +++ r +++ " is not a directory"];
                     written := written w |})).
  { intros a r -> Hd. unfold exit_status. rewrite main_run, Hd. reflexivity. }
  split; [|split; [exact Husage|split; [exact Hnodir|split]]].
  - destruct (Nat.eq_dec (length argv) 2) as [Hlen|Hlen];
      [|right; rewrite (Husage Hlen); reflexivity].
    destruct argv as [|a [|r [|x rest]]]; try discriminate Hlen.
    unfold exit_status. rewrite main_run.
    destruct (is_dir (fs w) []); [|right; reflexivity].
    destruct (convert (pathlib_str r) w) as [[[]|e] w1];
      [left|right]; reflexivity.
  - intros a r -> Hd Hbad. unfold exit_status. rewrite main_run, Hd.
    destruct (@collection_failure_stops (pathlib_str r) w Hbad) as [e ->].
    reflexivity.
  - intros H0.
    destruct (Nat.eq_dec (length argv) 2) as [Hlen|Hlen];
      [|rewrite (Husage Hlen) in H0; discriminate H0].
    destruct argv as [|a [|r [|x rest]]]; try discriminate Hlen.
    clear Husage Hnodir. unfold exit_status in *. rewrite main_run in *.
    destruct (is_dir (fs w) []) eqn:Hd; [|discriminate H0].
    destruct (convert (pathlib_str r) w) as [[[]|e] w1] eqn:Hc;
      [|discriminate H0].
    exists a, r, w1. split; [reflexivity|]. split; [reflexivity|].
    split; [exact Hc|reflexivity].
Qed.

(** X17. The process ends with status 0 or 1. With another number of
    arguments than one it prints the usage line, and with a path that is no
    directory the error line with the argument as it was given; in both
    cases the status is 1 and nothing is written. When the options file
    cannot be read, or a detect.py or an SCsub is a directory, the status
    is 1 and nothing is written either. The status is 0 only after a run
    of the converter, on the argument as [Path] prints it, that has
    returned. *)
Theorem exit_status_one_unless_run_returns (argv : list string) (w : world) :
  (fst (exit_status argv w) = 0 \/ fst (exit_status argv w) = 1) /\
  (length argv <> 2 ->
   exit_status argv w
   = (1, {| fs := fs w;
            stdout := stdout w ++ ["Usage: scons_to_cmake.py <godot_root_dir>"%string];
            written := written w |})) /\
  (forall a r, argv = [a; r] -> is_dir (fs w) [] = false ->
     exit_status argv w
     = (1, {| fs := fs w;
              stdout := stdout w ++ ["Error: " +++ r +++ " is not a directory"];
              written := written w |})) /\
  (forall a r, argv = [a; r] -> is_dir (fs w) [] = true ->
     ((forall content, read (fs w) ["SConstruct"] <> Ok content) \/
      (exists x, is_dir (fs w) ["platform"; x; "detect.py"] = true) \/
      (exists x, is_dir (fs w) ["modules"; x; "SCsub"] = true)) ->
     exit_status argv w = (1, started w)) /\
  (fst (exit_status argv w) = 0 ->
   exists a r w1,
     argv = [a; r] /\ is_dir (fs w) [] = true /\
     convert (pathlib_str r) w = (Ok tt, w1) /\
     snd (exit_status argv w)
     = {| fs := fs w1;
          stdout := stdout w1 ++ ["Done! CMake files have been generated."%string];
          written := written w1 |}).
Proof. exact (exit_status_cases argv w). Qed.

(** The three ways to status 1 without a write, on sample inputs. *)
Example exit_status_samples :
  exit_status ["scons_to_cmake.py"] (fresh sample_tree)
  = (1, {| fs := sample_tree;
           stdout := ["Usage: scons_to_cmake.py <godot_root_dir>"%string];
           written := [] |}) /\
  exit_status ["scons_to_cmake.py"; "proj/SConstruct"] (fresh (File string_line))
  = (1, {| fs := File string_line;
           stdout := ["Error: proj/SConstruct is not a directory"%string];
           written := [] |}) /\
  exit_status ["scons_to_cmake.py"; "proj/"] (fresh scsub_dir_tree)
  = (1, started (fresh scsub_dir_tree)).
Proof. vm_compute. repeat split. Qed.

End ExitStatus.
